(** * MoHFW breadth-first PDF crawler: model of [mohfw_bfs_crawler.py]

    The crawler is a single Python class, [MoHFWCrawler].  Its fields
    become the record [Crawler]; its methods become functions that pass
    the record along.  Everything outside the process (the HTTP server,
    the file system, the clock, the HTML parser) is collected in the
    record [Env], so the functions stay executable.

    Python [str] is modelled by [string]: a character is a code point
    below 256 (Latin-1), on which [lower], [isalnum] and [isspace] follow
    Python's tables.  Python [int] is [Z]; [int(s)] follows CPython 3.11,
    with its cap of 4300 digits.  The one [float] that is stored, the
    [file_size_kb] of a sidecar, is computed as CPython computes it
    (see [size_kb]).  [set] is [gset], [deque] is [list] (head = left
    end), and paths are POSIX paths.

    [files] is the part of the file system that the crawler opens
    itself: the PDFs and their sidecars.  The log file [crawler.log],
    which the [FileHandler] of lines 11-18 appends to in the current
    directory, is not in [files]: a line handed to [logging] is a
    [Logged] event of [trace], and stands for the line in [crawler.log]
    and the line on the console.

    Every effect is appended to [trace].  A [Get] event is one call of
    [requests.get]; the requests that the library sends inside that call
    while it follows redirects are not events.  A [Progress] event is
    the [print] of line 179; it records the three counters and always
    succeeds, whereas the [print] of the program raises [OverflowError]
    once [total_size_bytes / 1024] leaves the range of a double, at
    [2^1034 - 2^980] bytes, and so ends the crawl: what is said below of
    an iteration that prints is said of iterations whose [print]
    succeeds.  The body of a response is a finite list of chunks. *)

From Stdlib Require Import ZArith Ascii String List Lia Bool.
From stdpp Require Import base gmap strings list pretty.

Local Open Scope string_scope.

(** ** Python string primitives *)

Module Py.

Definition code (c : ascii) : nat := nat_of_ascii c.

Definition between (lo hi : nat) (c : ascii) : bool :=
  (lo <=? code c)%nat && (code c <=? hi)%nat.

Definition eqc (a b : ascii) : bool := Ascii.eqb a b.

(** [c.isdecimal()], [c.isascii() and c.isalpha()]. *)
Definition isdecimal (c : ascii) : bool := between 48 57 c.
Definition is_ascii_alpha (c : ascii) : bool := between 65 90 c || between 97 122 c.

(** [c.isalnum()] on code points below 256. *)
Definition isalnum (c : ascii) : bool :=
  isdecimal c || is_ascii_alpha c
  || (code c =? 170)%nat || (code c =? 178)%nat || (code c =? 179)%nat
  || (code c =? 181)%nat || (code c =? 185)%nat || (code c =? 186)%nat
  || between 188 190 c || between 192 214 c || between 216 246 c
  || between 248 255 c.

(** [c.isspace()] on code points below 256. *)
Definition isspace (c : ascii) : bool :=
  between 9 13 c || between 28 32 c || (code c =? 133)%nat || (code c =? 160)%nat.

(** [c.lower()] on code points below 256: A-Z, and the Latin-1 capitals
    0xC0-0xDE without the multiplication sign 0xD7. *)
Definition lower_char (c : ascii) : ascii :=
  if between 65 90 c || (between 192 222 c && negb (code c =? 215)%nat)
  then ascii_of_nat (code c + 32) else c.

Fixpoint lower (s : string) : string :=
  match s with
  | "" => ""
  | String c s' => String (lower_char c) (lower s')
  end.

Fixpoint forall_chars (p : ascii -> bool) (s : string) : bool :=
  match s with
  | "" => true
  | String c s' => p c && forall_chars p s'
  end.

(** ["".join(c for c in s if p c)] *)
Fixpoint filter_chars (p : ascii -> bool) (s : string) : string :=
  match s with
  | "" => ""
  | String c s' => if p c then String c (filter_chars p s') else filter_chars p s'
  end.

(** [c in s] for a single character [c]. *)
Fixpoint has_char (c : ascii) (s : string) : bool :=
  match s with
  | "" => false
  | String a s' => eqc a c || has_char c s'
  end.

(** [not s] *)
Definition is_empty (s : string) : bool :=
  match s with "" => true | _ => false end.

(** [s.startswith(p)] *)
Fixpoint startswith (p s : string) : bool :=
  match p, s with
  | "", _ => true
  | String a p', String b s' => eqc a b && startswith p' s'
  | String _ _, "" => false
  end.

(** [s[len(p):]] when [s.startswith(p)]. *)
Fixpoint strip_prefix (p s : string) : option string :=
  match p, s with
  | "", _ => Some s
  | String a p', String b s' => if eqc a b then strip_prefix p' s' else None
  | String _ _, "" => None
  end.

(** [s.endswith(suf)]: some tail of [s] is [suf]. *)
Fixpoint endswith (suf s : string) : bool :=
  String.eqb s suf ||
  match s with
  | "" => false
  | String _ s' => endswith suf s'
  end.

(** [sub in s] *)
Fixpoint contains (sub s : string) : bool :=
  startswith sub s ||
  match s with
  | "" => false
  | String _ s' => contains sub s'
  end.

(** [s.partition(c)] when [c] occurs: the text before and after the first
    [c]; [None] when [c] does not occur ([s.find(c) < 0]). *)
Fixpoint partition (c : ascii) (s : string) : option (string * string) :=
  match s with
  | "" => None
  | String a s' =>
      if eqc a c then Some ("", s')
      else match partition c s' with
           | Some (b, t) => Some (String a b, t)
           | None => None
           end
  end.

(** [s.rpartition(c)] when [c] occurs: the text before and after the last [c]. *)
Fixpoint rpartition (c : ascii) (s : string) : option (string * string) :=
  match s with
  | "" => None
  | String a s' =>
      match rpartition c s' with
      | Some (b, t) => Some (String a b, t)
      | None => if eqc a c then Some ("", s') else None
      end
  end.

(** The longest prefix without a character satisfying [p], and the rest. *)
Fixpoint break_at (p : ascii -> bool) (s : string) : string * string :=
  match s with
  | "" => ("", "")
  | String a s' =>
      if p a then ("", s)
      else let '(b, t) := break_at p s' in (String a b, t)
  end.

(** [s.lstrip(chars)], [s.rstrip(chars)], [s.strip(chars)] with the
    character set given as a predicate. *)
Fixpoint lstrip (p : ascii -> bool) (s : string) : string :=
  match s with
  | "" => ""
  | String a s' => if p a then lstrip p s' else s
  end.

Fixpoint rstrip (p : ascii -> bool) (s : string) : string :=
  match s with
  | "" => ""
  | String a s' =>
      match rstrip p s' with
      | "" => if p a then "" else String a ""
      | r => String a r
      end
  end.

Definition strip (p : ascii -> bool) (s : string) : string := lstrip p (rstrip p s).

(** [s.split(c)] *)
Fixpoint split (c : ascii) (s : string) : list string :=
  match s with
  | "" => [""]
  | String a s' =>
      if eqc a c then "" :: split c s'
      else match split c s' with
           | h :: t => String a h :: t
           | [] => [String a ""]
           end
  end.

(** [sep.join(l)] *)
Fixpoint join (sep : string) (l : list string) : string :=
  match l with
  | [] => ""
  | [x] => x
  | x :: l' => x +:+ sep +:+ join sep l'
  end.

(** [str(n)] for an integer. *)
Definition str_of_int (n : Z) : string := pretty n.

(** [int(s)] for a string: surrounding white space is dropped, one sign is
    allowed, digits may be separated by single underscores, and there are
    at most [sys.get_int_max_str_digits()] digits, 4300 unless the
    interpreter is told otherwise.  [None] is [ValueError].

    The white space that [int] drops is not [str.isspace]: the ASCII
    separators 0x1C-0x1F are spaces for [str.isspace] and an error for
    [int]. *)
Definition int_space (c : ascii) : bool :=
  between 9 13 c || (code c =? 32)%nat || (code c =? 133)%nat || (code c =? 160)%nat.

Definition max_str_digits : nat := 4300.

Definition digit_val (c : ascii) : Z := Z.of_nat (code c - 48).

Fixpoint int_digits (acc : Z) (after_digit : bool) (s : string) : option Z :=
  match s with
  | "" => if after_digit then Some acc else None
  | String c s' =>
      if isdecimal c then int_digits (10 * acc + digit_val c) true s'
      else if eqc c "_" && after_digit then int_digits acc false s'
      else None
  end.

Definition int_body (d : string) : option Z :=
  if (max_str_digits <? String.length (filter_chars isdecimal d))%nat then None
  else int_digits 0 false d.

Definition int_of_str (s : string) : option Z :=
  match strip int_space s with
  | String "-" d => Z.opp <$> int_body d
  | String "+" d => int_body d
  | d => int_body d
  end.

End Py.

(** ** [urllib.parse] and [os.path] as the crawler uses them

    The functions follow CPython 3.11's [urllib/parse.py] line by line on
    [str] arguments.  [None] stands for the [ValueError] that [urlsplit]
    raises on a malformed bracketed host.  The validation of a host in
    square brackets ([_check_bracketed_netloc]) is a parameter; the NFKC
    check [_checknetloc] never fires on code points below 256. *)

Module Url.

Import Py.

Record ParseResult := mkParse {
  scheme : string;
  netloc : string;
  path : string;
  params : string;
  query : string;
  fragment : string
}.

Definition uses_relative : list string :=
  [""; "ftp"; "http"; "gopher"; "nntp"; "imap"; "wais"; "file"; "https";
   "shttp"; "mms"; "prospero"; "rtsp"; "rtspu"; "sftp"; "svn"; "svn+ssh";
   "ws"; "wss"].

Definition uses_netloc : list string :=
  [""; "ftp"; "http"; "gopher"; "nntp"; "telnet"; "imap"; "wais"; "file";
   "mms"; "https"; "shttp"; "snews"; "prospero"; "rtsp"; "rtspu"; "rsync";
   "svn"; "svn+ssh"; "sftp"; "nfs"; "git"; "git+ssh"; "ws"; "wss"].

Definition uses_params : list string :=
  [""; "ftp"; "hdl"; "prospero"; "http"; "imap"; "https"; "shttp"; "rtsp";
   "rtspu"; "sip"; "sips"; "mms"; "sftp"; "tel"].

Definition mem (s : string) (l : list string) : bool := bool_decide (s ∈ l).

Definition scheme_char (c : ascii) : bool :=
  is_ascii_alpha c || isdecimal c || eqc c "+" || eqc c "-" || eqc c ".".

(** [_WHATWG_C0_CONTROL_OR_SPACE] and [_UNSAFE_URL_BYTES_TO_REMOVE]. *)
Definition c0_or_space (c : ascii) : bool := (code c <=? 32)%nat.
Definition unsafe_byte (c : ascii) : bool := (code c =? 9)%nat || (code c =? 13)%nat || (code c =? 10)%nat.
Definition remove_unsafe (s : string) : string := filter_chars (fun c => negb (unsafe_byte c)) s.

Definition netloc_delim (c : ascii) : bool := eqc c "/" || eqc c "?" || eqc c "#".

(** The scheme test of [urlsplit]: [i = url.find(':')], [i > 0], the first
    character an ASCII letter, every character of [url[:i]] a scheme
    character. *)
Definition split_scheme (default url : string) : string * string :=
  match partition ":" url with
  | Some (String c0 pre, post) =>
      if is_ascii_alpha c0 && forall_chars scheme_char (String c0 pre)
      then (lower (String c0 pre), post)
      else (default, url)
  | _ => (default, url)
  end.

(** [url.split('#', 1)] guarded by ['#' in url], and the same for ['?']. *)
Definition split1 (c : ascii) (url : string) : string * string :=
  match partition c url with
  | Some (b, t) => (b, t)
  | None => (url, "")
  end.

Section Parse.

Variable check_bracketed_netloc : string -> bool.

(** [if url[:2] == '//': netloc, url = _splitnetloc(url, 2)] with the
    bracket checks that follow it. *)
Definition split_netloc (url : string) : option (string * string) :=
  match strip_prefix "//" url with
  | Some rest =>
      let '(nl, url') := break_at netloc_delim rest in
      if (has_char "[" nl && negb (has_char "]" nl))
         || (has_char "]" nl && negb (has_char "[" nl)) then None
      else if has_char "[" nl && has_char "]" nl && negb (check_bracketed_netloc nl)
      then None
      else Some (nl, url')
  | None => Some ("", url)
  end.

(** The body of [urlsplit] below the two cleaning steps: scheme, netloc,
    fragment, query, in that order. *)
Definition split_parts (url default : string) : option ParseResult :=
  let '(sch, url) := split_scheme default url in
  match split_netloc url with
  | None => None
  | Some (nl, url) =>
      let '(url, frag) := split1 "#" url in
      let '(url, qry) := split1 "?" url in
      Some (mkParse sch nl url "" qry frag)
  end.

(** [urlsplit(url, scheme)]; the result has [params = ""]. *)
Definition urlsplit (url default : string) : option ParseResult :=
  split_parts (remove_unsafe (lstrip c0_or_space url))
    (remove_unsafe (strip c0_or_space default)).

(** [_splitparams(url)], called only when [';' in url]. *)
Definition splitparams (url : string) : string * string :=
  match rpartition "/" url with
  | Some (dir, last) =>
      match partition ";" last with
      | Some (b, t) => (dir +:+ "/" +:+ b, t)
      | None => (url, "")
      end
  | None => split1 ";" url
  end.

(** [urlparse(url, scheme)] *)
Definition urlparse (url default : string) : option ParseResult :=
  match urlsplit url default with
  | None => None
  | Some r =>
      if mem (scheme r) uses_params && has_char ";" (path r) then
        let '(p, prm) := splitparams (path r) in
        Some (mkParse (scheme r) (netloc r) p prm (query r) (fragment r))
      else Some r
  end.

End Parse.

(** [urlunsplit((scheme, netloc, url, query, fragment))] *)
Definition urlunsplit (sch nl url qry frag : string) : string :=
  let url :=
    if negb (is_empty nl)
       || (negb (is_empty sch) && mem sch uses_netloc && negb (startswith "//" url))
    then
      let url := if negb (is_empty url) && negb (startswith "/" url)
                 then "/" +:+ url else url in
      "//" +:+ nl +:+ url
    else url in
  let url := if negb (is_empty sch) then sch +:+ ":" +:+ url else url in
  let url := if negb (is_empty qry) then url +:+ "?" +:+ qry else url in
  if negb (is_empty frag) then url +:+ "#" +:+ frag else url.

(** [urlunparse(r)], which is also [r.geturl()]. *)
Definition urlunparse (r : ParseResult) : string :=
  let url := if negb (is_empty (params r))
             then path r +:+ ";" +:+ params r else path r in
  urlunsplit (scheme r) (netloc r) url (query r) (fragment r).

Definition geturl (r : ParseResult) : string := urlunparse r.

(** [r._replace(fragment=f)] *)
Definition replace_fragment (f : string) (r : ParseResult) : ParseResult :=
  mkParse (scheme r) (netloc r) (path r) (params r) (query r) f.

(** The path resolution of [urljoin]. *)

(** [del base_parts[-1]] when the last part is not empty. *)
Definition drop_file_part (parts : list string) : list string :=
  match last parts with
  | Some "" => parts
  | Some _ => removelast parts
  | None => parts
  end.

(** [segments[1:-1] = filter(None, segments[1:-1])] *)
Definition squeeze (segments : list string) : list string :=
  match segments with
  | first :: (_ :: _) as rest =>
      first :: List.filter (fun s => negb (is_empty s)) (removelast rest)
        ++ match last rest with Some l => [l] | None => [] end
  | _ => segments
  end.

(** The loop over [segments] that builds [resolved_path]. *)
Definition resolve_step (resolved : list string) (seg : string) : list string :=
  if String.eqb seg ".." then removelast resolved
  else if String.eqb seg "." then resolved
  else resolved ++ [seg].

Definition resolve (segments : list string) : list string :=
  let resolved := fold_left resolve_step segments [] in
  match last segments with
  | Some l => if String.eqb l "." || String.eqb l ".." then resolved ++ [""] else resolved
  | None => resolved
  end.

Definition join_paths (bpath path : string) : string :=
  let base_parts := drop_file_part (split "/" bpath) in
  let segments :=
    if startswith "/" path then split "/" path
    else squeeze (base_parts ++ split "/" path) in
  let p := join "/" (resolve segments) in
  if is_empty p then "/" else p.

Section Join.

Variable check_bracketed_netloc : string -> bool.

(** [urljoin(base, url)] *)
Definition urljoin (base url : string) : option string :=
  if is_empty base then Some url
  else if is_empty url then Some base
  else
    match urlparse check_bracketed_netloc base "" with
    | None => None
    | Some b =>
        match urlparse check_bracketed_netloc url (scheme b) with
        | None => None
        | Some u =>
            if negb (String.eqb (scheme u) (scheme b)) || negb (mem (scheme u) uses_relative)
            then Some url
            else if mem (scheme u) uses_netloc && negb (is_empty (netloc u))
            then Some (urlunparse u)
            else
              let nl := if mem (scheme u) uses_netloc then netloc b else netloc u in
              if is_empty (path u) && is_empty (params u) then
                let qry := if is_empty (query u) then query b else query u in
                Some (urlunparse (mkParse (scheme u) nl (path b) (params b) qry (fragment u)))
              else
                Some (urlunparse (mkParse (scheme u) nl (join_paths (path b) (path u))
                                    (params u) (query u) (fragment u)))
        end
    end.

(** [urlparse(u)._replace(fragment="").geturl()] *)
Definition remove_fragment (u : string) : option string :=
  match urlparse check_bracketed_netloc u "" with
  | None => None
  | Some r => Some (geturl (replace_fragment "" r))
  end.

End Join.

(** [os.path.basename(p)] and [os.path.join(a, b)] of [posixpath]. *)
Definition basename (p : string) : string :=
  match rpartition "/" p with
  | Some (_, t) => t
  | None => p
  end.

Definition path_join (a b : string) : string :=
  if startswith "/" b then b
  else if is_empty a || endswith "/" a then a +:+ b
  else a +:+ "/" +:+ b.

End Url.

(** ** The world outside the process *)

(** What a successful [requests.get(url, stream=True)] exposes to the
    crawler: two headers, and the body as the chunks that
    [iter_content] yields.  [stream_ok = false] means that reading the
    body raises once the chunks are exhausted. *)
Record Response := mkResponse {
  content_type : option string;
  content_length : option string;
  chunks : list string;
  stream_ok : bool
}.

(** [requests.get] followed by [raise_for_status]: a response, a
    [requests.RequestException] (timeout, connection reset, error
    status), or an exception of another class. *)
Inductive GetOutcome :=
| Responds (r : Response)
| RequestException
| OtherException.

(** An [open(path, 'w')] and the writes that follow: all succeed, the
    [open] raises, or the write call number [n] (from 0) raises. *)
Inductive WriteFault :=
| WriteOk
| OpenFails
| WriteFails (n : nat).

Inductive Level := INFO | WARNING | ERROR.

Inductive Msg :=
| StartingCrawl
| Visiting (url : string)
| AttemptFailed (attempt max_retries : nat) (url : string)
| FailedToFetch (url : string) (max_retries : nat)
| SkippingSmallPdf (content_length : Z) (url : string)
| Downloaded (filename : string) (size_kb_hundredths : Z)
| ErrorSavingPdf (url : string)
| SkippingContentType (content_type : string)
| ErrorProcessing (url : string)
| CrawlComplete
| TotalPagesVisited (n : Z)
| TotalPdfsDownloaded (n : Z).

(** The effects of the crawler on the world, in the order they happen:
    a call of [requests.get], a [time.sleep], a line handed to [logging],
    the [print] of the progress line. *)
Inductive Event :=
| Get (url : string)
| Sleep (seconds : nat)
| Logged (level : Level) (msg : Msg)
| Progress (pages pdfs size_bytes : Z).

(** The sidecar record.  [file_size_kb] is kept in hundredths of a KB:
    it is the decimal with two places that [round(content_length / 1024, 2)]
    selects, and the dict holds the double nearest to it. *)
Record Metadata := mkMetadata {
  source_authority : string;
  tier : string;
  download_url : string;
  file_name : string;
  crawl_date : string;
  file_size_kb : Z
}.

Inductive File :=
| PdfFile (bytes : string)
| JsonFile (m : Metadata)
| PartialJson.

(** The external collaborators.  The [nat] argument of an oracle is the
    number of events emitted so far, so an oracle may answer differently
    each time it is asked. *)
Record Env := mkEnv {
  check_bracketed_netloc : string -> bool;
  requests_get : nat -> string -> GetOutcome;
  find_all_a_href : string -> list string;
  write_fault : nat -> string -> WriteFault;
  time_time : nat -> Z;
  strftime_ymd : nat -> string
}.

(** ** The crawler *)

Local Open Scope Z_scope.

Record Crawler := mkCrawler {
  visited : gset string;
  queue : list string;
  pages_visited : Z;
  pdfs_downloaded : Z;
  total_size_bytes : Z;
  files : gmap string File;
  trace : list Event
}.

(** How a block of statements ends: it falls through, it executes
    [continue], or it raises. *)
Inductive Flow := Normal | Continue | Raised.

Definition base_url : string := "https://mohfw.gov.in".
Definition seed_url : string := "https://mohfw.gov.in".
Definition download_dir : string :=
  Url.path_join (Url.path_join "data_dump" "General_Medicine") "MoHFW".
Definition pdf_min_size : Z := 50 * 1024.
Definition max_retries : nat := 3%nat.

(** [__init__], on a file system that holds [fs]. *)
Definition init (fs : gmap string File) : Crawler :=
  mkCrawler ∅ [seed_url] 0 0 0 fs [].

Definition emit (e : Event) (s : Crawler) : Crawler :=
  mkCrawler (visited s) (queue s) (pages_visited s) (pdfs_downloaded s)
    (total_size_bytes s) (files s) (trace s ++ [e]).

Definition logging (l : Level) (m : Msg) (s : Crawler) : Crawler := emit (Logged l m) s.

Definition set_queue (q : list string) (s : Crawler) : Crawler :=
  mkCrawler (visited s) q (pages_visited s) (pdfs_downloaded s)
    (total_size_bytes s) (files s) (trace s).

Definition set_files (fs : gmap string File) (s : Crawler) : Crawler :=
  mkCrawler (visited s) (queue s) (pages_visited s) (pdfs_downloaded s)
    (total_size_bytes s) fs (trace s).

Definition now (s : Crawler) : nat := length (trace s).

(** [is_valid_url]; [None] is the [ValueError] of [urlparse]. *)
Definition is_valid_url (E : Env) (s : Crawler) (url : string) : option bool :=
  match Url.urlparse (check_bracketed_netloc E) url "" with
  | None => None
  | Some parsed =>
      Some (Py.endswith "mohfw.gov.in" (Url.netloc parsed)
            && negb (bool_decide (url ∈ visited s)))
  end.

(** [get_response]: the [for attempt in range(max_retries)] loop, entered
    at [attempt] with [remaining] iterations to go.  [None] in the
    result is Python's [None]; [Raised] is an exception that is not a
    [RequestException]. *)
Fixpoint get_response_loop (E : Env) (url : string) (attempt remaining : nat)
    (s : Crawler) : Crawler * Flow * option Response :=
  match remaining with
  | O => (logging ERROR (FailedToFetch url max_retries) s, Normal, None)
  | S k =>
      let s1 := emit (Get url) s in
      match requests_get E (now s) url with
      | Responds r => (s1, Normal, Some r)
      | RequestException =>
          let s2 := logging WARNING (AttemptFailed (attempt + 1)%nat max_retries url) s1 in
          get_response_loop E url (S attempt) k (emit (Sleep 2%nat) s2)
      | OtherException => (s1, Raised, None)
      end
  end.

Definition get_response (E : Env) (url : string) (s : Crawler)
    : Crawler * Flow * option Response :=
  get_response_loop E url 0 max_retries s.

(** [int(response.headers.get('content-length', 0))] *)
Definition declared_length (r : Response) : option Z :=
  match content_length r with
  | None => Some 0
  | Some v => Py.int_of_str v
  end.

(** Lines 70-78 of [save_pdf]: the file name for the URL path [p], at
    clock reading [t]. *)
Definition clean_char (c : ascii) : bool :=
  Py.isalnum c || Py.eqc c " " || Py.eqc c "." || Py.eqc c "_" || Py.eqc c "-".

Definition pdf_filename (t : Z) (p : string) : string :=
  let filename := Url.basename p in
  let filename :=
    if Py.is_empty filename || Py.endswith "/" filename
    then "document_" +:+ Py.str_of_int t +:+ ".pdf" else filename in
  let filename :=
    if negb (Py.endswith ".pdf" (Py.lower filename))
    then filename +:+ ".pdf" else filename in
  Py.filter_chars clean_char filename.

(** Line 97, [round(content_length / 1024, 2)], in two steps.

    [content_length / 1024] is the double nearest to the quotient, ties
    going to the even mantissa of 53 bits; it raises [OverflowError]
    when that double would be [2^1024] or more.  [round(x, 2)] is the
    decimal with two places nearest to the double [x], ties going to the
    even digit, converted back to a double.

    [size_kb] is that decimal, in hundredths: the metadata holds the
    double nearest to [size_kb / 100].  Below [2^53] the quotient is a
    double as it stands. *)
Definition round_half_even (num den : Z) : Z :=
  let q := num / den in
  let r := num mod den in
  if (den <? 2 * r) || ((2 * r =? den) && Z.odd q) then q + 1 else q.

(** The double nearest to [n / 1024] for [0 <= n], as a mantissa [m] and
    an exponent [e]: the double is [m * 2^e]. *)
Definition kb_double (n : Z) : Z * Z :=
  let bits := Z.log2 n + 1 in
  if bits <=? 53 then (n, -10)
  else (round_half_even n (2 ^ (bits - 53)), bits - 53 - 10).

Definition kb_overflows (content_length : Z) : bool :=
  let '(m, e) := kb_double (Z.abs content_length) in
  (0 <=? e) && (2 ^ 1024 <=? m * 2 ^ e).

Definition size_kb (content_length : Z) : Z :=
  let '(m, e) := kb_double (Z.abs content_length) in
  Z.sgn content_length
  * (if 0 <=? e then 100 * m * 2 ^ e else round_half_even (100 * m) (2 ^ (- e))).

(** Lines 83-85: stream the body into [file_path]. *)
Definition write_pdf (E : Env) (file_path : string) (r : Response) (s : Crawler)
    : Crawler * Flow :=
  match write_fault E (now s) file_path with
  | OpenFails => (s, Raised)
  | WriteFails n =>
      if (n <? length (chunks r))%nat
      then (set_files (<[file_path := PdfFile (String.concat "" (take n (chunks r)))]> (files s)) s,
            Raised)
      else (set_files (<[file_path := PdfFile (String.concat "" (chunks r))]> (files s)) s,
            if stream_ok r then Normal else Raised)
  | WriteOk =>
      (set_files (<[file_path := PdfFile (String.concat "" (chunks r))]> (files s)) s,
       if stream_ok r then Normal else Raised)
  end.

(** Lines 100-102: dump the metadata into [json_path]. *)
Definition write_json (E : Env) (json_path : string) (m : Metadata) (s : Crawler)
    : Crawler * Flow :=
  match write_fault E (now s) json_path with
  | OpenFails => (s, Raised)
  | WriteFails _ => (set_files (<[json_path := PartialJson]> (files s)) s, Raised)
  | WriteOk => (set_files (<[json_path := JsonFile m]> (files s)) s, Normal)
  end.

(** Lines 87-88. *)
Definition count_pdf (content_length : Z) (s : Crawler) : Crawler :=
  mkCrawler (visited s) (queue s) (pages_visited s) (pdfs_downloaded s + 1)
    (total_size_bytes s + content_length) (files s) (trace s).

(** The [try] block of [save_pdf]. *)
Definition save_pdf_try (E : Env) (url : string) (r : Response) (s : Crawler)
    : Crawler * Flow :=
  match declared_length r with
  | None => (s, Raised)
  | Some len =>
      if len <? pdf_min_size
      then (logging INFO (SkippingSmallPdf len url) s, Normal)
      else
        match Url.urlparse (check_bracketed_netloc E) url "" with
        | None => (s, Raised)
        | Some parsed =>
            let filename := pdf_filename (time_time E (now s)) (Url.path parsed) in
            let file_path := Url.path_join download_dir filename in
            match write_pdf E file_path r s with
            | (s1, Normal) =>
                let s2 := count_pdf len s1 in
                if kb_overflows len then (s2, Raised)
                else
                  let metadata :=
                    mkMetadata "MoHFW" "Tier1" url filename
                      (strftime_ymd E (now s2)) (size_kb len) in
                  match write_json E (file_path +:+ ".json") metadata s2 with
                  | (s3, Normal) =>
                      (logging INFO (Downloaded filename (file_size_kb metadata)) s3,
                       Normal)
                  | (s3, _) => (s3, Raised)
                  end
            | (s1, _) => (s1, Raised)
            end
        end
  end.

(** [save_pdf]: the [try] block under [except Exception]. *)
Definition save_pdf (E : Env) (url : string) (r : Response) (s : Crawler) : Crawler :=
  match save_pdf_try E url r s with
  | (s', Normal) => s'
  | (s', _) => logging ERROR (ErrorSavingPdf url) s'
  end.

(** Lines 164-167: resolve [href] against the page and drop the fragment. *)
Definition normalize_link (E : Env) (page href : string) : option string :=
  match Url.urljoin (check_bracketed_netloc E) page href with
  | None => None
  | Some full_url => Url.remove_fragment (check_bracketed_netloc E) full_url
  end.

(** Lines 169-171: the guarded [self.queue.append(full_url)]. *)
Definition enqueue (E : Env) (full_url : string) (s : Crawler) : option Crawler :=
  match is_valid_url E s full_url with
  | None => None
  | Some true =>
      if negb (bool_decide (full_url ∈ visited s)) && negb (bool_decide (full_url ∈ queue s))
      then Some (set_queue (queue s ++ [full_url]) s)
      else Some s
  | Some false => Some s
  end.

(** Lines 162-171: the loop over the anchors of a page. *)
Fixpoint enqueue_links (E : Env) (page : string) (hrefs : list string) (s : Crawler)
    : Crawler * Flow :=
  match hrefs with
  | [] => (s, Normal)
  | href :: rest =>
      match normalize_link E page href with
      | None => (s, Raised)
      | Some full_url =>
          match enqueue E full_url s with
          | None => (s, Raised)
          | Some s' => enqueue_links E page rest s'
          end
      end
  end.

(** How lines 148-173 treat a response. *)
Inductive Kind := IsPdf | IsHtml | IsOther.

Definition classify (url : string) (r : Response) : Kind :=
  let ct := Py.lower (default "" (content_type r)) in
  if Py.contains "application/pdf" ct || Py.endswith ".pdf" (Py.lower url) then IsPdf
  else if Py.contains "text/html" ct then IsHtml
  else IsOther.

(** Lines 142-173: the [try] block of the loop body. *)
Definition process (E : Env) (url : string) (s : Crawler) : Crawler * Flow :=
  match get_response E url s with
  | (s1, Raised, _) => (s1, Raised)
  | (s1, _, None) => (s1, Continue)
  | (s1, _, Some r) =>
      match classify url r with
      | IsPdf => (save_pdf E url r s1, Normal)
      | IsHtml =>
          if stream_ok r
          then enqueue_links E url (find_all_a_href E (String.concat "" (chunks r))) s1
          else (s1, Continue)
      | IsOther =>
          (logging INFO (SkippingContentType (Py.lower (default "" (content_type r)))) s1,
           Normal)
      end
  end.

(** Lines 119-120. *)
Definition visit (url : string) (s : Crawler) : Crawler :=
  mkCrawler ({[url]} ∪ visited s) (queue s) (pages_visited s + 1)
    (pdfs_downloaded s) (total_size_bytes s) (files s) (trace s).

Definition progress (s : Crawler) : Crawler :=
  emit (Progress (pages_visited s) (pdfs_downloaded s) (total_size_bytes s)) s.

(** One iteration of [while self.queue]; [None] when the queue is empty. *)
Definition crawl_step (E : Env) (s : Crawler) : option Crawler :=
  match queue s with
  | [] => None
  | url :: q =>
      let s := set_queue q s in
      if bool_decide (url ∈ visited s) then Some s
      else
        let s := logging INFO (Visiting url) s in
        let s := visit url s in
        let s := emit (Sleep 1%nat) s in
        match process E url s with
        | (s', Normal) => Some (progress s')
        | (s', Continue) => Some s'
        | (s', Raised) => Some (progress (logging ERROR (ErrorProcessing url) s'))
        end
  end.

(** The [while] loop, cut off after [fuel] iterations; [None] when the
    fuel runs out before the queue does. *)
Fixpoint crawl_loop (E : Env) (fuel : nat) (s : Crawler) : option Crawler :=
  match crawl_step E s with
  | None => Some s
  | Some s' =>
      match fuel with
      | O => None
      | S k => crawl_loop E k s'
      end
  end.

(** [crawl] *)
Definition crawl (E : Env) (fuel : nat) (s : Crawler) : option Crawler :=
  match crawl_loop E fuel (logging INFO StartingCrawl s) with
  | None => None
  | Some s' =>
      let s' := logging INFO CrawlComplete s' in
      let s' := logging INFO (TotalPagesVisited (pages_visited s')) s' in
      Some (logging INFO (TotalPdfsDownloaded (pdfs_downloaded s')) s')
  end.

(** ** Properties of states and runs *)

(** The queue holds no URL twice and no URL that is already visited. *)
Definition frontier_ok (s : Crawler) : Prop :=
  NoDup (queue s) ∧ ∀ u, u ∈ queue s → u ∉ visited s.

(** The states at the head of the [while] loop of [crawl]. *)
Inductive reachable (E : Env) (fs : gmap string File) : Crawler -> Prop :=
| reach_start : reachable E fs (logging INFO StartingCrawl (init fs))
| reach_step s s' :
    reachable E fs s -> crawl_step E s = Some s' -> reachable E fs s'.

Definition same_frontier (s s' : Crawler) : Prop :=
  visited s' = visited s ∧ queue s' = queue s.

Definition same_counters (s s' : Crawler) : Prop :=
  pages_visited s' = pages_visited s
  ∧ pdfs_downloaded s' = pdfs_downloaded s
  ∧ total_size_bytes s' = total_size_bytes s.

(** The URLs that the guarded append lets into the queue: their
    [netloc] ends with the domain name. *)
Definition netloc_on_domain (E : Env) (u : string) : Prop :=
  ∃ p, Url.urlparse (check_bracketed_netloc E) u "" = Some p
       ∧ Py.endswith "mohfw.gov.in" (Url.netloc p) = true.

Definition allowed_url (E : Env) (u : string) : Prop :=
  u = seed_url ∨ netloc_on_domain E u.

Definition queue_allowed (E : Env) (s : Crawler) : Prop :=
  ∀ u, u ∈ queue s → allowed_url E u.

(** The spec's words for the domain policy: the host is the target
    domain or a subdomain of it. *)
Definition host_in_domain (host : string) : bool :=
  String.eqb host "mohfw.gov.in" || Py.endswith ".mohfw.gov.in" host.

(** The number of requests in a run of events. *)
Definition attempts (evs : list Event) : nat :=
  length (List.filter (fun e => match e with Get _ => true | _ => false end) evs).

(** The state after an archive in which nothing fails. *)
Definition archived (E : Env) (url : string) (r : Response) (len : Z)
    (filename : string) (s : Crawler) : Crawler :=
  let file_path := Url.path_join download_dir filename in
  let metadata :=
    mkMetadata "MoHFW" "Tier1" url filename (strftime_ymd E (now s)) (size_kb len) in
  logging INFO (Downloaded filename (size_kb len))
    (set_files
       (<[file_path +:+ ".json" := JsonFile metadata]>
          (<[file_path := PdfFile (String.concat "" (chunks r))]> (files s)))
       (count_pdf len s)).

(** ** The end-to-end scenario *)

Definition report_url : string := "https://mohfw.gov.in/report.pdf".
Definition tiny_url : string := "https://mohfw.gov.in/tiny.pdf".
Definition report_path : string := "data_dump/General_Medicine/MoHFW/report.pdf".

(** A world plays the scenario when the seed answers with a page
    declared as [text/html] whose anchors are [/report.pdf], [/tiny.pdf]
    and a link [offsite] that resolves to a URL whose [netloc] does not
    end in the domain name, when the two PDFs are served with declared
    lengths 100000 and 1000, and when no write fails. *)
Record plays_scenario (E : Env) (page report tiny : Response) (offsite : string)
    : Prop := {
  seed_served : ∀ t, requests_get E t seed_url = Responds page;
  seed_is_html :
    Py.contains "text/html" (Py.lower (default "" (content_type page))) = true;
  seed_is_not_pdf :
    Py.contains "application/pdf" (Py.lower (default "" (content_type page))) = false;
  seed_readable : stream_ok page = true;
  seed_links :
    find_all_a_href E (String.concat "" (chunks page))
      = ["/report.pdf"; "/tiny.pdf"; offsite];
  offsite_elsewhere :
    ∃ u p, normalize_link E seed_url offsite = Some u
           ∧ Url.urlparse (check_bracketed_netloc E) u "" = Some p
           ∧ Py.endswith "mohfw.gov.in" (Url.netloc p) = false;
  report_served : ∀ t, requests_get E t report_url = Responds report;
  report_length : content_length report = Some "100000";
  report_readable : stream_ok report = true;
  tiny_served : ∀ t, requests_get E t tiny_url = Responds tiny;
  tiny_length : content_length tiny = Some "1000";
  disk_sound : ∀ t p, write_fault E t p = WriteOk
}.

(** The state in which the scenario ends, starting from an empty
    output directory. *)
Definition scenario_trace : list Event :=
  [Logged INFO StartingCrawl;
   Logged INFO (Visiting seed_url); Sleep 1; Get seed_url; Progress 1 0 0;
   Logged INFO (Visiting report_url); Sleep 1; Get report_url;
   Logged INFO (Downloaded "report.pdf" 9766); Progress 2 1 100000;
   Logged INFO (Visiting tiny_url); Sleep 1; Get tiny_url;
   Logged INFO (SkippingSmallPdf 1000 tiny_url); Progress 3 1 100000].

(** The scenario at the head of the loop: at the start, after the seed
    page, after the report. *)
Definition scenario_start : Crawler := logging INFO StartingCrawl (init ∅).

Definition scenario_after_seed : Crawler :=
  mkCrawler ({[seed_url]} ∪ ∅) [report_url; tiny_url] 1 0 0 ∅
    (take 5 scenario_trace).

Definition scenario_after_report (E : Env) (report : Response) : Crawler :=
  mkCrawler ({[report_url]} ∪ ({[seed_url]} ∪ ∅)) [tiny_url] 2 1 100000
    (<[report_path +:+ ".json" :=
         JsonFile (mkMetadata "MoHFW" "Tier1" report_url "report.pdf"
                     (strftime_ymd E 8) 9766)]>
       (<[report_path := PdfFile (String.concat "" (chunks report))]> ∅))
    (take 10 scenario_trace).

Definition scenario_final (E : Env) (report : Response) : Crawler :=
  mkCrawler ({[tiny_url]} ∪ ({[report_url]} ∪ ({[seed_url]} ∪ ∅))) [] 3 1 100000
    (<[report_path +:+ ".json" :=
         JsonFile (mkMetadata "MoHFW" "Tier1" report_url "report.pdf"
                     (strftime_ymd E 8) 9766)]>
       (<[report_path := PdfFile (String.concat "" (chunks report))]> ∅))
    scenario_trace.

(** ** Further properties of states and runs *)

#[global] Instance Metadata_eq_dec : EqDecision Metadata.
Proof. solve_decision. Defined.

#[global] Instance File_eq_dec : EqDecision File.
Proof. solve_decision. Defined.

(** The number of polite delays ([time.sleep(1)]) in a run of events. *)
Definition polite_delays (evs : list Event) : nat :=
  length (List.filter (fun e => match e with Sleep 1 => true | _ => false end) evs).

(** The seconds slept in a run of events. *)
Fixpoint slept (evs : list Event) : nat :=
  match evs with
  | [] => 0
  | Sleep n :: rest => n + slept rest
  | _ :: rest => slept rest
  end.

(** At most [n] requests, with at most one two-second back-off each. *)
Definition within_budget (n : nat) (evs : list Event) : Prop :=
  (attempts evs ≤ n)%nat ∧ (slept evs ≤ 2 * n)%nat.

(** The events that an iteration may emit after its polite delay:
    requests for the dequeued URL, back-off sleeps, log and progress
    lines. *)
Definition handling_event (url : string) (e : Event) : Prop :=
  match e with
  | Get u => u = url
  | Sleep n => n = 2%nat
  | Logged _ _ => True
  | Progress _ _ _ => True
  end.

(** A path that names a file directly inside the download directory. *)
Definition in_download_dir (p : string) : Prop :=
  ∃ name, Py.has_char "/" name = false ∧ p = download_dir +:+ "/" +:+ name.

(** What one call may do to the file system: it never removes a file, and
    it touches no path outside the download directory. *)
Definition files_grow (fs fs' : gmap string File) : Prop :=
  (∀ p, is_Some (fs !! p) → is_Some (fs' !! p))
  ∧ (∀ p, fs' !! p ≠ fs !! p → in_download_dir p).

(** What one call may do to the PDF counters: nothing, or one more PDF of
    at least the minimum size. *)
Definition counters_grow (s s' : Crawler) : Prop :=
  (pdfs_downloaded s' = pdfs_downloaded s ∧ total_size_bytes s' = total_size_bytes s)
  ∨ (pdfs_downloaded s' = pdfs_downloaded s + 1
     ∧ total_size_bytes s + pdf_min_size ≤ total_size_bytes s').

(** A sidecar that describes the file beside it: it is named after
    the PDF, the PDF is on the disk, and the record carries the fixed
    authority and tier and a size of at least 50 KB (in hundredths). *)
Definition sidecar_ok (fs : gmap string File) (p : string) (m : Metadata) : Prop :=
  Py.has_char "/" (file_name m) = false
  ∧ Py.endswith ".pdf" (Py.lower (file_name m)) = true
  ∧ p = Url.path_join download_dir (file_name m) +:+ ".json"
  ∧ (∃ b, fs !! Url.path_join download_dir (file_name m) = Some (PdfFile b))
  ∧ source_authority m = "MoHFW"
  ∧ tier m = "Tier1"
  ∧ 5000 ≤ file_size_kb m.

Definition sidecars_ok (fs : gmap string File) : Prop :=
  ∀ p m, fs !! p = Some (JsonFile m) → sidecar_ok fs p m.

(** The components of a parsed URL, the fragment apart, hold no [#]. *)
Definition hash_free (r : Url.ParseResult) : Prop :=
  Py.has_char "#" (Url.scheme r) = false
  ∧ Py.has_char "#" (Url.netloc r) = false
  ∧ Py.has_char "#" (Url.path r) = false
  ∧ Py.has_char "#" (Url.params r) = false
  ∧ Py.has_char "#" (Url.query r) = false.

(** No tab, carriage return or line feed: what [urlsplit] removes first. *)
Definition unsafe_free (s : string) : Prop :=
  Py.forall_chars (fun c => negb (Url.unsafe_byte c)) s = true.

(** What [urlsplit] leaves in the scheme. *)
Definition scheme_ok (sch : string) : Prop :=
  Py.forall_chars Url.scheme_char sch = true
  ∧ Py.lower sch = sch
  ∧ match sch with "" => True | String c0 _ => Py.is_ascii_alpha c0 = true end.

(** The tests of [urlsplit] on a netloc with square brackets. *)
Definition bracket_ok (chk : string → bool) (nl : string) : bool :=
  negb ((Py.has_char "[" nl && negb (Py.has_char "]" nl))
        || (Py.has_char "]" nl && negb (Py.has_char "[" nl)))
  && negb (Py.has_char "[" nl && Py.has_char "]" nl && negb (chk nl)).

(** The path of a URL with a netloc: empty, or from a slash on. *)
Definition starts_path (p : string) : Prop := p = "" ∨ Py.startswith "/" p = true.

(** The components that [urlsplit] gives to a URL with a netloc. *)
Definition split_shape (chk : string → bool) (r : Url.ParseResult) : Prop :=
  scheme_ok (Url.scheme r)
  ∧ Py.forall_chars (fun c => negb (Url.netloc_delim c)) (Url.netloc r) = true
  ∧ bracket_ok chk (Url.netloc r) = true
  ∧ starts_path (Url.path r)
  ∧ Py.has_char "?" (Url.path r) = false
  ∧ Py.has_char "#" (Url.path r) = false
  ∧ Py.has_char "#" (Url.query r) = false
  ∧ unsafe_free (Url.netloc r) ∧ unsafe_free (Url.path r) ∧ unsafe_free (Url.query r).

(** A URL that some page of the server links to: the resolved form of
    an anchor in a response that the server gives at some time. *)
Definition served_link (E : Env) (u : string) : Prop :=
  ∃ page t r h, requests_get E t page = Responds r
    ∧ h ∈ find_all_a_href E (String.concat "" (chunks r))
    ∧ normalize_link E page h = Some u.

(** The links on the domain that the server ever serves are all in [U]. *)
Definition site_within (E : Env) (U : gset string) : Prop :=
  ∀ u, served_link E u → netloc_on_domain E u → u ∈ U.

(** ** Concrete worlds used to exercise the model *)

(** A world in which every request fails and every write succeeds. *)
Definition offline : Env :=
  mkEnv (fun _ => true) (fun _ _ => RequestException) (fun _ => [])
    (fun _ _ => WriteOk) (fun _ => 1700000000) (fun _ => "2023-11-14").

(** A world whose server fails the first request and answers from the
    fourth tick of the clock on. *)
Definition flaky : Env :=
  mkEnv (fun _ => true)
    (fun t _ => if (t <? 3)%nat then RequestException
                else Responds (mkResponse (Some "text/html; charset=utf-8") None
                                 ["<html>"; "</html>"] true))
    (fun _ => []) (fun _ _ => WriteOk) (fun _ => 1700000000) (fun _ => "2023-11-14").


Definition offsite_url : string := "https://evil.example.com/about".

Definition seed_page : Response :=
  mkResponse (Some "text/html; charset=utf-8") None ["<html>"; "</html>"] true.
Definition report_pdf : Response :=
  mkResponse (Some "application/pdf") (Some "100000") ["%PDF-1.7 report"] true.
Definition tiny_pdf : Response :=
  mkResponse (Some "application/pdf") (Some "1000") ["%PDF-1.7 tiny"] true.

Definition scenario_server (url : string) : GetOutcome :=
  if String.eqb url seed_url then Responds seed_page
  else if String.eqb url report_url then Responds report_pdf
  else if String.eqb url tiny_url then Responds tiny_pdf
  else RequestException.

(** One world that plays the scenario. *)
Definition scenario : Env :=
  mkEnv (fun _ => true) (fun _ => scenario_server)
    (fun _ => ["/report.pdf"; "/tiny.pdf"; offsite_url])
    (fun _ _ => WriteOk) (fun _ => 1700000000) (fun _ => "2023-11-14").

(** A world whose disk refuses to create sidecar files. *)
Definition no_sidecar : Env :=
  mkEnv (fun _ => true) (fun _ => scenario_server) (fun _ => [])
    (fun _ p => if Py.endswith ".json" p then OpenFails else WriteOk)
    (fun _ => 1700000000) (fun _ => "2023-11-14").

Definition lookalike_url : string := "https://evilmohfw.gov.in/a.pdf".

(** A page served under a name that ends in [.pdf]. *)
Definition html_at_pdf_url : Response :=
  mkResponse (Some "text/html") (Some "100000") ["<html>"; "</html>"] true.

(** PDFs of declared length 60000 and 20000, and the parse of the report URL. *)
Definition medium_pdf : Response :=
  mkResponse (Some "application/pdf") (Some "60000") ["%PDF-1.7 medium"] true.
Definition small_pdf : Response :=
  mkResponse (Some "application/pdf") (Some "20000") ["%PDF-1.7 small"] true.
Definition report_parsed : Url.ParseResult :=
  Url.mkParse "https" "mohfw.gov.in" "/report.pdf" "" "" "".

(** ** Proofs: strings *)

Lemma append_cons a s t : String a s +:+ t = String a (s +:+ t).
Proof. reflexivity. Qed.

Lemma append_assoc s t u : (s +:+ t) +:+ u = s +:+ (t +:+ u).
Proof. induction s as [|a s IH]; [done|]. by rewrite !append_cons, IH. Qed.

Lemma length_append s t : String.length (s +:+ t) = (String.length s + String.length t)%nat.
Proof. induction s as [|a s IH]; [done|]. rewrite append_cons. simpl. by rewrite IH. Qed.

Lemma sidecar_path_fresh p : p +:+ ".json" ≠ p.
Proof.
  intros H. apply (f_equal String.length) in H. rewrite length_append in H.
  simpl in H. lia.
Qed.

Lemma eqc_refl a : Py.eqc a a = true.
Proof. apply Ascii.eqb_refl. Qed.

Lemma eqc_eq a b : Py.eqc a b = true → a = b.
Proof. apply Ascii.eqb_eq. Qed.

Lemma has_char_app c a b :
  Py.has_char c (a +:+ b) = Py.has_char c a || Py.has_char c b.
Proof.
  induction a as [|x a IH]; [done|]. rewrite ?append_cons; simpl.
  by rewrite IH, orb_assoc.
Qed.

Lemma filter_chars_app p a b :
  Py.filter_chars p (a +:+ b) = Py.filter_chars p a +:+ Py.filter_chars p b.
Proof.
  induction a as [|x a IH]; [done|]. rewrite ?append_cons; simpl.
  destruct (p x); by rewrite IH.
Qed.

Lemma lstrip_app_stop p u c v :
  p c = false → Py.lstrip p (u +:+ String c v) = Py.lstrip p u +:+ String c v.
Proof.
  intros Hc. induction u as [|x u IH].
  - simpl. change ("" +:+ String c v) with (String c v). simpl. by rewrite Hc.
  - rewrite ?append_cons; simpl. destruct (p x); [done|]. by rewrite append_cons.
Qed.

Lemma partition_sound c s b t :
  Py.partition c s = Some (b, t) → s = b +:+ String c t ∧ Py.has_char c b = false.
Proof.
  revert b. induction s as [|x s IH]; intros b; simpl; [done|].
  destruct (Py.eqc x c) eqn:Hx.
  - intros [= <- <-]. apply eqc_eq in Hx as ->. done.
  - destruct (Py.partition c s) as [[b' t']|]; [|done].
    intros [= <- <-]. destruct (IH b' eq_refl) as [-> Hb].
    split; [done|]. simpl. by rewrite Hx, Hb.
Qed.

Lemma partition_none c s : Py.partition c s = None → Py.has_char c s = false.
Proof.
  induction s as [|x s IH]; simpl; [done|].
  destruct (Py.eqc x c); [done|].
  destruct (Py.partition c s) as [[? ?]|]; [done|]. auto.
Qed.

Lemma partition_app_l c s b t r :
  Py.partition c s = Some (b, t) → Py.partition c (s +:+ r) = Some (b, t +:+ r).
Proof.
  revert b. induction s as [|x s IH]; intros b; simpl; [done|].
  rewrite ?append_cons; simpl. destruct (Py.eqc x c); [by intros [= <- <-]|].
  destruct (Py.partition c s) as [[b' t']|]; [|done].
  intros [= <- <-]. by rewrite (IH b' eq_refl).
Qed.

Lemma partition_app_none c d s h :
  Py.partition c s = None → Py.eqc d c = false →
  Py.partition c (s +:+ String d h)
    = match Py.partition c h with
      | Some (h1, h2) => Some (s +:+ String d h1, h2)
      | None => None
      end.
Proof.
  intros Hs Hd. induction s as [|x s IH].
  - change ("" +:+ String d h) with (String d h). simpl. rewrite Hd.
    by destruct (Py.partition c h) as [[? ?]|].
  - rewrite append_cons. simpl in *. destruct (Py.eqc x c); [done|].
    destruct (Py.partition c s) as [[? ?]|]; [done|]. rewrite (IH eq_refl).
    by destruct (Py.partition c h) as [[? ?]|].
Qed.

Lemma partition_found c b t :
  Py.has_char c b = false → Py.partition c (b +:+ String c t) = Some (b, t).
Proof.
  induction b as [|x b IH]; simpl.
  - intros _. change ("" +:+ String c t) with (String c t). simpl. by rewrite eqc_refl.
  - intros [Hx Hb]%orb_false_iff. rewrite ?append_cons; simpl. by rewrite Hx, (IH Hb).
Qed.

Lemma forall_chars_has p c s :
  Py.has_char c s = true → p c = false → Py.forall_chars p s = false.
Proof.
  intros Hh Hp. induction s as [|x s IH]; simpl in *; [done|].
  destruct (Py.eqc x c) eqn:Hx.
  - apply eqc_eq in Hx as ->. by rewrite Hp.
  - rewrite (IH Hh). apply andb_false_r.
Qed.

Lemma strip_prefix_app p d h : ∀ x,
  Py.has_char d p = false →
  Py.strip_prefix p (x +:+ String d h) = (λ r, r +:+ String d h) <$> Py.strip_prefix p x.
Proof.
  induction p as [|a p IH]; intros x; simpl.
  - intros _. by destruct x.
  - intros [Ha Hp]%orb_false_iff. destruct x as [|b x].
    + change ("" +:+ String d h) with (String d h). simpl. by rewrite Ha.
    + rewrite ?append_cons; simpl. destruct (Py.eqc a b); [by apply IH|done].
Qed.

Lemma break_at_app p d h s :
  p d = true →
  Py.break_at p (s +:+ String d h)
    = let '(b, t) := Py.break_at p s in (b, t +:+ String d h).
Proof.
  intros Hd. induction s as [|x s IH].
  - change ("" +:+ String d h) with (String d h). simpl. by rewrite Hd.
  - rewrite ?append_cons; simpl. destruct (p x); [done|]. rewrite IH.
    by destruct (Py.break_at p s).
Qed.

Lemma break_at_rest p c s b t :
  Py.break_at p s = (b, t) → Py.has_char c s = false → Py.has_char c t = false.
Proof.
  revert b. induction s as [|x s IH]; intros b; simpl.
  - by intros [= _ <-].
  - destruct (p x); [by intros [= _ <-]|].
    destruct (Py.break_at p s) as [b' t'] eqn:Hb. intros [= _ <-].
    intros [_ Hs]%orb_false_iff. by eapply IH.
Qed.

Lemma split1_found c y h :
  Py.has_char c y = false → Url.split1 c (y +:+ String c h) = (y, h).
Proof. intros H. unfold Url.split1. by rewrite partition_found. Qed.

Lemma partition_not_found c y : Py.has_char c y = false → Py.partition c y = None.
Proof.
  induction y as [|x y IH]; simpl; [done|].
  intros [Hx Hy]%orb_false_iff. by rewrite Hx, (IH Hy).
Qed.

Lemma split1_not_found c y : Py.has_char c y = false → Url.split1 c y = (y, "").
Proof. intros H. unfold Url.split1. by rewrite partition_not_found. Qed.

Lemma forall_filter_chars p s : Py.forall_chars p (Py.filter_chars p s) = true.
Proof.
  induction s as [|c s IH]; [done|]. simpl. destruct (p c) eqn:Hc; [|done].
  simpl. by rewrite Hc.
Qed.

Lemma forall_chars_lacks p c s :
  Py.forall_chars p s = true → p c = false → Py.has_char c s = false.
Proof.
  intros Hf Hp. destruct (Py.has_char c s) eqn:Hh; [|done].
  by rewrite (forall_chars_has p c s Hh Hp) in Hf.
Qed.

Lemma lower_app a b : Py.lower (a +:+ b) = Py.lower a +:+ Py.lower b.
Proof.
  induction a as [|c a IH]; [done|]. rewrite append_cons. simpl.
  by rewrite IH, append_cons.
Qed.

Lemma endswith_app suf a : Py.endswith suf (a +:+ suf) = true.
Proof.
  induction a as [|c a IH].
  - change ("" +:+ suf) with suf.
    destruct suf; cbn [Py.endswith]; by rewrite String.eqb_refl.
  - rewrite append_cons. simpl. rewrite IH. apply orb_true_r.
Qed.

Lemma endswith_cons suf c s :
  Py.endswith suf s = true → Py.endswith suf (String c s) = true.
Proof. intros H. simpl. rewrite H. apply orb_true_r. Qed.

(** The characters that lower to one of [.pdf] survive the cleaning. *)
Lemma pdf_chars_clean c :
  Py.has_char (Py.lower_char c) ".pdf" = true → clean_char c = true.
Proof.
  destruct c as [[] [] [] [] [] [] [] []]; vm_compute; intros H;
    first [reflexivity|discriminate H].
Qed.

Lemma lower_pdf_clean s :
  Py.lower s = ".pdf" → Py.filter_chars clean_char s = s.
Proof.
  destruct s as [|a [|b [|c [|d [|e s]]]]]; cbn [Py.lower]; try discriminate.
  intros [= Ha Hb Hc Hd]. cbn [Py.filter_chars].
  rewrite (pdf_chars_clean a), (pdf_chars_clean b), (pdf_chars_clean c),
    (pdf_chars_clean d); [done|..].
  - by rewrite Hd.
  - by rewrite Hc.
  - by rewrite Hb.
  - by rewrite Ha.
Qed.

Lemma endswith_pdf_filter s :
  Py.endswith ".pdf" (Py.lower s) = true →
  Py.endswith ".pdf" (Py.lower (Py.filter_chars clean_char s)) = true.
Proof.
  induction s as [|c s IH]; [done|].
  intros H. change (Py.lower (String c s)) with (String (Py.lower_char c) (Py.lower s)) in H.
  change (Py.endswith ".pdf" (String (Py.lower_char c) (Py.lower s)))
    with (String.eqb (String (Py.lower_char c) (Py.lower s)) ".pdf"
          || Py.endswith ".pdf" (Py.lower s)) in H.
  apply orb_true_iff in H as [H|H].
  - apply String.eqb_eq in H.
    rewrite (lower_pdf_clean (String c s) H).
    change (Py.lower (String c s)) with (String (Py.lower_char c) (Py.lower s)).
    rewrite H. reflexivity.
  - specialize (IH H). cbn [Py.filter_chars]. destruct (clean_char c); [|done].
    change (Py.lower (String c (Py.filter_chars clean_char s)))
      with (String (Py.lower_char c) (Py.lower (Py.filter_chars clean_char s))).
    by apply endswith_cons.
Qed.

Lemma path_join_clean name :
  Py.has_char "/" name = false →
  Url.path_join download_dir name = download_dir +:+ "/" +:+ name.
Proof.
  intros H. unfold Url.path_join.
  assert (Hs : Py.startswith "/" name = false).
  { destruct name as [|c name]; [done|]. cbn [Py.has_char Py.startswith] in *.
    apply orb_false_iff in H as [H _]. unfold Py.eqc in *.
    by rewrite Ascii.eqb_sym, H. }
  rewrite Hs. reflexivity.
Qed.

(** ** Proofs: a fragment does not reach the other URL components *)

Section Fragment.

Variable chk : string → bool.

Lemma split_scheme_hash d w h sch x :
  Py.has_char "#" w = false →
  Url.split_scheme d w = (sch, x) →
  Url.split_scheme d (w +:+ String "#" h) = (sch, x +:+ String "#" h)
  ∧ Py.has_char "#" x = false.
Proof.
  intros Hw. unfold Url.split_scheme.
  destruct (Py.partition ":" w) as [[pre post]|] eqn:Hp.
  - rewrite (partition_app_l _ _ _ _ _ Hp).
    destruct pre as [|c0 pre]; [by intros [= <- <-]|].
    destruct (Py.is_ascii_alpha c0 && _); intros [= <- <-]; [|done].
    split; [done|]. apply partition_sound in Hp as [-> _].
    rewrite has_char_app in Hw. apply orb_false_iff in Hw as [_ Hw].
    simpl in Hw. exact Hw.
  - intros [= <- <-]. split; [|done].
    rewrite (partition_app_none ":" "#" w h Hp eq_refl).
    destruct (Py.partition ":" h) as [[h1 h2]|]; [|done].
    destruct w as [|a w].
    + change ("" +:+ String "#" h1) with (String "#" h1). done.
    + rewrite append_cons.
      rewrite (forall_chars_has Url.scheme_char "#"); [by rewrite andb_false_r| |done].
      rewrite <- append_cons, has_char_app. simpl. apply orb_true_r.
Qed.

Lemma split_netloc_hash x h :
  Py.has_char "#" x = false →
  Url.split_netloc chk (x +:+ String "#" h)
    = (λ '(nl, y), (nl, y +:+ String "#" h)) <$> Url.split_netloc chk x
  ∧ ∀ nl y, Url.split_netloc chk x = Some (nl, y) → Py.has_char "#" y = false.
Proof.
  intros Hx. unfold Url.split_netloc.
  rewrite (strip_prefix_app "//" "#" h x eq_refl).
  destruct (Py.strip_prefix "//" x) as [rest|] eqn:Hr; simpl.
  - rewrite (break_at_app Url.netloc_delim "#" h rest eq_refl).
    destruct (Py.break_at Url.netloc_delim rest) as [nl y] eqn:Hb.
    assert (Hrest : Py.has_char "#" rest = false).
    { clear Hb. revert Hr Hx. generalize "//". intros p. revert x.
      induction p as [|a p IH]; intros x; simpl; [by intros [= ->]|].
      destruct x as [|b x]; [done|]. destruct (Py.eqc a b); [|done].
      simpl. intros Hr [_ Hx]%orb_false_iff. by eapply IH. }
    pose proof (break_at_rest _ _ _ _ _ Hb Hrest) as Hy.
    split.
    + by repeat case_match.
    + intros nl' y'. repeat case_match; try done. by intros [= _ <-].
  - split; [done|]. by intros nl y [= _ <-].
Qed.

Lemma split_parts_hash w h d :
  Py.has_char "#" w = false →
  Url.split_parts chk (w +:+ String "#" h) d
    = Url.replace_fragment h <$> Url.split_parts chk w d.
Proof.
  intros Hw. unfold Url.split_parts.
  destruct (Url.split_scheme d w) as [sch x] eqn:Hs.
  destruct (split_scheme_hash _ _ h _ _ Hw Hs) as [-> Hx].
  destruct (split_netloc_hash x h Hx) as [-> Hy].
  destruct (Url.split_netloc chk x) as [[nl y]|]; [|done]. simpl.
  specialize (Hy nl y eq_refl).
  rewrite (split1_found _ _ _ Hy), (split1_not_found _ _ Hy).
  by destruct (Url.split1 "?" y).
Qed.

(** A fragment appended to [u] changes only the fragment of the parse. *)
Lemma urlsplit_fragment u f d :
  ∃ g, Url.urlsplit chk (u +:+ String "#" f) d
       = Url.replace_fragment g <$> Url.urlsplit chk u d.
Proof.
  unfold Url.urlsplit, Url.remove_unsafe.
  rewrite (lstrip_app_stop _ _ "#" _ eq_refl), filter_chars_app.
  set (w := Py.filter_chars _ (Py.lstrip _ u)).
  set (dd := Py.filter_chars _ (Py.strip _ d)).
  change (Py.filter_chars (λ c, negb (Url.unsafe_byte c)) (String "#" f))
    with (String "#" (Py.filter_chars (λ c, negb (Url.unsafe_byte c)) f)).
  set (g := Py.filter_chars _ f).
  destruct (Py.partition "#" w) as [[w0 w1]|] eqn:Hp.
  - apply partition_sound in Hp as [-> Hw0].
    exists (w1 +:+ String "#" g).
    rewrite append_assoc, append_cons.
    rewrite !(split_parts_hash _ _ _ Hw0).
    by destruct (Url.split_parts chk w0 dd).
  - exists g. apply split_parts_hash. by apply partition_none.
Qed.

Lemma urlparse_fragment u f d :
  ∃ g, Url.urlparse chk (u +:+ String "#" f) d
       = Url.replace_fragment g <$> Url.urlparse chk u d.
Proof.
  destruct (urlsplit_fragment u f d) as [g Hg]. exists g.
  unfold Url.urlparse. rewrite Hg.
  destruct (Url.urlsplit chk u d) as [r|]; [|done]. simpl.
  destruct (Url.mem (Url.scheme r) Url.uses_params && _); [|done].
  by destruct (Url.splitparams (Url.path r)).
Qed.

Lemma remove_fragment_hash x g :
  Url.remove_fragment chk (x +:+ String "#" g) = Url.remove_fragment chk x.
Proof.
  unfold Url.remove_fragment. destruct (urlparse_fragment x g "") as [g' ->].
  by destruct (Url.urlparse chk x "").
Qed.

Lemma urlunparse_fragment r g :
  Url.urlunparse (Url.replace_fragment g r)
    = if Py.is_empty g then Url.urlunparse (Url.replace_fragment "" r)
      else Url.urlunparse (Url.replace_fragment "" r) +:+ String "#" g.
Proof.
  unfold Url.urlunparse, Url.urlunsplit. simpl. by destruct g.
Qed.

Lemma remove_fragment_unparse r g :
  Url.remove_fragment chk (Url.urlunparse (Url.replace_fragment g r))
    = Url.remove_fragment chk (Url.urlunparse (Url.replace_fragment "" r)).
Proof.
  rewrite urlunparse_fragment. destruct (Py.is_empty g); [done|].
  apply remove_fragment_hash.
Qed.

Lemma is_empty_app_cons u c v : Py.is_empty (u +:+ String c v) = false.
Proof. by destruct u. Qed.

(** Lines 164-167 give the same URL for [u] and for [u] followed by a
    fragment, whatever the page they are found on. *)
Lemma join_then_strip_fragment page u f :
  u ≠ "" →
  match Url.urljoin chk page (u +:+ String "#" f) with
  | Some x => Url.remove_fragment chk x
  | None => None
  end
  = match Url.urljoin chk page u with
    | Some x => Url.remove_fragment chk x
    | None => None
    end.
Proof.
  intros Hu. unfold Url.urljoin. rewrite is_empty_app_cons.
  assert (Hne : Py.is_empty u = false) by by destruct u.
  rewrite Hne.
  destruct (Py.is_empty page); [apply remove_fragment_hash|].
  destruct (Url.urlparse chk page "") as [b|]; [|done].
  destruct (urlparse_fragment u f (Url.scheme b)) as [g ->].
  destruct (Url.urlparse chk u (Url.scheme b)) as [r|]; [|done]. simpl.
  destruct (negb (String.eqb (Url.scheme r) (Url.scheme b)) || _);
    [apply remove_fragment_hash|].
  destruct (Url.mem (Url.scheme r) Url.uses_netloc && negb (Py.is_empty (Url.netloc r))).
  { destruct r as [sc nl pa pr qu fr].
    change (Url.replace_fragment g _)
      with (Url.replace_fragment g (Url.mkParse sc nl pa pr qu "")).
    change (Url.mkParse sc nl pa pr qu fr)
      with (Url.replace_fragment fr (Url.mkParse sc nl pa pr qu "")).
    by rewrite (remove_fragment_unparse _ g), (remove_fragment_unparse _ fr). }
  destruct (Py.is_empty (Url.path r) && Py.is_empty (Url.params r)).
  - set (X := Url.mkParse _ _ (Url.path b) _ _).
    change (X g) with (Url.replace_fragment g (X "")).
    change (X (Url.fragment r)) with (Url.replace_fragment (Url.fragment r) (X "")).
    by rewrite (remove_fragment_unparse _ g), (remove_fragment_unparse _ (Url.fragment r)).
  - set (X := Url.mkParse _ _ (Url.join_paths _ _) _ _).
    change (X g) with (Url.replace_fragment g (X "")).
    change (X (Url.fragment r)) with (Url.replace_fragment (Url.fragment r) (X "")).
    by rewrite (remove_fragment_unparse _ g), (remove_fragment_unparse _ (Url.fragment r)).
Qed.

End Fragment.

(** ** Proofs: operations that leave the frontier alone *)

Lemma same_frontier_refl s : same_frontier s s.
Proof. by split. Qed.

Lemma get_response_loop_frame E url remaining : ∀ attempt s s' fl r,
  get_response_loop E url attempt remaining s = (s', fl, r) →
  same_frontier s s' ∧ same_counters s s' ∧ files s' = files s.
Proof.
  induction remaining as [|k IH]; intros attempt s s' fl r; simpl.
  - intros [= <- _ _]. by repeat split.
  - destruct (requests_get E (now s) url).
    + intros [= <- _ _]. by repeat split.
    + intros H. apply IH in H. exact H.
    + intros [= <- _ _]. by repeat split.
Qed.

Lemma write_pdf_frame E p r s s' fl :
  write_pdf E p r s = (s', fl) →
  same_frontier s s' ∧ same_counters s s' ∧ trace s' = trace s.
Proof.
  unfold write_pdf. destruct (write_fault E (now s) p); [| |case_match];
    intros [= <- _]; by repeat split.
Qed.

Lemma write_json_frame E p m s s' fl :
  write_json E p m s = (s', fl) →
  same_frontier s s' ∧ same_counters s s' ∧ trace s' = trace s.
Proof.
  unfold write_json. destruct (write_fault E (now s) p);
    intros [= <- _]; by repeat split.
Qed.

Ltac use_frames :=
  repeat match goal with
  | H : write_pdf _ _ _ _ = _ |- _ => apply write_pdf_frame in H as ([? ?] & _ & _)
  | H : write_json _ _ _ _ = _ |- _ => apply write_json_frame in H as ([? ?] & _ & _)
  end.

Lemma save_pdf_try_frontier E url r s s' fl :
  save_pdf_try E url r s = (s', fl) → same_frontier s s'.
Proof.
  unfold save_pdf_try. intros H.
  repeat case_match; simplify_eq; try apply same_frontier_refl;
    use_frames; split; simpl in *; congruence.
Qed.

Lemma save_pdf_frontier E url r s : same_frontier s (save_pdf E url r s).
Proof.
  unfold save_pdf. destruct (save_pdf_try E url r s) as [s' fl] eqn:H.
  apply save_pdf_try_frontier in H. by destruct fl.
Qed.

(** ** Proofs: the guarded append *)

Lemma is_valid_url_true E s u :
  is_valid_url E s u = Some true ↔
  netloc_on_domain E u ∧ u ∉ visited s.
Proof.
  unfold is_valid_url, netloc_on_domain.
  destruct (Url.urlparse _ u "") as [p|].
  - split.
    + intros [= [H1 H2]%andb_true_iff]. split; [by exists p|].
      by apply negb_true_iff, bool_decide_eq_false in H2.
    + intros [(p' & [= <-] & H1) H2]. rewrite H1. simpl.
      by rewrite (bool_decide_eq_false_2 _ H2).
  - split; [done|]. by intros [(p' & ? & _) _].
Qed.

Lemma enqueue_cases E u s s' :
  enqueue E u s = Some s' →
  s' = s
  ∨ (s' = set_queue (queue s ++ [u]) s ∧ (u ∉ visited s) ∧ (u ∉ queue s)
     ∧ is_valid_url E s u = Some true).
Proof.
  unfold enqueue. destruct (is_valid_url E s u) as [[|]|] eqn:Hv; [| |done].
  - case_match eqn:Hg; intros [= <-]; [right|by left].
    apply andb_true_iff in Hg as [H1 H2].
    apply negb_true_iff, bool_decide_eq_false in H1, H2. done.
  - intros [= <-]. by left.
Qed.

Lemma enqueue_twice E u s s' :
  enqueue E u s = Some s' → enqueue E u s' = Some s'.
Proof.
  intros H. destruct (enqueue_cases _ _ _ _ H) as [->|(-> & Hv & Hq & Hok)]; [done|].
  unfold enqueue. replace (is_valid_url E (set_queue (queue s ++ [u]) s) u)
    with (is_valid_url E s u) by done.
  rewrite Hok. simpl.
  rewrite (bool_decide_eq_true_2 (u ∈ (queue s ++ [u])%list)); [|set_solver].
  by rewrite andb_false_r.
Qed.

Lemma enqueue_visited E u s s' :
  u ∈ visited s → enqueue E u s = Some s' → s' = s.
Proof.
  intros Hin H. apply enqueue_cases in H as [->|(_ & Hv & _)]; done.
Qed.

Lemma enqueue_links_twice E page a b s :
  normalize_link E page a = normalize_link E page b →
  enqueue_links E page [a; b] s = enqueue_links E page [b] s.
Proof.
  intros Hab. simpl. rewrite Hab.
  destruct (normalize_link E page b) as [x|]; [|done].
  destruct (enqueue E x s) as [s1|] eqn:He; [|done].
  by rewrite (enqueue_twice _ _ _ _ He).
Qed.

(** ** Proofs: invariants of the crawl loop

    A property of the frontier that survives the dequeue, the marking of
    the dequeued URL and the guarded append holds at the head of every
    iteration. *)

Section LoopInvariant.

Variable E : Env.
Variable Inv : Crawler → Prop.

Hypothesis Inv_frame : ∀ s s', same_frontier s s' → Inv s → Inv s'.
Hypothesis Inv_pop : ∀ s url q, Inv s → queue s = url :: q → Inv (set_queue q s).
Hypothesis Inv_visit :
  ∀ s url q, Inv s → queue s = url :: q → Inv (visit url (set_queue q s)).
Hypothesis Inv_enqueue : ∀ u s s', Inv s → enqueue E u s = Some s' → Inv s'.

Lemma enqueue_links_inv page hrefs : ∀ s s' fl,
  Inv s → enqueue_links E page hrefs s = (s', fl) → Inv s'.
Proof.
  induction hrefs as [|h rest IH]; intros s s' fl Hs; simpl.
  - by intros [= <- _].
  - destruct (normalize_link E page h) as [full|]; [|by intros [= <- _]].
    destruct (enqueue E full s) as [s1|] eqn:He; [|by intros [= <- _]].
    apply IH. by eapply Inv_enqueue.
Qed.

Lemma process_inv url s s' fl : Inv s → process E url s = (s', fl) → Inv s'.
Proof.
  unfold process, get_response. intros Hs.
  destruct (get_response_loop E url 0 max_retries s) as [[s1 f1] r] eqn:Hg.
  apply get_response_loop_frame in Hg as (Hf & _).
  pose proof (Inv_frame _ _ Hf Hs) as Hs1.
  destruct f1, r as [r|]; try (intros [= <- _]; done);
    (destruct (classify url r);
     [ intros [= <- _]; eapply Inv_frame; [apply save_pdf_frontier|done]
     | destruct (stream_ok r); [by apply enqueue_links_inv|by intros [= <- _]]
     | intros [= <- _]; eapply Inv_frame; [|exact Hs1]; by split ]).
Qed.

Lemma crawl_step_inv s s' : Inv s → crawl_step E s = Some s' → Inv s'.
Proof.
  unfold crawl_step. intros Hs. destruct (queue s) as [|url q] eqn:Hq; [done|].
  case_bool_decide.
  - intros [= <-]. by eapply Inv_pop.
  - assert (Hv : Inv (emit (Sleep 1)
                        (visit url (logging INFO (Visiting url) (set_queue q s))))).
    { eapply Inv_frame; [|by eapply (Inv_visit s url q)]. by split. }
    destruct (process E url _) as [s1 fl] eqn:Hp.
    pose proof (process_inv _ _ _ _ Hv Hp) as H1.
    destruct fl; intros [= <-]; [|done|]; (eapply Inv_frame; [|exact H1]; by split).
Qed.

Lemma reachable_inv fs s :
  Inv (logging INFO StartingCrawl (init fs)) → reachable E fs s → Inv s.
Proof.
  intros H0. induction 1 as [|s s' _ IH Hstep]; [done|].
  by eapply crawl_step_inv.
Qed.

End LoopInvariant.

(** The frontier invariant is such a property. *)

Lemma frontier_ok_frame s s' : same_frontier s s' → frontier_ok s → frontier_ok s'.
Proof. intros [Hv Hq] [Hn Hd]. split; rewrite Hq; [done|]. by rewrite Hv. Qed.

Lemma frontier_ok_pop s url q :
  frontier_ok s → queue s = url :: q → frontier_ok (set_queue q s).
Proof.
  intros [Hn Hd] Hq. rewrite Hq in Hn, Hd. apply NoDup_cons in Hn as [_ Hn].
  split; simpl; [done|]. intros u Hu. apply Hd. by right.
Qed.

Lemma frontier_ok_visit s url q :
  frontier_ok s → queue s = url :: q → frontier_ok (visit url (set_queue q s)).
Proof.
  intros [Hn Hd] Hq. rewrite Hq in Hn, Hd. apply NoDup_cons in Hn as [Hu Hn].
  split; simpl; [done|]. intros u Hin [->%elem_of_singleton|Hv]%elem_of_union; [done|].
  eapply Hd; [|done]. by right.
Qed.

Lemma frontier_ok_enqueue E u s s' :
  frontier_ok s → enqueue E u s = Some s' → frontier_ok s'.
Proof.
  intros [Hn Hd] H. apply enqueue_cases in H as [->|(-> & Hv & Hq & _)]; [done|].
  split; simpl.
  - apply NoDup_app. split_and!; [done| |apply NoDup_singleton].
    intros x Hx ->%list_elem_of_singleton. done.
  - intros x [Hx| ->%list_elem_of_singleton]%elem_of_app; auto.
Qed.

Lemma frontier_ok_start fs : frontier_ok (logging INFO StartingCrawl (init fs)).
Proof.
  split; simpl.
  - apply NoDup_singleton.
  - set_solver.
Qed.

Lemma reachable_frontier_ok E fs s : reachable E fs s → frontier_ok s.
Proof.
  apply (reachable_inv E frontier_ok).
  - apply frontier_ok_frame.
  - apply frontier_ok_pop.
  - apply frontier_ok_visit.
  - apply frontier_ok_enqueue.
  - apply frontier_ok_start.
Qed.

(** So is the property that every queued URL passed the domain test. *)

Lemma queue_allowed_enqueue E u s s' :
  queue_allowed E s → enqueue E u s = Some s' → queue_allowed E s'.
Proof.
  intros Hs H. apply enqueue_cases in H as [->|(-> & _ & _ & Hv)]; [done|].
  intros x [Hx| ->%list_elem_of_singleton]%elem_of_app; [by apply Hs|].
  right. by apply is_valid_url_true in Hv as [Hv _].
Qed.

Lemma reachable_allowed E fs s : reachable E fs s → queue_allowed E s.
Proof.
  apply (reachable_inv E (queue_allowed E)).
  - intros s0 s1 [_ Hq] H u. rewrite Hq. apply H.
  - intros s0 url q H Hq u Hu. apply H. rewrite Hq. by right.
  - intros s0 url q H Hq u Hu. apply H. rewrite Hq. by right.
  - apply queue_allowed_enqueue.
  - intros u ->%list_elem_of_singleton. by left.
Qed.

(** ** Proofs: the archiver *)

Lemma write_pdf_ok E p r s :
  write_fault E (now s) p = WriteOk → stream_ok r = true →
  write_pdf E p r s
    = (set_files (<[p := PdfFile (String.concat "" (chunks r))]> (files s)) s, Normal).
Proof. unfold write_pdf. by intros -> ->. Qed.

Lemma write_json_ok E p m s :
  write_fault E (now s) p = WriteOk →
  write_json E p m s = (set_files (<[p := JsonFile m]> (files s)) s, Normal).
Proof. unfold write_json. by intros ->. Qed.

(** A declared length under the threshold: one log line, nothing else. *)
Lemma save_pdf_small E url r s len :
  declared_length r = Some len → len < pdf_min_size →
  save_pdf E url r s = logging INFO (SkippingSmallPdf len url) s.
Proof.
  intros Hl Hlt. unfold save_pdf, save_pdf_try. rewrite Hl.
  by rewrite (proj2 (Z.ltb_lt _ _) Hlt).
Qed.

(** Below [2^53] the quotient by 1024 is a double as it stands. *)
Lemma kb_double_small n : 0 ≤ n < 2 ^ 53 → kb_double n = (n, -10).
Proof.
  intros [H0 H1]. unfold kb_double.
  assert (Hb : Z.log2 n + 1 ≤ 53).
  { destruct (Z.eq_dec n 0) as [->|Hn]; [done|].
    assert (Z.log2 n < 53) by (apply Z.log2_lt_pow2; lia). lia. }
  by rewrite (proj2 (Z.leb_le _ _) Hb).
Qed.

Lemma kb_overflows_small len : 0 ≤ len < 2 ^ 53 → kb_overflows len = false.
Proof.
  intros H. unfold kb_overflows. rewrite Z.abs_eq by lia.
  by rewrite (kb_double_small _ H).
Qed.

Lemma size_kb_small len :
  0 ≤ len < 2 ^ 53 → size_kb len = round_half_even (100 * len) 1024.
Proof.
  intros H. unfold size_kb. rewrite Z.abs_eq by lia.
  rewrite (kb_double_small _ H).
  change (0 <=? -10) with false. cbn iota. change (2 ^ (- -10)) with 1024.
  destruct (Z.eq_dec len 0) as [->|Hn]; [reflexivity|].
  rewrite Z.sgn_pos by lia. apply Z.mul_1_l.
Qed.

(** [round_half_even] is within half a unit of the exact quotient. *)
Lemma round_half_even_near (num den : Z) :
  0 < den → (- den ≤ 2 * (den * round_half_even num den - num) ∧
             2 * (den * round_half_even num den - num) ≤ den).
Proof.
  intros Hd. unfold round_half_even.
  pose proof (Z.div_mod num den ltac:(lia)) as Hdm.
  pose proof (Z.mod_pos_bound num den Hd) as Hr.
  set (q := num / den) in *. set (r := num mod den) in *.
  destruct (den <? 2 * r) eqn:H1; cbn [orb].
  - apply Z.ltb_lt in H1. nia.
  - apply Z.ltb_ge in H1.
    destruct (2 * r =? den) eqn:H2; cbn [andb].
    + apply Z.eqb_eq in H2. destruct (Z.odd q); nia.
    + apply Z.eqb_neq in H2. nia.
Qed.

(** The hundredths that [round] selects are within half a hundredth of
    the exact quotient, plus the error of the division. *)
Lemma size_kb_near (len : Z) :
  0 ≤ len → Z.abs (1024 * size_kb len - 100 * len) ≤ 512 + 50 * (len / 2 ^ 52).
Proof.
  intros H0. destruct (Z.eq_dec len 0) as [->|Hn]; [vm_compute; discriminate|].
  assert (Hdiv : 0 ≤ len / 2 ^ 52) by (apply Z.div_pos; [lia|reflexivity]).
  unfold size_kb. rewrite (Z.abs_eq len), Z.sgn_pos by lia.
  unfold kb_double. set (bits := Z.log2 len + 1).
  destruct (bits <=? 53) eqn:Hb; cbv beta iota; rewrite Z.mul_1_l.
  - change (0 <=? -10) with false. cbv iota. change (2 ^ (- -10)) with 1024.
    pose proof (round_half_even_near (100 * len) 1024 ltac:(lia)). lia.
  - apply Z.leb_gt in Hb.
    set (sh := bits - 53). assert (Hsh : 1 ≤ sh) by (unfold sh; lia).
    set (P := 2 ^ sh). assert (HP : 0 < P) by (apply Z.pow_pos_nonneg; lia).
    pose proof (round_half_even_near len P HP) as Hm.
    set (m := round_half_even len P) in *.
    assert (HPle : P ≤ len / 2 ^ 52).
    { apply Z.div_le_lower_bound; [reflexivity|].
      unfold P. rewrite <- Z.pow_add_r by lia.
      replace (52 + sh) with (Z.log2 len) by (unfold sh, bits; lia).
      apply Z.log2_spec. lia. }
    destruct (0 <=? sh - 10) eqn:He.
    + apply Z.leb_le in He.
      assert (HPe : 1024 * 2 ^ (sh - 10) = P).
      { unfold P. change 1024 with (2 ^ 10). rewrite <- Z.pow_add_r by lia.
        f_equal. lia. }
      replace (1024 * (100 * m * 2 ^ (sh - 10))) with (100 * (P * m)) by nia.
      lia.
    + apply Z.leb_gt in He.
      set (Q := 2 ^ (- (sh - 10))). assert (HQ : 0 < Q) by (apply Z.pow_pos_nonneg; lia).
      assert (HPQ : P * Q = 1024).
      { unfold P, Q. rewrite <- Z.pow_add_r by lia.
        replace (sh + - (sh - 10)) with 10 by lia. reflexivity. }
      pose proof (round_half_even_near (100 * m) Q HQ) as HH.
      set (H := round_half_even (100 * m) Q) in *.
      assert (E : 1024 * H - 100 * len = P * (Q * H - 100 * m) + 100 * (P * m - len))
        by (rewrite <- HPQ; ring).
      rewrite E. set (X := Q * H - 100 * m) in *.
      assert (P * (2 * X) ≤ P * Q) by (apply Z.mul_le_mono_nonneg_l; lia).
      assert (P * (- Q) ≤ P * (2 * X)) by (apply Z.mul_le_mono_nonneg_l; lia).
      lia.
Qed.

(** The mantissa of the double has 53 bits. *)
Lemma kb_double_mantissa (n : Z) :
  2 ^ 53 ≤ n →
  let bits := Z.log2 n + 1 in
  let m := round_half_even n (2 ^ (bits - 53)) in
  53 < bits ∧ 2 ^ (bits - 1) ≤ n ∧ n < 2 ^ bits ∧ 2 ^ 52 ≤ m ∧ m ≤ 2 ^ 53.
Proof.
  intros Hn bits m.
  assert (H53 : 0 < 2 ^ 53) by reflexivity.
  assert (Hpos : 0 < n) by lia.
  destruct (Z.log2_spec n Hpos) as [Hlo Hhi].
  assert (Hb : 53 < bits).
  { unfold bits. assert (53 ≤ Z.log2 n) by (apply Z.log2_le_pow2; lia). lia. }
  replace (Z.succ (Z.log2 n)) with bits in Hhi by (unfold bits; lia).
  replace (Z.log2 n) with (bits - 1) in Hlo by (unfold bits; lia).
  split_and!; [done|done|done| |].
  - set (P := 2 ^ (bits - 53)) in *.
    assert (HP : 0 < P) by (apply Z.pow_pos_nonneg; lia).
    destruct (round_half_even_near n P HP) as [H1 H2]. fold m in H1, H2.
    assert (E : 2 ^ (bits - 1) = P * 2 ^ 52).
    { unfold P. rewrite <- Z.pow_add_r by lia. f_equal. lia. }
    assert (P * (2 ^ 52 - 1) < P * m) by lia.
    assert (2 ^ 52 - 1 < m) by (eapply Z.mul_lt_mono_pos_l; eauto).
    lia.
  - set (P := 2 ^ (bits - 53)) in *.
    assert (HP : 0 < P) by (apply Z.pow_pos_nonneg; lia).
    destruct (round_half_even_near n P HP) as [H1 H2]. fold m in H1, H2.
    assert (E : 2 ^ bits = P * 2 ^ 53).
    { unfold P. rewrite <- Z.pow_add_r by lia. f_equal. lia. }
    assert (P * m < P * (2 ^ 53 + 1)) by lia.
    assert (m < 2 ^ 53 + 1) by (eapply Z.mul_lt_mono_pos_l; eauto).
    lia.
Qed.

(** [content_length / 1024] raises from [2^1034 - 2^980] on: the quotient
    is then at least half a unit in the last place above the largest
    double. *)
Lemma kb_overflows_spec (len : Z) :
  kb_overflows len = true ↔ 2 ^ 1034 - 2 ^ 980 ≤ Z.abs len.
Proof.
  unfold kb_overflows. set (n := Z.abs len).
  assert (H0 : 0 ≤ n) by apply Z.abs_nonneg.
  assert (HT : 2 ^ 53 < 2 ^ 1034 - 2 ^ 980) by reflexivity.
  destruct (Z_lt_le_dec n (2 ^ 53)) as [Hs|Hbig].
  { unfold kb_double.
    assert (Hb : Z.log2 n + 1 ≤ 53).
    { destruct (Z.eq_dec n 0) as [->|Hn]; [done|].
      assert (Z.log2 n < 53) by (apply Z.log2_lt_pow2; lia). lia. }
    rewrite (proj2 (Z.leb_le _ _) Hb). cbn. split; [done|lia]. }
  destruct (kb_double_mantissa n Hbig) as (Hb & Hlo & Hhi & Hm1 & Hm2).
  unfold kb_double. set (bits := Z.log2 n + 1) in *.
  rewrite (proj2 (Z.leb_gt _ _) Hb). cbv beta iota.
  set (m := round_half_even n (2 ^ (bits - 53))) in *.
  rewrite andb_true_iff, Z.leb_le, Z.leb_le.
  destruct (Z.lt_trichotomy bits 1034) as [Hlt|[Heq|Hgt]].
  - assert (Hn : n < 2 ^ 1033).
    { eapply Z.lt_le_trans; [exact Hhi|]. apply Z.pow_le_mono_r; lia. }
    assert (2 ^ 1033 < 2 ^ 1034 - 2 ^ 980) by reflexivity.
    split; [|lia]. intros [He Hov]. exfalso.
    assert (2 ^ (bits - 53 - 10) ≤ 2 ^ 970) by (apply Z.pow_le_mono_r; lia).
    assert (0 < 2 ^ (bits - 53 - 10)) by (apply Z.pow_pos_nonneg; lia).
    assert (m * 2 ^ (bits - 53 - 10) ≤ 2 ^ 53 * 2 ^ 970) by (apply Z.mul_le_mono_nonneg; lia).
    assert (2 ^ 53 * 2 ^ 970 < 2 ^ 1024) by reflexivity. lia.
  - subst m. rewrite Heq in *. change (1034 - 53) with 981 in *.
    change (981 - 10) with 971. change (1034 - 1) with 1033 in *.
    unfold round_half_even in *.
    pose proof (Z.div_mod n (2 ^ 981) ltac:(discriminate)) as Hdm.
    pose proof (Z.mod_pos_bound n (2 ^ 981) ltac:(reflexivity)) as Hr.
    set (q := n / 2 ^ 981) in *. set (r := n mod 2 ^ 981) in *.
    set (P := 2 ^ 981) in *.
    assert (HP : P = 2 * 2 ^ 980) by reflexivity.
    assert (H34 : 2 ^ 1034 = 2 ^ 53 * P) by reflexivity.
    assert (H24 : 2 ^ 1024 = 2 ^ 53 * 2 ^ 971) by reflexivity.
    assert (Hq : q < 2 ^ 53) by nia.
    assert (H971 : 0 < 2 ^ 971) by reflexivity.
    destruct (Z.eq_dec q (2 ^ 53 - 1)) as [Hq1|Hq1].
    + assert (Hodd : Z.odd q = true) by (rewrite Hq1; reflexivity).
      rewrite Hodd, andb_true_r.
      destruct (P <? 2 * r) eqn:C1; cbn [orb].
      * apply Z.ltb_lt in C1. split; [lia|]. intros _. split; [done|]. nia.
      * apply Z.ltb_ge in C1. destruct (2 * r =? P) eqn:C2.
        -- apply Z.eqb_eq in C2. split; [lia|]. intros _. split; [done|]. nia.
        -- apply Z.eqb_neq in C2. split; [|lia]. intros [_ Hov]. nia.
    + assert (q ≤ 2 ^ 53 - 2) by lia.
      split; [|nia]. intros [_ Hov]. exfalso.
      assert ((if (P <? 2 * r) || (2 * r =? P) && Z.odd q then q + 1 else q) ≤ 2 ^ 53 - 1)
        by (destruct ((P <? 2 * r) || (2 * r =? P) && Z.odd q); lia).
      nia.
  - assert (Hn : 2 ^ 1034 ≤ n).
    { eapply Z.le_trans; [|exact Hlo]. apply Z.pow_le_mono_r; lia. }
    assert (2 ^ 1034 - 2 ^ 980 < 2 ^ 1034) by reflexivity.
    split; [lia|]. intros _. split; [lia|].
    assert (2 ^ 972 ≤ 2 ^ (bits - 53 - 10)) by (apply Z.pow_le_mono_r; lia).
    assert (2 ^ 52 * 2 ^ 972 ≤ m * 2 ^ (bits - 53 - 10))
      by (apply Z.mul_le_mono_nonneg; [done|lia|done|done]).
    assert (2 ^ 1024 = 2 ^ 52 * 2 ^ 972) by reflexivity. lia.
Qed.

Lemma save_pdf_archived E url r s len parsed :
  declared_length r = Some len → pdf_min_size ≤ len → kb_overflows len = false →
  Url.urlparse (check_bracketed_netloc E) url "" = Some parsed →
  let filename := pdf_filename (time_time E (now s)) (Url.path parsed) in
  let file_path := Url.path_join download_dir filename in
  write_fault E (now s) file_path = WriteOk →
  stream_ok r = true →
  write_fault E (now s) (file_path +:+ ".json") = WriteOk →
  save_pdf E url r s = archived E url r len filename s.
Proof.
  intros Hl Hge Hfit Hp filename file_path Hw1 Hs Hw2.
  unfold save_pdf, save_pdf_try. rewrite Hl, Hp.
  rewrite (proj2 (Z.ltb_ge _ _) Hge).
  fold filename. fold file_path.
  rewrite (write_pdf_ok _ _ _ _ Hw1 Hs), Hfit.
  rewrite write_json_ok; [|exact Hw2].
  reflexivity.
Qed.

(** The PDF write raises: the error is logged, the counters stay. *)
Lemma save_pdf_write_fails E url r s len parsed s1 :
  declared_length r = Some len → pdf_min_size ≤ len →
  Url.urlparse (check_bracketed_netloc E) url "" = Some parsed →
  write_pdf E
    (Url.path_join download_dir (pdf_filename (time_time E (now s)) (Url.path parsed)))
    r s = (s1, Raised) →
  save_pdf E url r s = logging ERROR (ErrorSavingPdf url) s1.
Proof.
  intros Hl Hge Hp Hw. unfold save_pdf, save_pdf_try. rewrite Hl, Hp.
  rewrite (proj2 (Z.ltb_ge _ _) Hge). by rewrite Hw.
Qed.

(** The sidecar write raises: the error is logged after the counters
    have been incremented. *)
Lemma save_pdf_sidecar_fails E url r s len parsed s1 s3 :
  declared_length r = Some len → pdf_min_size ≤ len → kb_overflows len = false →
  Url.urlparse (check_bracketed_netloc E) url "" = Some parsed →
  let filename := pdf_filename (time_time E (now s)) (Url.path parsed) in
  let file_path := Url.path_join download_dir filename in
  write_pdf E file_path r s = (s1, Normal) →
  write_json E (file_path +:+ ".json")
    (mkMetadata "MoHFW" "Tier1" url filename
       (strftime_ymd E (now (count_pdf len s1))) (size_kb len))
    (count_pdf len s1) = (s3, Raised) →
  save_pdf E url r s = logging ERROR (ErrorSavingPdf url) s3.
Proof.
  intros Hl Hge Hfit Hp filename file_path Hw Hj. unfold save_pdf, save_pdf_try.
  rewrite Hl, Hp. rewrite (proj2 (Z.ltb_ge _ _) Hge).
  fold filename. fold file_path. rewrite Hw, Hfit. by rewrite Hj.
Qed.

(** The size in KB does not fit a double: line 97 raises after the PDF
    has been written and counted, and no sidecar is written. *)
Lemma save_pdf_size_overflows E url r s len parsed s1 :
  declared_length r = Some len → pdf_min_size ≤ len → kb_overflows len = true →
  Url.urlparse (check_bracketed_netloc E) url "" = Some parsed →
  write_pdf E
    (Url.path_join download_dir (pdf_filename (time_time E (now s)) (Url.path parsed)))
    r s = (s1, Normal) →
  save_pdf E url r s = logging ERROR (ErrorSavingPdf url) (count_pdf len s1).
Proof.
  intros Hl Hge Hbig Hp Hw. unfold save_pdf, save_pdf_try. rewrite Hl, Hp.
  rewrite (proj2 (Z.ltb_ge _ _) Hge). by rewrite Hw, Hbig.
Qed.

Lemma archived_files E url r len filename s :
  let file_path := Url.path_join download_dir filename in
  let s' := archived E url r len filename s in
  files s' !! file_path = Some (PdfFile (String.concat "" (chunks r)))
  ∧ files s' !! (file_path +:+ ".json")
      = Some (JsonFile (mkMetadata "MoHFW" "Tier1" url filename
                          (strftime_ymd E (now s)) (size_kb len)))
  ∧ (∀ p, p ≠ file_path → p ≠ file_path +:+ ".json" → files s' !! p = files s !! p).
Proof.
  intros file_path s'. subst s'. unfold archived. simpl. fold file_path. split_and!.
  - rewrite lookup_insert_ne; [|apply sidecar_path_fresh]. by rewrite lookup_insert_eq.
  - by rewrite lookup_insert_eq.
  - intros p H1 H2. by rewrite !lookup_insert_ne.
Qed.

(** ** Proofs: running the scenario *)

Lemma get_response_ok E url s r :
  requests_get E (now s) url = Responds r →
  get_response E url s = (emit (Get url) s, Normal, Some r).
Proof. intros H. unfold get_response. simpl. by rewrite H. Qed.

Lemma classify_pdf_suffix url r :
  Py.endswith ".pdf" (Py.lower url) = true → classify url r = IsPdf.
Proof. intros H. unfold classify. rewrite H. by rewrite orb_true_r. Qed.

Lemma enqueue_fresh E u s :
  netloc_on_domain E u → u ∉ visited s → u ∉ queue s →
  enqueue E u s = Some (set_queue (queue s ++ [u]) s).
Proof.
  intros Hd Hv Hq. unfold enqueue.
  rewrite (proj2 (is_valid_url_true E s u) (conj Hd Hv)).
  by rewrite (bool_decide_eq_false_2 _ Hv), (bool_decide_eq_false_2 _ Hq).
Qed.

Lemma enqueue_off_domain E u s p :
  Url.urlparse (check_bracketed_netloc E) u "" = Some p →
  Py.endswith "mohfw.gov.in" (Url.netloc p) = false →
  enqueue E u s = Some s.
Proof. intros Hp He. unfold enqueue, is_valid_url. by rewrite Hp, He. Qed.

Lemma crawl_step_fresh E s url q s1 fl :
  queue s = url :: q → url ∉ visited s →
  process E url
    (emit (Sleep 1) (visit url (logging INFO (Visiting url) (set_queue q s))))
    = (s1, fl) →
  crawl_step E s
    = Some match fl with
           | Normal => progress s1
           | Continue => s1
           | Raised => progress (logging ERROR (ErrorProcessing url) s1)
           end.
Proof.
  intros Hq Hv Hp. unfold crawl_step. rewrite Hq.
  rewrite (bool_decide_eq_false_2 (url ∈ visited (set_queue q s))); [|done].
  rewrite Hp. by destruct fl.
Qed.

Lemma crawl_loop_step E k s s' :
  crawl_step E s = Some s' → crawl_loop E (S k) s = crawl_loop E k s'.
Proof. intros H. simpl. by rewrite H. Qed.

Lemma crawl_loop_done E k s :
  crawl_step E s = None → crawl_loop E k s = Some s.
Proof. intros H. destruct k; simpl; by rewrite H. Qed.

Lemma crawl_loop_dry E s s' :
  crawl_step E s = Some s' → crawl_loop E 0 s = None.
Proof. intros H. simpl. by rewrite H. Qed.

Lemma on_domain_report E : netloc_on_domain E report_url.
Proof. exists report_parsed. split; vm_compute; reflexivity. Qed.

Lemma on_domain_tiny E : netloc_on_domain E tiny_url.
Proof.
  exists (Url.mkParse "https" "mohfw.gov.in" "/tiny.pdf" "" "" "").
  split; vm_compute; reflexivity.
Qed.

Section Scenario.

Variables (E : Env) (page report tiny : Response) (offsite : string).
Hypothesis plays : plays_scenario E page report tiny offsite.

Lemma scenario_step_seed : crawl_step E scenario_start = Some scenario_after_seed.
Proof.
  destruct plays as [Hseed Hct Hnopdf Hread Hlinks (u & p & Hu & Hp & Hoff) _ _ _ _ _ _].
  assert (Hhtml : classify seed_url page = IsHtml).
  { unfold classify. rewrite Hnopdf, Hct. reflexivity. }
  erewrite crawl_step_fresh; [| reflexivity | set_solver |].
  2:{ unfold process. rewrite (get_response_ok _ _ _ page); [|apply Hseed].
      rewrite Hhtml, Hread, Hlinks.
      cbn [enqueue_links].
      replace (normalize_link E seed_url "/report.pdf") with (Some report_url)
        by (vm_compute; reflexivity).
      rewrite (enqueue_fresh E report_url); [|apply on_domain_report| |].
      2:{ simpl. rewrite elem_of_union, elem_of_singleton. intros [?|?]; [done|set_solver]. }
      2:{ simpl. apply not_elem_of_nil. }
      replace (normalize_link E seed_url "/tiny.pdf") with (Some tiny_url)
        by (vm_compute; reflexivity).
      rewrite (enqueue_fresh E tiny_url); [|apply on_domain_tiny| |].
      2:{ simpl. rewrite elem_of_union, elem_of_singleton. intros [?|?]; [done|set_solver]. }
      2:{ simpl. rewrite list_elem_of_singleton. done. }
      rewrite Hu. rewrite (enqueue_off_domain E u _ p Hp Hoff). reflexivity. }
  reflexivity.
Qed.

Lemma scenario_step_report :
  crawl_step E scenario_after_seed = Some (scenario_after_report E report).
Proof.
  destruct plays as [_ _ _ _ _ _ Hrep Hlen Hread _ _ Hdisk].
  erewrite crawl_step_fresh; [| reflexivity | |].
  2:{ simpl. rewrite elem_of_union, elem_of_singleton. intros [?|?]; [done|set_solver]. }
  2:{ unfold process. rewrite (get_response_ok _ _ _ report); [|apply Hrep].
      rewrite (classify_pdf_suffix report_url report eq_refl).
      rewrite (save_pdf_archived E report_url report _ 100000 report_parsed);
        [reflexivity| | | | | | |].
      - unfold declared_length. rewrite Hlen. reflexivity.
      - unfold pdf_min_size. lia.
      - reflexivity.
      - vm_compute. reflexivity.
      - apply Hdisk.
      - exact Hread.
      - apply Hdisk. }
  reflexivity.
Qed.

Lemma scenario_step_tiny :
  crawl_step E (scenario_after_report E report) = Some (scenario_final E report).
Proof.
  destruct plays as [_ _ _ _ _ _ _ _ _ Htiny Hlen _].
  erewrite crawl_step_fresh; [| reflexivity | |].
  2:{ simpl. rewrite !elem_of_union, !elem_of_singleton.
      intros [?|[?|?]]; [done|done|set_solver]. }
  2:{ unfold process. rewrite (get_response_ok _ _ _ tiny); [|apply Htiny].
      rewrite (classify_pdf_suffix tiny_url tiny eq_refl).
      rewrite (save_pdf_small E tiny_url tiny _ 1000); [reflexivity| |].
      - unfold declared_length. rewrite Hlen. reflexivity.
      - unfold pdf_min_size. lia. }
  reflexivity.
Qed.

Lemma scenario_run fuel :
  crawl_loop E fuel scenario_start
    = if (3 <=? fuel)%nat then Some (scenario_final E report) else None.
Proof.
  destruct fuel as [|[|[|k]]].
  - apply (crawl_loop_dry _ _ _ scenario_step_seed).
  - rewrite (crawl_loop_step _ _ _ _ scenario_step_seed).
    apply (crawl_loop_dry _ _ _ scenario_step_report).
  - rewrite (crawl_loop_step _ _ _ _ scenario_step_seed).
    rewrite (crawl_loop_step _ _ _ _ scenario_step_report).
    apply (crawl_loop_dry _ _ _ scenario_step_tiny).
  - rewrite (crawl_loop_step _ _ _ _ scenario_step_seed).
    rewrite (crawl_loop_step _ _ _ _ scenario_step_report).
    rewrite (crawl_loop_step _ _ _ _ scenario_step_tiny).
    by apply crawl_loop_done.
Qed.

Lemma scenario_offsite_not_queued s u :
  reachable E ∅ s → normalize_link E seed_url offsite = Some u → u ∉ queue s.
Proof.
  destruct plays as [_ _ _ _ _ (u' & p & Hu & Hp & Hoff) _ _ _ _ _ _].
  intros Hr Hn Hin. rewrite Hu in Hn. injection Hn as <-.
  destruct (reachable_allowed _ _ _ Hr _ Hin) as [->|(p' & Hp' & He)].
  - vm_compute in Hp. injection Hp as <-. vm_compute in Hoff. discriminate.
  - rewrite Hp in Hp'. injection Hp' as <-. by rewrite Hoff in He.
Qed.

End Scenario.

Lemma scenario_plays : plays_scenario scenario seed_page report_pdf tiny_pdf offsite_url.
Proof.
  split; try reflexivity.
  exists offsite_url, (Url.mkParse "https" "evil.example.com" "/about" "" "" "").
  split_and!; vm_compute; reflexivity.
Qed.

(** ** Proofs: the frontier invariant *)

Lemma process_visited E url s s' fl :
  process E url s = (s', fl) → visited s' = visited s.
Proof.
  apply (process_inv E (λ st, visited st = visited s)); [| |done].
  - intros s0 s1 [Hv _] H. by rewrite Hv.
  - intros u s0 s1 H He. by apply enqueue_cases in He as [->|(-> & _)].
Qed.

(** An iteration marks the dequeued URL, and nothing else, as visited. *)
Lemma crawl_step_visited E s s' url q :
  frontier_ok s → queue s = url :: q → crawl_step E s = Some s' →
  (url ∉ visited s) ∧ visited s' = {[url]} ∪ visited s.
Proof.
  intros [_ Hd] Hq. assert (Hv : url ∉ visited s) by (apply Hd; rewrite Hq; by left).
  unfold crawl_step. rewrite Hq.
  rewrite (bool_decide_eq_false_2 (url ∈ visited (set_queue q s))); [|done].
  destruct (process E url _) as [s1 fl] eqn:Hp. apply process_visited in Hp.
  destruct fl; intros [= <-]; (split; [done|exact Hp]).
Qed.

(** C1. Frontier invariant.  At the head of every iteration of the crawl
    loop the queue has no duplicates and shares no URL with the visited
    set; the same holds right after the dequeue and after the dequeued
    URL is marked visited.  The URL that an iteration dequeues was not
    visited before, is visited afterwards and is no longer in the queue,
    so it is dequeued once.  From any state with the invariant the
    guarded append keeps it, a second append of the same URL changes
    nothing, so the URL occurs at most once in the queue, and a URL in
    the visited set is not appended. *)
Theorem frontier_invariant E fs s :
  reachable E fs s →
  frontier_ok s
  ∧ (∀ url q, queue s = url :: q →
       frontier_ok (set_queue q s) ∧ frontier_ok (visit url (set_queue q s)))
  ∧ (∀ url q s', queue s = url :: q → crawl_step E s = Some s' →
       (url ∉ visited s) ∧ visited s' = {[url]} ∪ visited s ∧ (url ∉ queue s'))
  ∧ (∀ t u t1, frontier_ok t → enqueue E u t = Some t1 →
       frontier_ok t1
       ∧ enqueue E u t1 = Some t1
       ∧ (count_occ String.eq_dec (queue t1) u ≤ 1)%nat
       ∧ (u ∈ visited t → t1 = t))
  ∧ (∀ t page hrefs t1 fl, frontier_ok t →
       enqueue_links E page hrefs t = (t1, fl) → frontier_ok t1).
Proof.
  intros Hr. pose proof (reachable_frontier_ok _ _ _ Hr) as Hok. split_and!.
  - done.
  - intros url q Hq. split; [by eapply frontier_ok_pop|by eapply frontier_ok_visit].
  - intros url q s' Hq Hstep.
    destruct (crawl_step_visited _ _ _ _ _ Hok Hq Hstep) as [Hv Hv'].
    split_and!; [done|done|].
    destruct (reachable_frontier_ok E fs s') as [_ Hd]; [by eapply reach_step|].
    intros Hin. apply (Hd _ Hin). rewrite Hv'.
    apply elem_of_union. left. by apply elem_of_singleton.
  - intros t u t1 Ht He. pose proof (frontier_ok_enqueue _ _ _ _ Ht He) as Ht1.
    split_and!.
    + done.
    + by eapply enqueue_twice.
    + destruct Ht1 as [Hn _]. apply NoDup_ListNoDup in Hn.
      exact (proj1 (NoDup_count_occ String.eq_dec _) Hn u).
    + intros Hv. by eapply enqueue_visited.
  - intros t page hrefs t1 fl Ht.
    apply (enqueue_links_inv E frontier_ok (frontier_ok_enqueue E)); done.
Qed.

Lemma frontier_invariant_witness :
  reachable scenario ∅ scenario_after_seed ∧ frontier_ok scenario_after_seed.
Proof.
  assert (H : reachable scenario ∅ scenario_after_seed).
  { eapply reach_step; [apply reach_start|]. vm_compute. reflexivity. }
  split; [exact H|].
  exact (proj1 (frontier_invariant scenario ∅ scenario_after_seed H)).
Defined.

(** ** Proofs: the end-to-end scenario *)

Lemma scenario_files_size E report : size (files (scenario_final E report)) = 2%nat.
Proof.
  unfold scenario_final. cbn [files].
  rewrite map_size_insert_None.
  - by rewrite map_size_insert_None, map_size_empty.
  - rewrite lookup_insert_ne; [done|]. intros H. by apply (sidecar_path_fresh report_path).
Qed.

(** C2, as stated: the scenario does not end with [pages_visited = 1]. *)
Lemma end_to_end_pages_visited_not_one :
  ¬ (∀ s, crawl scenario 3 (init ∅) = Some s →
       size (files s) = 2%nat ∧ pdfs_downloaded s = 1 ∧ pages_visited s = 1).
Proof.
  intros H.
  assert (Hc : crawl scenario 3 (init ∅)
               = Some (logging INFO (TotalPdfsDownloaded 1)
                         (logging INFO (TotalPagesVisited 3)
                            (logging INFO CrawlComplete
                               (scenario_final scenario report_pdf))))).
  { unfold crawl. fold scenario_start. by rewrite (scenario_run _ _ _ _ _ scenario_plays). }
  destruct (H _ Hc) as (_ & _ & Hp). discriminate Hp.
Qed.

(** C2, amended.  In every world that plays the scenario (the seed page
    links to [/report.pdf] of declared length 100000, to [/tiny.pdf] of
    declared length 1000 and to a page on a host whose name does not end
    in [mohfw.gov.in]; nothing fails)
    the loop stops after exactly three iterations with an empty queue.
    The output directory, empty at the start, then holds the report and
    its sidecar and nothing else, [pdfs_downloaded] is 1,
    [total_size_bytes] is 100000, and [pages_visited] is 3, because every
    dequeued URL is counted, the two PDF links included.  The off-domain
    link is in the queue of no state the loop reaches. *)
Theorem end_to_end_scenario E page report tiny offsite :
  plays_scenario E page report tiny offsite →
  let final := scenario_final E report in
  (∀ fuel, crawl_loop E fuel (logging INFO StartingCrawl (init ∅))
           = if (3 <=? fuel)%nat then Some final else None)
  ∧ (∃ s, crawl E 3 (init ∅) = Some s
          ∧ same_frontier final s ∧ same_counters final s ∧ files s = files final)
  ∧ queue final = []
  ∧ visited final = {[seed_url; report_url; tiny_url]}
  ∧ files final !! report_path = Some (PdfFile (String.concat "" (chunks report)))
  ∧ (∃ m, files final !! (report_path +:+ ".json") = Some (JsonFile m)
          ∧ download_url m = report_url ∧ file_name m = "report.pdf")
  ∧ size (files final) = 2%nat
  ∧ pdfs_downloaded final = 1
  ∧ total_size_bytes final = 100000
  ∧ pages_visited final = 3
  ∧ (∀ s u, reachable E ∅ s → normalize_link E seed_url offsite = Some u →
            u ∉ queue s).
Proof.
  intros plays final. subst final. unfold scenario_final. split_and!.
  - apply (scenario_run E page report tiny offsite plays).
  - eexists. split.
    + unfold crawl. fold scenario_start.
      rewrite (scenario_run E page report tiny offsite plays). reflexivity.
    + by repeat split.
  - reflexivity.
  - cbn [visited]. apply set_eq. intros x.
    rewrite !elem_of_union, !elem_of_singleton, elem_of_empty. tauto.
  - cbn [files]. rewrite lookup_insert_ne; [by rewrite lookup_insert_eq|].
    apply sidecar_path_fresh.
  - eexists. cbn [files]. rewrite lookup_insert_eq. by split_and!.
  - apply scenario_files_size.
  - reflexivity.
  - reflexivity.
  - reflexivity.
  - intros s u. by apply (scenario_offsite_not_queued E page report tiny offsite).
Qed.

Lemma end_to_end_scenario_witness :
  plays_scenario scenario seed_page report_pdf tiny_pdf offsite_url
  ∧ crawl_loop scenario 3 (logging INFO StartingCrawl (init ∅))
      = Some (scenario_final scenario report_pdf)
  ∧ pages_visited (scenario_final scenario report_pdf) = 3.
Proof.
  assert (H : plays_scenario scenario seed_page report_pdf tiny_pdf offsite_url).
  { split; try reflexivity.
    exists offsite_url, (Url.mkParse "https" "evil.example.com" "/about" "" "" "").
    split_and!; vm_compute; reflexivity. }
  split; [exact H|]. split.
  - exact (proj1 (end_to_end_scenario scenario seed_page report_pdf tiny_pdf
                    offsite_url H) 3%nat).
  - reflexivity.
Defined.

(** ** Proofs: the domain test *)

(** C3. [is_valid_url] rejects [https://evil.example.com/a.pdf] and
    accepts [https://mohfw.gov.in/docs/a.pdf]; its domain test accepts a
    URL exactly when the [netloc] ends with the text [mohfw.gov.in] and
    the URL is not visited.  The test is on the text, so the host
    [evilmohfw.gov.in], which is neither the domain nor a subdomain of
    it, is accepted, and the guarded append puts the URL in the queue. *)
Theorem is_valid_url_suffix_test E fs :
  is_valid_url E (init fs) "https://evil.example.com/a.pdf" = Some false
  ∧ is_valid_url E (init fs) "https://mohfw.gov.in/docs/a.pdf" = Some true
  ∧ (∀ s u, is_valid_url E s u = Some true ↔ netloc_on_domain E u ∧ u ∉ visited s)
  ∧ Url.netloc <$> Url.urlparse (check_bracketed_netloc E) lookalike_url ""
      = Some "evilmohfw.gov.in"
  ∧ host_in_domain "evilmohfw.gov.in" = false
  ∧ is_valid_url E (init fs) lookalike_url = Some true
  ∧ queue <$> enqueue E lookalike_url (init fs) = Some [seed_url; lookalike_url].
Proof.
  split_and!.
  - vm_compute. reflexivity.
  - vm_compute. reflexivity.
  - apply is_valid_url_true.
  - vm_compute. reflexivity.
  - vm_compute. reflexivity.
  - vm_compute. reflexivity.
  - vm_compute. reflexivity.
Qed.

(** ** Proofs: classification of a response *)

(** C4, as stated: a response that declares [text/html] under a URL
    ending in [.pdf] is not treated as HTML. *)
Lemma html_header_with_pdf_suffix :
  ¬ (∀ url r, Py.contains "text/html" (Py.lower (default "" (content_type r))) = true →
        classify url r = IsHtml).
Proof.
  intros H. specialize (H "https://mohfw.gov.in/a.pdf" html_at_pdf_url eq_refl).
  vm_compute in H. discriminate.
Qed.

(** C4, amended.  A fetched response is handed to [save_pdf] when its
    Content-Type contains [application/pdf] or its URL ends in [.pdf]
    (letter case ignored), whatever the header says; only when neither
    holds is a Content-Type containing [text/html] parsed for links; any
    other response is logged and skipped. *)
Theorem response_classification E url s s1 r :
  get_response E url s = (s1, Normal, Some r) →
  let ct := Py.lower (default "" (content_type r)) in
  (Py.contains "application/pdf" ct = true ∨ Py.endswith ".pdf" (Py.lower url) = true →
     classify url r = IsPdf ∧ process E url s = (save_pdf E url r s1, Normal))
  ∧ (Py.contains "application/pdf" ct = false →
     Py.endswith ".pdf" (Py.lower url) = false →
     Py.contains "text/html" ct = true →
     classify url r = IsHtml
     ∧ (stream_ok r = true →
        process E url s
          = enqueue_links E url (find_all_a_href E (String.concat "" (chunks r))) s1))
  ∧ (Py.contains "application/pdf" ct = false →
     Py.endswith ".pdf" (Py.lower url) = false →
     Py.contains "text/html" ct = false →
     classify url r = IsOther
     ∧ process E url s = (logging INFO (SkippingContentType ct) s1, Normal)).
Proof.
  intros Hg ct. unfold process. rewrite Hg. unfold classify. fold ct. split_and!.
  - intros [-> | ->]; [done|]. by rewrite orb_true_r.
  - intros -> -> ->. simpl. split; [done|]. by intros ->.
  - intros -> -> ->. done.
Qed.

Lemma response_classification_witness :
  get_response scenario seed_url scenario_start
    = (emit (Get seed_url) scenario_start, Normal, Some seed_page)
  ∧ classify seed_url seed_page = IsHtml
  ∧ classify report_url report_pdf = IsPdf.
Proof.
  assert (H : get_response scenario seed_url scenario_start
              = (emit (Get seed_url) scenario_start, Normal, Some seed_page))
    by (vm_compute; reflexivity).
  assert (H' : get_response scenario report_url scenario_start
               = (emit (Get report_url) scenario_start, Normal, Some report_pdf))
    by (vm_compute; reflexivity).
  split; [exact H|]. split.
  - exact (proj1 (proj1 (proj2 (response_classification scenario seed_url _ _ _ H))
                   eq_refl eq_refl eq_refl)).
  - exact (proj1 (proj1 (response_classification scenario report_url _ _ _ H')
                   (or_intror eq_refl))).
Defined.

(** ** Proofs: failures while archiving *)

(** C5, as stated: when the sidecar cannot be written the counters are
    not those of a skipped document. *)
Lemma sidecar_failure_is_counted :
  write_fault no_sidecar 0 (report_path +:+ ".json") = OpenFails
  ∧ pdfs_downloaded (save_pdf no_sidecar report_url report_pdf (init ∅)) = 1
  ∧ total_size_bytes (save_pdf no_sidecar report_url report_pdf (init ∅)) = 100000
  ∧ ¬ same_counters (init ∅) (save_pdf no_sidecar report_url report_pdf (init ∅)).
Proof.
  split_and!; try (vm_compute; reflexivity).
  intros (_ & H & _). vm_compute in H. discriminate.
Qed.

(** C5, amended.  A failure of either write is caught inside [save_pdf]:
    the error is logged, the frontier is untouched and the loop body
    goes on normally.  When the PDF write fails the counters are
    unchanged.  When the sidecar write fails the PDF stays on disk and
    the counters have already been incremented: [pdfs_downloaded] by 1,
    [total_size_bytes] by the declared length. *)
Theorem archive_failure_isolated E url r s len parsed :
  declared_length r = Some len → pdf_min_size ≤ len →
  Url.urlparse (check_bracketed_netloc E) url "" = Some parsed →
  let filename := pdf_filename (time_time E (now s)) (Url.path parsed) in
  let file_path := Url.path_join download_dir filename in
  let metadata :=
    mkMetadata "MoHFW" "Tier1" url filename (strftime_ymd E (now s)) (size_kb len) in
  let s' := save_pdf E url r s in
  same_frontier s s'
  ∧ (∀ s0, get_response E url s0 = (s, Normal, Some r) → classify url r = IsPdf →
       process E url s0 = (s', Normal))
  ∧ (∀ s1, write_pdf E file_path r s = (s1, Raised) →
       same_counters s s'
       ∧ files s' = files s1
       ∧ trace s' = (trace s ++ [Logged ERROR (ErrorSavingPdf url)])%list)
  ∧ (∀ s1 s3, write_pdf E file_path r s = (s1, Normal) →
       write_json E (file_path +:+ ".json") metadata (count_pdf len s1) = (s3, Raised) →
       pdfs_downloaded s' = pdfs_downloaded s + 1
       ∧ total_size_bytes s' = total_size_bytes s + len
       ∧ files s' !! file_path = Some (PdfFile (String.concat "" (chunks r)))
       ∧ trace s' = (trace s ++ [Logged ERROR (ErrorSavingPdf url)])%list).
Proof.
  intros Hl Hge Hp filename file_path metadata s'. split_and!.
  - apply save_pdf_frontier.
  - intros s0 Hg Hc. unfold process. by rewrite Hg, Hc.
  - intros s1 Hw. subst s'.
    rewrite (save_pdf_write_fails _ _ _ _ _ _ _ Hl Hge Hp Hw).
    apply write_pdf_frame in Hw as (_ & Hc & Ht). simpl. by rewrite Ht.
  - intros s1 s3 Hw Hj. subst s'.
    assert (Hnow : now (count_pdf len s1) = now s).
    { apply write_pdf_frame in Hw as (_ & _ & Ht). unfold now. simpl. by rewrite Ht. }
    pose proof (write_pdf_frame _ _ _ _ _ _ Hw) as (_ & (_ & Hc1 & Hc2) & Ht).
    assert (H1 : files s1 !! file_path = Some (PdfFile (String.concat "" (chunks r)))).
    { revert Hw. unfold write_pdf. repeat case_match; intros [= <-]; simpl;
        try done; by rewrite lookup_insert_eq. }
    destruct (kb_overflows len) eqn:Hfit.
    { rewrite (save_pdf_size_overflows _ _ _ _ _ _ s1 Hl Hge Hfit Hp Hw). simpl.
      split_and!; [congruence|congruence|done|congruence]. }
    rewrite (save_pdf_sidecar_fails _ _ _ _ _ _ s1 s3 Hl Hge Hfit Hp Hw);
      [|by rewrite Hnow].
    pose proof (write_json_frame _ _ _ _ _ _ Hj) as (_ & (_ & Hc3 & Hc4) & Ht3).
    simpl in *. split_and!; [congruence|congruence| |congruence].
    revert Hj. unfold write_json. case_match; intros [= <-]; simpl; [done|].
    rewrite lookup_insert_ne; [done|apply sidecar_path_fresh].
Qed.

Lemma archive_failure_isolated_witness :
  declared_length report_pdf = Some 100000
  ∧ write_fault no_sidecar 0 (report_path +:+ ".json") = OpenFails
  ∧ pdfs_downloaded (save_pdf no_sidecar report_url report_pdf (init ∅)) = 0 + 1
  ∧ files (save_pdf no_sidecar report_url report_pdf (init ∅)) !! report_path
      = Some (PdfFile "%PDF-1.7 report").
Proof.
  split; [reflexivity|]. split; [reflexivity|].
  destruct (archive_failure_isolated no_sidecar report_url report_pdf (init ∅)
              100000 report_parsed) as (_ & _ & _ & H).
  - reflexivity.
  - unfold pdf_min_size. lia.
  - reflexivity.
  - destruct (H (set_files {[report_path := PdfFile "%PDF-1.7 report"]} (init ∅))
                (count_pdf 100000
                   (set_files {[report_path := PdfFile "%PDF-1.7 report"]} (init ∅))))
      as (Hn & _ & Hf & _).
    + vm_compute. reflexivity.
    + vm_compute. reflexivity.
    + split; [exact Hn|exact Hf].
Defined.

(** ** Proofs: the retry loop *)

Lemma now_emit e s : now (emit e s) = S (now s).
Proof. unfold now, emit. simpl. rewrite length_app. simpl. lia. Qed.

Lemma attempts_app evs evs' : attempts (evs ++ evs') = (attempts evs + attempts evs')%nat.
Proof. unfold attempts. by rewrite List.filter_app, length_app. Qed.

Lemma get_response_loop_attempts E url remaining : ∀ attempt s s' fl r,
  get_response_loop E url attempt remaining s = (s', fl, r) →
  ∃ evs, trace s' = (trace s ++ evs)%list ∧ (attempts evs ≤ remaining)%nat.
Proof.
  induction remaining as [|k IH]; intros attempt s s' fl r; simpl.
  - intros [= <- _ _]. by eexists [_].
  - destruct (requests_get E (now s) url).
    + intros [= <- _ _]. eexists [_]. split; [done|]. simpl. unfold attempts. simpl. lia.
    + intros H. apply IH in H as (evs & -> & Hle). simpl.
      exists ([Get url; Logged WARNING (AttemptFailed (attempt + 1) max_retries url);
               Sleep 2] ++ evs)%list.
      split; [by rewrite <- !app_assoc|].
      rewrite attempts_app. unfold attempts at 1. simpl. lia.
    + intros [= <- _ _]. eexists [_]. split; [done|]. unfold attempts. simpl. lia.
Qed.

Lemma get_response_loop_fail E url attempt k s :
  requests_get E (now s) url = RequestException →
  get_response_loop E url attempt (S k) s
    = get_response_loop E url (S attempt) k
        (emit (Sleep 2)
           (logging WARNING (AttemptFailed (attempt + 1) max_retries url)
              (emit (Get url) s))).
Proof. intros H. simpl. by rewrite H. Qed.

Lemma after_failure_now m s url :
  now (emit (Sleep 2) (logging WARNING m (emit (Get url) s))) = (now s + 3 * 1)%nat.
Proof. unfold logging. rewrite !now_emit. lia. Qed.

(** C6. Whatever the server does, [get_response] sends at most three
    requests.  When the request fails with a [RequestException] at each
    of its three attempts, it sends exactly three, sleeps two time units
    after each failure, logs the final error and returns [None]; the rest
    of the crawler state is untouched. *)
Theorem get_response_retry_bound E url s :
  (∀ s' fl r, get_response E url s = (s', fl, r) →
     ∃ evs, trace s' = (trace s ++ evs)%list ∧ (attempts evs ≤ 3)%nat)
  ∧ ((∀ k, (k < 3)%nat → requests_get E (now s + 3 * k)%nat url = RequestException) →
     ∃ s', get_response E url s = (s', Normal, None)
       ∧ trace s' =
           (trace s ++
            [Get url; Logged WARNING (AttemptFailed 1 3 url); Sleep 2;
             Get url; Logged WARNING (AttemptFailed 2 3 url); Sleep 2;
             Get url; Logged WARNING (AttemptFailed 3 3 url); Sleep 2;
             Logged ERROR (FailedToFetch url 3)])%list
       ∧ attempts (drop (length (trace s)) (trace s')) = 3%nat
       ∧ same_frontier s s' ∧ same_counters s s' ∧ files s' = files s).
Proof.
  split.
  - intros s' fl r H. unfold get_response in H.
    apply get_response_loop_attempts in H. exact H.
  - intros Hfail.
    pose proof (Hfail 0%nat ltac:(lia)) as H0.
    pose proof (Hfail 1%nat ltac:(lia)) as H1.
    pose proof (Hfail 2%nat ltac:(lia)) as H2.
    replace (now s + 3 * 0)%nat with (now s) in H0 by lia.
    unfold get_response, max_retries.
    rewrite (get_response_loop_fail _ _ _ _ _ H0).
    rewrite get_response_loop_fail; [|by rewrite after_failure_now].
    rewrite get_response_loop_fail;
      [|rewrite !after_failure_now;
        by replace (now s + 3 * 1 + 3 * 1)%nat with (now s + 3 * 2)%nat by lia].
    eexists. split; [reflexivity|]. simpl. split_and!; try done.
    + by rewrite <- !app_assoc.
    + rewrite <- !app_assoc. rewrite drop_app_length. reflexivity.
Qed.

Lemma get_response_retry_bound_witness :
  (∀ k, (k < 3)%nat →
     requests_get offline (now (init ∅) + 3 * k)%nat "https://mohfw.gov.in/x"
       = RequestException)
  ∧ ∃ s', get_response offline "https://mohfw.gov.in/x" (init ∅) = (s', Normal, None)
          ∧ attempts (trace s') = 3%nat.
Proof.
  assert (H : ∀ k, (k < 3)%nat →
     requests_get offline (now (init ∅) + 3 * k)%nat "https://mohfw.gov.in/x"
       = RequestException) by (intros k _; reflexivity).
  split; [exact H|].
  destruct (proj2 (get_response_retry_bound offline "https://mohfw.gov.in/x" (init ∅)) H)
    as (s' & Hg & _ & Ha & _).
  exists s'. split; [exact Hg|]. exact Ha.
Defined.

(** ** Proofs: the size filter *)

(** C7. The threshold is 51200 bytes.  A PDF response whose declared
    length is below it is skipped: [save_pdf] only logs, so no file is
    written and no counter changes; a declared length of 20000 is such a
    case.  A declared length of 60000 passes the filter: when the URL
    parses and neither write fails, the PDF and its sidecar are written
    and the counters grow by 1 and by 60000. *)
Theorem size_filter E url r s :
  pdf_min_size = 51200
  ∧ (∀ len, declared_length r = Some len → len < pdf_min_size →
       save_pdf E url r s = logging INFO (SkippingSmallPdf len url) s
       ∧ files (save_pdf E url r s) = files s
       ∧ same_counters s (save_pdf E url r s)
       ∧ same_frontier s (save_pdf E url r s))
  ∧ (content_length r = Some "20000" →
       save_pdf E url r s = logging INFO (SkippingSmallPdf 20000 url) s)
  ∧ (content_length r = Some "60000" →
     ∀ parsed, Url.urlparse (check_bracketed_netloc E) url "" = Some parsed →
     let filename := pdf_filename (time_time E (now s)) (Url.path parsed) in
     let file_path := Url.path_join download_dir filename in
     write_fault E (now s) file_path = WriteOk →
     stream_ok r = true →
     write_fault E (now s) (file_path +:+ ".json") = WriteOk →
     let s' := save_pdf E url r s in
     s' = archived E url r 60000 filename s
     ∧ files s' !! file_path = Some (PdfFile (String.concat "" (chunks r)))
     ∧ (∃ m, files s' !! (file_path +:+ ".json") = Some (JsonFile m))
     ∧ pdfs_downloaded s' = pdfs_downloaded s + 1
     ∧ total_size_bytes s' = total_size_bytes s + 60000).
Proof.
  split_and!.
  - reflexivity.
  - intros len Hl Hlt. rewrite (save_pdf_small _ _ _ _ _ Hl Hlt). by repeat split.
  - intros Hc. apply save_pdf_small; [|reflexivity].
    unfold declared_length. rewrite Hc. reflexivity.
  - intros Hc parsed Hp filename file_path Hw1 Hs Hw2 s'.
    assert (Hl : declared_length r = Some 60000).
    { unfold declared_length. rewrite Hc. reflexivity. }
    assert (Hge : pdf_min_size ≤ 60000) by (unfold pdf_min_size; lia).
    assert (Hs' : s' = archived E url r 60000 filename s).
    { subst s'. by apply (save_pdf_archived _ _ _ _ _ _ Hl Hge eq_refl Hp). }
    rewrite Hs'.
    destruct (archived_files E url r 60000 filename s) as (H1 & H2 & _).
    split_and!; [done|done|by eexists|done|done].
Qed.

Lemma size_filter_witness :
  content_length medium_pdf = Some "60000"
  ∧ pdfs_downloaded (save_pdf offline report_url medium_pdf (init ∅)) = 1
  ∧ save_pdf offline report_url small_pdf (init ∅)
      = logging INFO (SkippingSmallPdf 20000 report_url) (init ∅).
Proof.
  split; [reflexivity|]. split.
  - destruct (size_filter offline report_url medium_pdf (init ∅)) as (_ & _ & _ & H).
    destruct (H eq_refl report_parsed eq_refl eq_refl eq_refl eq_refl)
      as (_ & _ & _ & Hn & _).
    exact Hn.
  - destruct (size_filter offline report_url small_pdf (init ∅)) as (_ & _ & H & _).
    exact (H eq_refl).
Defined.



(** ** Proofs: the normal form has no fragment *)

Lemma filter_chars_all p s :
  Py.forall_chars p s = true → Py.filter_chars p s = s.
Proof.
  induction s as [|c s IH]; [done|]. cbn [Py.forall_chars Py.filter_chars].
  intros [Hc Hs]%andb_true_iff. by rewrite Hc, IH.
Qed.

Lemma partition_parts c d s b t :
  Py.partition c s = Some (b, t) → Py.has_char d s = false →
  Py.has_char d b = false ∧ Py.has_char d t = false.
Proof.
  intros Hp Hs. apply partition_sound in Hp as [-> _].
  rewrite has_char_app in Hs. cbn [Py.has_char] in Hs.
  apply orb_false_iff in Hs as [H1 H2]. by apply orb_false_iff in H2 as [_ H2].
Qed.

Lemma rpartition_parts c d s : ∀ b t,
  Py.rpartition c s = Some (b, t) → Py.has_char d s = false →
  Py.has_char d b = false ∧ Py.has_char d t = false.
Proof.
  induction s as [|a s IH]; intros b t; cbn [Py.rpartition Py.has_char]; [done|].
  intros Hr [Ha Hs]%orb_false_iff.
  destruct (Py.rpartition c s) as [[b' t']|].
  - injection Hr as <- <-. destruct (IH _ _ eq_refl Hs) as [Hb Ht].
    split; [|done]. cbn [Py.has_char]. by rewrite Ha, Hb.
  - destruct (Py.eqc a c); [|done]. by injection Hr as <- <-.
Qed.

Lemma split1_parts c d s b t :
  Url.split1 c s = (b, t) → Py.has_char d s = false →
  Py.has_char d b = false ∧ Py.has_char d t = false.
Proof.
  unfold Url.split1. destruct (Py.partition c s) as [[b' t']|] eqn:Hp.
  - intros [= <- <-]. by eapply partition_parts.
  - by intros [= <- <-].
Qed.

Lemma split1_before c s b t : Url.split1 c s = (b, t) → Py.has_char c b = false.
Proof.
  unfold Url.split1. destruct (Py.partition c s) as [[b' t']|] eqn:Hp.
  - intros [= <- <-]. by apply partition_sound in Hp as [_ ?].
  - intros [= <- <-]. by apply partition_none.
Qed.

Lemma break_at_prefix p c s : ∀ b t,
  Py.break_at p s = (b, t) → p c = true → Py.has_char c b = false.
Proof.
  induction s as [|a s IH]; intros b t; cbn [Py.break_at].
  - by intros [= <- _].
  - destruct (p a) eqn:Ha; [by intros [= <- _]|].
    destruct (Py.break_at p s) as [b' t']. intros [= <- <-] Hc.
    cbn [Py.has_char]. rewrite (IH _ _ eq_refl Hc), orb_false_r.
    destruct (Py.eqc a c) eqn:He; [|done].
    apply eqc_eq in He as ->. by rewrite Hc in Ha.
Qed.

Lemma scheme_char_no_hash c :
  Url.scheme_char c = true → Py.eqc (Py.lower_char c) "#" = false.
Proof.
  destruct c as [[] [] [] [] [] [] [] []]; vm_compute; intros H;
    first [reflexivity|discriminate H].
Qed.

Lemma scheme_no_hash s :
  Py.forall_chars Url.scheme_char s = true → Py.has_char "#" (Py.lower s) = false.
Proof.
  induction s as [|c s IH]; [done|]. cbn [Py.forall_chars Py.lower Py.has_char].
  intros [Hc Hs]%andb_true_iff. by rewrite (scheme_char_no_hash _ Hc), (IH Hs).
Qed.

Lemma split_scheme_no_hash d w sch x :
  Url.split_scheme d w = (sch, x) → Py.has_char "#" d = false →
  Py.has_char "#" sch = false.
Proof.
  unfold Url.split_scheme. intros H Hd.
  destruct (Py.partition ":" w) as [[[|c0 pre] post]|]; try (by injection H as <- _).
  destruct (Py.is_ascii_alpha c0 && Py.forall_chars Url.scheme_char (String c0 pre))
    eqn:Hs; [|by injection H as <- _].
  injection H as <- _. apply andb_true_iff in Hs as [_ Hs].
  by apply (scheme_no_hash (String c0 pre)).
Qed.

Section NoHash.

Variable chk : string → bool.

Lemma split_netloc_no_hash x nl y :
  Url.split_netloc chk x = Some (nl, y) → Py.has_char "#" nl = false.
Proof.
  unfold Url.split_netloc. destruct (Py.strip_prefix "//" x) as [rest|].
  - destruct (Py.break_at Url.netloc_delim rest) as [nl0 y0] eqn:Hb.
    intros H. assert (nl = nl0) as -> by (repeat case_match; congruence).
    by apply (break_at_prefix Url.netloc_delim "#" rest nl0 y0).
  - by intros [= <- _].
Qed.

Lemma split_parts_hash_free w d r :
  Url.split_parts chk w d = Some r → Py.has_char "#" d = false → hash_free r.
Proof.
  unfold Url.split_parts. intros H Hd.
  destruct (Url.split_scheme d w) as [sch x] eqn:Hs.
  destruct (Url.split_netloc chk x) as [[nl y]|] eqn:Hn; [|done].
  destruct (Url.split1 "#" y) as [z frag] eqn:Hf.
  destruct (Url.split1 "?" z) as [pth qry] eqn:Hq.
  injection H as <-. unfold hash_free. simpl.
  destruct (split1_parts _ "#" _ _ _ Hq (split1_before _ _ _ _ Hf)) as [Hp Hy].
  split_and!; [|by eapply split_netloc_no_hash|done|done|done].
  by eapply split_scheme_no_hash.
Qed.

Lemma splitparams_no_hash pth p prm :
  Url.splitparams pth = (p, prm) → Py.has_char "#" pth = false →
  Py.has_char "#" p = false ∧ Py.has_char "#" prm = false.
Proof.
  unfold Url.splitparams. intros H Hp.
  destruct (Py.rpartition "/" pth) as [[dir last]|] eqn:Hr.
  - destruct (rpartition_parts _ "#" _ _ _ Hr Hp) as [Hdir Hlast].
    destruct (Py.partition ";" last) as [[b t]|] eqn:Hl.
    + injection H as <- <-.
      destruct (partition_parts _ "#" _ _ _ Hl Hlast) as [Hb Ht].
      split; [|done]. rewrite !has_char_app, Hdir, Hb. reflexivity.
    + by injection H as <- <-.
  - by eapply split1_parts.
Qed.

Lemma urlparse_hash_free u r : Url.urlparse chk u "" = Some r → hash_free r.
Proof.
  unfold Url.urlparse, Url.urlsplit.
  destruct (Url.split_parts chk _ _) as [r0|] eqn:Hs; [|done].
  apply split_parts_hash_free in Hs as (H1 & H2 & H3 & H4 & H5); [|reflexivity].
  destruct (Url.mem (Url.scheme r0) Url.uses_params && Py.has_char ";" (Url.path r0)).
  - destruct (Url.splitparams (Url.path r0)) as [p prm] eqn:Hp.
    intros [= <-]. destruct (splitparams_no_hash _ _ _ Hp H3) as [Ha Hb].
    by split_and!.
  - intros [= <-]. by split_and!.
Qed.

Lemma urlunsplit_no_hash sch nl url qry :
  Py.has_char "#" sch = false → Py.has_char "#" nl = false →
  Py.has_char "#" url = false → Py.has_char "#" qry = false →
  Py.has_char "#" (Url.urlunsplit sch nl url qry "") = false.
Proof.
  intros H1 H2 H3 H4. unfold Url.urlunsplit.
  generalize (Url.mem sch Url.uses_netloc). intros m.
  destruct (Py.is_empty nl), (Py.is_empty sch), m, (Py.startswith "//" url),
    (Py.is_empty url), (Py.startswith "/" url), (Py.is_empty qry);
    cbn [negb orb andb Py.is_empty];
    rewrite ?has_char_app, ?H1, ?H2, ?H3, ?H4; reflexivity.
Qed.

Lemma urlunparse_no_hash r :
  hash_free r → Url.fragment r = "" → Py.has_char "#" (Url.urlunparse r) = false.
Proof.
  intros (H1 & H2 & H3 & H4 & H5) Hf. unfold Url.urlunparse. rewrite Hf.
  apply urlunsplit_no_hash; [done|done| |done].
  destruct (negb (Py.is_empty (Url.params r))); [|done].
  rewrite !has_char_app, H3, H4. reflexivity.
Qed.

Lemma remove_fragment_no_hash u v :
  Url.remove_fragment chk u = Some v → Py.has_char "#" v = false.
Proof.
  unfold Url.remove_fragment.
  destruct (Url.urlparse chk u "") as [r|] eqn:Hp; [|done].
  intros [= <-]. apply urlparse_hash_free in Hp.
  by apply urlunparse_no_hash.
Qed.

End NoHash.

Lemma normalize_link_no_hash E page h u :
  normalize_link E page h = Some u → Py.has_char "#" u = false.
Proof.
  unfold normalize_link. destruct (Url.urljoin _ page h) as [full|]; [|done].
  apply remove_fragment_no_hash.
Qed.

(** ** Proofs: the normal form keeps the components *)

Lemma forall_chars_app p a b :
  Py.forall_chars p (a +:+ b) = Py.forall_chars p a && Py.forall_chars p b.
Proof.
  induction a as [|x a IH]; [done|]. rewrite append_cons. cbn [Py.forall_chars].
  by rewrite IH, andb_assoc.
Qed.

Lemma rpartition_sound c s : ∀ b t,
  Py.rpartition c s = Some (b, t) → s = b +:+ String c t ∧ Py.has_char c t = false.
Proof.
  induction s as [|a s IH]; intros b t; cbn [Py.rpartition]; [done|].
  destruct (Py.rpartition c s) as [[b' t']|] eqn:Hr.
  - intros [= <- <-]. destruct (IH _ _ eq_refl) as [-> Ht]. by rewrite append_cons.
  - destruct (Py.eqc a c) eqn:Ha; [|done]. intros [= <- <-].
    apply eqc_eq in Ha as ->. split; [done|].
    clear IH. induction s as [|x s IH]; [done|]. cbn [Py.rpartition] in Hr.
    destruct (Py.rpartition c s) as [[? ?]|]; [done|].
    destruct (Py.eqc x c) eqn:Hx; [done|]. cbn [Py.has_char]. rewrite Hx. by apply IH.
Qed.

Lemma rpartition_found c b t :
  Py.has_char c t = false → Py.rpartition c (b +:+ String c t) = Some (b, t).
Proof.
  intros Ht.
  assert (Hnone : Py.rpartition c t = None).
  { induction t as [|x t IH]; [done|]. cbn [Py.has_char] in Ht.
    apply orb_false_iff in Ht as [Hx Ht]. cbn [Py.rpartition].
    by rewrite (IH Ht), Hx. }
  induction b as [|x b IH].
  - change ("" +:+ String c t) with (String c t). cbn [Py.rpartition].
    by rewrite Hnone, eqc_refl.
  - rewrite append_cons. cbn [Py.rpartition]. by rewrite IH.
Qed.

Lemma rpartition_not_found c s : Py.has_char c s = false → Py.rpartition c s = None.
Proof.
  induction s as [|x s IH]; [done|]. cbn [Py.has_char Py.rpartition].
  intros [Hx Hs]%orb_false_iff. by rewrite (IH Hs), Hx.
Qed.

Lemma break_at_split p s : ∀ b t,
  Py.break_at p s = (b, t) →
  s = b +:+ t
  ∧ Py.forall_chars (fun c => negb (p c)) b = true
  ∧ match t with "" => True | String c _ => p c = true end.
Proof.
  induction s as [|a s IH]; intros b t; cbn [Py.break_at].
  - by intros [= <- <-].
  - destruct (p a) eqn:Ha; [by intros [= <- <-]|].
    destruct (Py.break_at p s) as [b' t']. intros [= <- <-].
    destruct (IH _ _ eq_refl) as (-> & Hb & Ht).
    split_and!; [done| |done]. cbn [Py.forall_chars]. by rewrite Ha, Hb.
Qed.

Lemma break_at_found p b t :
  Py.forall_chars (fun c => negb (p c)) b = true →
  match t with "" => True | String c _ => p c = true end →
  Py.break_at p (b +:+ t) = (b, t).
Proof.
  intros Hb Ht. induction b as [|a b IH].
  - change ("" +:+ t) with t. destruct t as [|c t]; [done|].
    cbn [Py.break_at]. by rewrite Ht.
  - cbn [Py.forall_chars] in Hb. apply andb_true_iff in Hb as [Ha Hb].
    rewrite append_cons. cbn [Py.break_at].
    apply negb_true_iff in Ha. by rewrite Ha, (IH Hb).
Qed.

Lemma strip_prefix_sound p : ∀ s r, Py.strip_prefix p s = Some r → s = p +:+ r.
Proof.
  induction p as [|a p IH]; intros s r; cbn [Py.strip_prefix].
  - by intros [= ->].
  - destruct s as [|b s]; [done|]. destruct (Py.eqc a b) eqn:Hab; [|done].
    apply eqc_eq in Hab as ->. intros H. rewrite (IH _ _ H). by rewrite append_cons.
Qed.

Lemma strip_prefix_found p r : Py.strip_prefix p (p +:+ r) = Some r.
Proof.
  induction p as [|a p IH]; [done|]. rewrite append_cons. cbn [Py.strip_prefix].
  by rewrite eqc_refl.
Qed.

Lemma lower_char_idem c : Py.lower_char (Py.lower_char c) = Py.lower_char c.
Proof. destruct c as [[] [] [] [] [] [] [] []]; reflexivity. Qed.

Lemma lower_idem s : Py.lower (Py.lower s) = Py.lower s.
Proof. induction s as [|c s IH]; [done|]. cbn [Py.lower]. by rewrite lower_char_idem, IH. Qed.

Lemma scheme_char_lower c :
  Url.scheme_char c = true → Url.scheme_char (Py.lower_char c) = true.
Proof.
  destruct c as [[] [] [] [] [] [] [] []]; vm_compute; intros H;
    first [reflexivity|discriminate H].
Qed.

Lemma ascii_alpha_lower c :
  Py.is_ascii_alpha c = true → Py.is_ascii_alpha (Py.lower_char c) = true.
Proof.
  destruct c as [[] [] [] [] [] [] [] []]; vm_compute; intros H;
    first [reflexivity|discriminate H].
Qed.

Lemma scheme_char_safe c :
  Url.scheme_char c = true → negb (Url.unsafe_byte c) = true.
Proof.
  destruct c as [[] [] [] [] [] [] [] []]; vm_compute; intros H;
    first [reflexivity|discriminate H].
Qed.

Lemma ascii_alpha_not_space c :
  Py.is_ascii_alpha c = true → Url.c0_or_space c = false.
Proof.
  destruct c as [[] [] [] [] [] [] [] []]; vm_compute; intros H;
    first [reflexivity|discriminate H].
Qed.

Lemma forall_chars_lower_scheme s :
  Py.forall_chars Url.scheme_char s = true →
  Py.forall_chars Url.scheme_char (Py.lower s) = true.
Proof.
  induction s as [|c s IH]; [done|]. cbn [Py.forall_chars Py.lower].
  intros [Hc Hs]%andb_true_iff. by rewrite (scheme_char_lower _ Hc), (IH Hs).
Qed.

Lemma forall_chars_impl (p q : ascii → bool) s :
  (∀ c, p c = true → q c = true) →
  Py.forall_chars p s = true → Py.forall_chars q s = true.
Proof.
  intros Hpq. induction s as [|c s IH]; [done|]. cbn [Py.forall_chars].
  intros [Hc Hs]%andb_true_iff. by rewrite (Hpq _ Hc), (IH Hs).
Qed.

Lemma split_scheme_shape w sch x :
  Url.split_scheme "" w = (sch, x) →
  scheme_ok sch ∧ (unsafe_free w → unsafe_free x).
Proof.
  unfold Url.split_scheme, scheme_ok.
  destruct (Py.partition ":" w) as [[[|c0 pre] post]|] eqn:Hp;
    try (intros [= <- <-]; by split_and!).
  destruct (Py.is_ascii_alpha c0 && Py.forall_chars Url.scheme_char (String c0 pre))
    eqn:Hs; [|intros [= <- <-]; by split_and!].
  apply andb_true_iff in Hs as [Ha Hs]. intros [= <- <-]. split_and!.
  - by apply (forall_chars_lower_scheme (String c0 pre)).
  - apply (lower_idem (String c0 pre)).
  - cbn [Py.lower]. by apply ascii_alpha_lower.
  - apply partition_sound in Hp as [-> _]. unfold unsafe_free.
    rewrite forall_chars_app. cbn [Py.forall_chars].
    intros [_ [_ H]%andb_true_iff]%andb_true_iff. exact H.
Qed.

Section RoundTrip.

Variable chk : string → bool.

Lemma split_netloc_shape x nl y :
  Url.split_netloc chk x = Some (nl, y) → nl ≠ "" →
  Py.forall_chars (fun c => negb (Url.netloc_delim c)) nl = true
  ∧ bracket_ok chk nl = true
  ∧ match y with "" => True | String c _ => Url.netloc_delim c = true end
  ∧ (unsafe_free x → unsafe_free nl ∧ unsafe_free y).
Proof.
  unfold Url.split_netloc.
  destruct (Py.strip_prefix "//" x) as [rest|] eqn:Hr; [|by intros [= <- <-]].
  destruct (Py.break_at Url.netloc_delim rest) as [nl0 y0] eqn:Hb.
  apply break_at_split in Hb as (Hrest & Hnl & Hy).
  apply strip_prefix_sound in Hr. unfold bracket_ok.
  destruct (Py.has_char "[" nl0 && negb (Py.has_char "]" nl0)
            || Py.has_char "]" nl0 && negb (Py.has_char "[" nl0)) eqn:H1; [done|].
  destruct (Py.has_char "[" nl0 && Py.has_char "]" nl0 && negb (chk nl0)) eqn:H2;
    [done|].
  intros [= <- <-] _. rewrite H1, H2. split_and!; [done|done|done|].
  subst x rest. unfold unsafe_free. rewrite !forall_chars_app.
  intros [_ H]%andb_true_iff. by apply andb_true_iff in H.
Qed.

Lemma split_netloc_build nl y :
  Py.forall_chars (fun c => negb (Url.netloc_delim c)) nl = true →
  bracket_ok chk nl = true →
  match y with "" => True | String c _ => Url.netloc_delim c = true end →
  Url.split_netloc chk ("//" +:+ nl +:+ y) = Some (nl, y).
Proof.
  intros Hnl Hbr Hy. unfold Url.split_netloc.
  rewrite strip_prefix_found, (break_at_found _ _ _ Hnl Hy).
  unfold bracket_ok in Hbr. apply andb_true_iff in Hbr as [H1 H2].
  apply negb_true_iff in H1, H2. by rewrite H1, H2.
Qed.


Lemma split1_unsafe_free c s b t :
  Url.split1 c s = (b, t) → unsafe_free s → unsafe_free b ∧ unsafe_free t.
Proof.
  unfold Url.split1, unsafe_free.
  destruct (Py.partition c s) as [[b' t']|] eqn:Hp.
  - intros [= <- <-]. apply partition_sound in Hp as [-> _].
    rewrite forall_chars_app. cbn [Py.forall_chars].
    intros [H1 [_ H2]%andb_true_iff]%andb_true_iff. by split.
  - intros [= <- <-] H. by split.
Qed.

Lemma split1_head c s b t :
  Url.split1 c s = (b, t) →
  match b with
  | "" => True
  | String a _ => match s with String a' _ => a' = a | "" => False end
  end.
Proof.
  unfold Url.split1. destruct (Py.partition c s) as [[b' t']|] eqn:Hp.
  - intros [= <- <-]. apply partition_sound in Hp as [-> _].
    destruct b' as [|a b']; [done|]. by rewrite append_cons.
  - intros [= <- <-]. by destruct s.
Qed.

Lemma netloc_delim_cases c :
  Url.netloc_delim c = true → c = "/"%char ∨ c = "?"%char ∨ c = "#"%char.
Proof.
  unfold Url.netloc_delim. intros [[H|H]%orb_true_iff|H]%orb_true_iff;
    apply eqc_eq in H; auto.
Qed.

Lemma split_parts_shape w r :
  Url.split_parts chk w "" = Some r → Url.netloc r ≠ "" → unsafe_free w →
  split_shape chk r ∧ Url.params r = "".
Proof.
  unfold Url.split_parts. intros H Hnl Hw.
  destruct (Url.split_scheme "" w) as [sch x] eqn:Hs.
  destruct (split_scheme_shape _ _ _ Hs) as [Hsch Hx]. specialize (Hx Hw).
  destruct (Url.split_netloc chk x) as [[nl y]|] eqn:Hn; [|done].
  destruct (Url.split1 "#" y) as [z frag] eqn:Hf.
  destruct (Url.split1 "?" z) as [pth qry] eqn:Hq.
  injection H as <-. cbn [Url.netloc] in Hnl.
  destruct (split_netloc_shape _ _ _ Hn Hnl) as (Hd & Hbr & Hy & Hu).
  destruct (Hu Hx) as [Hunl Huy].
  destruct (split1_unsafe_free _ _ _ _ Hf Huy) as [Huz _].
  destruct (split1_unsafe_free _ _ _ _ Hq Huz) as [Hup Huq].
  pose proof (split1_before _ _ _ _ Hf) as Hz.
  destruct (split1_parts _ "#" _ _ _ Hq Hz) as [Hp1 Hq1].
  pose proof (split1_before _ _ _ _ Hq) as Hp2.
  split; [|done]. unfold split_shape. cbn.
  split_and!; try done.
  destruct pth as [|a pth]; [by left|right].
  pose proof (split1_head _ _ _ _ Hq) as Hh1. cbn in Hh1.
  destruct z as [|a' z]; [done|]. subst a'.
  pose proof (split1_head _ _ _ _ Hf) as Hh2. cbn in Hh2.
  destruct y as [|a' y]; [done|]. subst a'.
  destruct (netloc_delim_cases _ Hy) as [-> | [-> | ->]]; [done| |].
  - cbn [Py.has_char] in Hp2. by rewrite eqc_refl in Hp2.
  - cbn [Py.has_char] in Hp1. by rewrite eqc_refl in Hp1.
Qed.


Lemma append_nil_r s : s +:+ "" = s.
Proof. induction s as [|a s IH]; [done|]. by rewrite append_cons, IH. Qed.

Lemma partition_head c a s c0 pre post :
  Py.partition c (String a s) = Some (String c0 pre, post) → c0 = a.
Proof.
  cbn [Py.partition]. destruct (Py.eqc a c); [done|].
  destruct (Py.partition c s) as [[b t]|]; [|done]. by intros [= <- _ _].
Qed.

Lemma split_scheme_build sch rest :
  scheme_ok sch →
  match sch with "" => Py.startswith "/" rest = true | _ => True end →
  Url.split_scheme ""
    (if negb (Py.is_empty sch) then sch +:+ ":" +:+ rest else rest)
  = (sch, rest).
Proof.
  intros (Hall & Hlow & Ha) Hrest. unfold Url.split_scheme.
  destruct sch as [|c0 pre]; cbn [Py.is_empty negb].
  - destruct rest as [|a rest]; [done|]. cbn [Py.startswith] in Hrest.
    apply andb_true_iff in Hrest as [Hs _]. apply eqc_eq in Hs as <-.
    destruct (Py.partition ":" (String "/" rest)) as [[[|c1 pre1] post]|] eqn:Hp;
      [done| |done].
    apply partition_head in Hp as ->. reflexivity.
  - change (":" +:+ rest) with (String ":" rest).
    rewrite (partition_found ":" (String c0 pre) rest).
    + by rewrite Ha, Hall, Hlow.
    + by apply (forall_chars_lacks Url.scheme_char).
Qed.

Lemma split_parts_build sch nl pth qry :
  scheme_ok sch →
  Py.forall_chars (fun c => negb (Url.netloc_delim c)) nl = true →
  bracket_ok chk nl = true →
  starts_path pth →
  Py.has_char "?" pth = false → Py.has_char "#" pth = false →
  Py.has_char "#" qry = false →
  Url.split_parts chk
    (if negb (Py.is_empty sch)
     then sch +:+ ":" +:+ "//" +:+ nl +:+ pth
                        +:+ (if Py.is_empty qry then "" else String "?" qry)
     else "//" +:+ nl +:+ pth +:+ (if Py.is_empty qry then "" else String "?" qry))
    ""
  = Some (Url.mkParse sch nl pth "" qry "").
Proof.
  intros Hsch Hnl Hbr Hpth Hp1 Hp2 Hq. unfold Url.split_parts.
  set (tail := pth +:+ (if Py.is_empty qry then "" else String "?" qry)).
  rewrite (split_scheme_build sch ("//" +:+ nl +:+ tail) Hsch);
    [|by destruct sch].
  rewrite (split_netloc_build nl tail Hnl Hbr).
  2:{ unfold tail. destruct Hpth as [->|Hs].
      - change ("" +:+ ?x) with x. by destruct (Py.is_empty qry).
      - destruct pth as [|a pth]; [done|]. rewrite append_cons.
        cbn [Py.startswith] in Hs. apply andb_true_iff in Hs as [Hs _].
        apply eqc_eq in Hs as <-. reflexivity. }
  assert (Htail : Py.has_char "#" tail = false).
  { unfold tail. rewrite has_char_app, Hp2. destruct (Py.is_empty qry); [done|].
    cbn [Py.has_char]. by rewrite Hq. }
  rewrite (split1_not_found "#" tail Htail). unfold tail.
  destruct qry as [|c qry]; cbn [Py.is_empty].
  - rewrite append_nil_r, (split1_not_found "?" pth Hp1). reflexivity.
  - rewrite (split1_found "?" pth (String c qry) Hp1). reflexivity.
Qed.


Lemma urlunsplit_form sch nl pth qry :
  nl ≠ "" → starts_path pth →
  Url.urlunsplit sch nl pth qry ""
  = if negb (Py.is_empty sch)
    then sch +:+ ":" +:+ "//" +:+ nl +:+ pth
                       +:+ (if Py.is_empty qry then "" else String "?" qry)
    else "//" +:+ nl +:+ pth +:+ (if Py.is_empty qry then "" else String "?" qry).
Proof.
  intros Hnl Hpth. unfold Url.urlunsplit.
  assert (He : Py.is_empty nl = false) by by destruct nl.
  rewrite He. cbn [negb orb Py.is_empty].
  assert (Hp : (if negb (Py.is_empty pth) && negb (Py.startswith "/" pth)
                then "/" +:+ pth else pth) = pth).
  { destruct Hpth as [-> | ->]; [done|]. by rewrite andb_false_r. }
  rewrite Hp.
  destruct (Py.is_empty sch), (Py.is_empty qry); cbn [negb];
    rewrite ?append_nil_r, ?append_assoc; reflexivity.
Qed.

Lemma splitparams_cases P0 p prm :
  Url.splitparams P0 = (p, prm) →
  (p = P0 ∧ prm = "") ∨ (P0 = p +:+ String ";" prm ∧ Url.splitparams p = (p, "")).
Proof.
  unfold Url.splitparams.
  destruct (Py.rpartition "/" P0) as [[dir last]|] eqn:Hr.
  - apply rpartition_sound in Hr as [-> Hlast].
    destruct (Py.partition ";" last) as [[b t]|] eqn:Hl; [|intros [= <- <-]; by left].
    intros [= <- <-]. right.
    destruct (partition_parts _ "/" _ _ _ Hl Hlast) as [Hb _].
    apply partition_sound in Hl as [-> Hb'].
    change ("/" +:+ b) with (String "/" b). split.
    + by rewrite append_assoc.
    + rewrite (rpartition_found "/" dir b Hb).
      by rewrite (partition_not_found ";" b Hb').
  - unfold Url.split1.
    destruct (Py.partition ";" P0) as [[b t]|] eqn:Hl; [|intros [= <- <-]; by left].
    intros [= <- <-]. right.
    assert (Hs : Py.has_char "/" P0 = false).
    { destruct (Py.has_char "/" P0) eqn:Hh; [|done]. exfalso.
      clear Hl. induction P0 as [|a P0 IH]; [done|].
      cbn [Py.rpartition Py.has_char] in *.
      destruct (Py.rpartition "/" P0) as [[? ?]|]; [done|].
      destruct (Py.eqc a "/"); [done|]. by apply IH. }
    destruct (partition_parts _ "/" _ _ _ Hl Hs) as [Hb _].
    apply partition_sound in Hl as [-> Hb']. split; [done|].
    rewrite (rpartition_not_found "/" b Hb).
    by rewrite (partition_not_found ";" b Hb').
Qed.

Lemma lstrip_head p c s : p c = false → Py.lstrip p (String c s) = String c s.
Proof. intros H. cbn [Py.lstrip]. by rewrite H. Qed.


Lemma urlsplit_unsplit sch nl cp qry :
  scheme_ok sch → nl ≠ "" →
  Py.forall_chars (fun c => negb (Url.netloc_delim c)) nl = true →
  bracket_ok chk nl = true →
  starts_path cp →
  Py.has_char "?" cp = false → Py.has_char "#" cp = false →
  Py.has_char "#" qry = false →
  unsafe_free nl → unsafe_free cp → unsafe_free qry →
  Url.urlsplit chk (Url.urlunsplit sch nl cp qry "") ""
  = Some (Url.mkParse sch nl cp "" qry "").
Proof.
  intros Hsch Hne Hnl Hbr Hcp Hc1 Hc2 Hq Hu1 Hu2 Hu3.
  rewrite (urlunsplit_form _ _ _ _ Hne Hcp). unfold Url.urlsplit.
  change (Url.remove_unsafe (Py.strip Url.c0_or_space "")) with "".
  rewrite <- (split_parts_build sch nl cp qry Hsch Hnl Hbr Hcp Hc1 Hc2 Hq).
  f_equal.
  set (tail := "//" +:+ nl +:+ cp +:+ (if Py.is_empty qry then "" else String "?" qry)).
  assert (Htail : unsafe_free tail).
  { unfold tail, unsafe_free in *. rewrite !forall_chars_app, Hu1, Hu2.
    destruct qry as [|c qry]; [done|]. cbn [Py.is_empty].
    change (String "?" (String c qry)) with ("?" +:+ String c qry).
    by rewrite forall_chars_app, Hu3. }
  destruct Hsch as (Hall & _ & Ha).
  destruct sch as [|c0 pre]; cbn [Py.is_empty negb].
  - unfold tail at 1. change ("//" +:+ ?x) with (String "/" (String "/" x)).
    rewrite lstrip_head by reflexivity.
    apply filter_chars_all. exact Htail.
  - rewrite append_cons, lstrip_head by by apply ascii_alpha_not_space.
    rewrite <- append_cons. apply filter_chars_all.
    unfold unsafe_free in *. rewrite !forall_chars_app.
    rewrite (forall_chars_impl _ _ _ scheme_char_safe Hall). cbn [andb].
    change (":" +:+ ?x) with (String ":" x) in *.
    exact Htail.
Qed.


(** Parsing the normal form of a URL with a netloc gives back its
    scheme, netloc, path, parameters and query, and no fragment. *)
Lemma urlparse_unparse u r :
  Url.urlparse chk u "" = Some r → Url.netloc r ≠ "" →
  Url.urlparse chk (Url.urlunparse (Url.replace_fragment "" r)) ""
  = Some (Url.replace_fragment "" r).
Proof.
  unfold Url.urlparse at 1. intros H Hne.
  destruct (Url.urlsplit chk u "") as [r0|] eqn:Hsplit; [|done].
  unfold Url.urlsplit in Hsplit.
  change (Url.remove_unsafe (Py.strip Url.c0_or_space "")) with "" in Hsplit.
  assert (Hnl0 : Url.netloc r0 ≠ "").
  { destruct (Url.mem (Url.scheme r0) Url.uses_params && _) in H.
    - destruct (Url.splitparams (Url.path r0)). by injection H as <-.
    - by injection H as <-. }
  destruct (split_parts_shape _ _ Hsplit Hnl0 (forall_filter_chars _ _))
    as ((Hsch & Hd & Hbr & Hst & Hp1 & Hp2 & Hq & Hu1 & Hu2 & Hu3) & Hprm).
  destruct r0 as [sch nl P0 prm0 qry frag]. cbn in *. subst prm0.
  assert (Hre : ∀ cp p prm,
            starts_path cp → Py.has_char "?" cp = false → Py.has_char "#" cp = false →
            unsafe_free cp →
            (if Url.mem sch Url.uses_params && Py.has_char ";" cp
             then let '(p', prm') := Url.splitparams cp in
                  Some (Url.mkParse sch nl p' prm' qry "")
             else Some (Url.mkParse sch nl cp "" qry ""))
            = Some (Url.mkParse sch nl p prm qry "") →
            Url.urlparse chk (Url.urlunsplit sch nl cp qry "") ""
            = Some (Url.mkParse sch nl p prm qry "")).
  { intros cp p prm Hc0 Hc1 Hc2 Hc3 Hc4. unfold Url.urlparse.
    rewrite (urlsplit_unsplit sch nl cp qry); try done. }
  unfold Url.urlunparse, Url.replace_fragment.
  destruct (Url.mem sch Url.uses_params && Py.has_char ";" P0) eqn:Hcond.
  - destruct (Url.splitparams P0) as [p prm] eqn:Hsp. injection H as <-. cbn.
    destruct (splitparams_cases _ _ _ Hsp) as [[-> ->]|[HP0 Hidem]].
    + cbn [Py.is_empty negb]. apply Hre; try done. by rewrite Hcond, Hsp.
    + destruct prm as [|c prm]; cbn [Py.is_empty negb].
      * subst P0. unfold unsafe_free in Hu2.
        rewrite has_char_app in Hp1, Hp2. rewrite forall_chars_app in Hu2.
        apply orb_false_iff in Hp1 as [Hp1 _]. apply orb_false_iff in Hp2 as [Hp2 _].
        apply andb_true_iff in Hu2 as [Hu2 _].
        apply Hre; try done.
        -- destruct Hst as [Hst|Hst]; [by destruct p|].
           destruct p as [|a p]; [done|]. by right.
        -- destruct (Url.mem sch Url.uses_params && Py.has_char ";" p); [|done].
           by rewrite Hidem.
      * change (";" +:+ String c prm) with (String ";" (String c prm)).
        rewrite <- HP0. apply Hre; try done. by rewrite Hcond, Hsp.
  - injection H as <-. cbn. apply Hre; try done. by rewrite Hcond.
Qed.

Lemma remove_fragment_keeps u r :
  Url.urlparse chk u "" = Some r → Url.netloc r ≠ "" →
  ∃ v, Url.remove_fragment chk u = Some v
    ∧ Url.urlparse chk v "" = Some (Url.replace_fragment "" r).
Proof.
  intros H Hne. unfold Url.remove_fragment. rewrite H. eexists. split; [done|].
  by apply urlparse_unparse with u.
Qed.

End RoundTrip.

(** ** Proofs: fragments and the queue *)

(** C9. A link [u] and the same link followed by [#f] resolve, against
    any page, to the same normalized URL, so a page that carries both in
    either order leaves the queue as if it carried [u] alone.  The
    normalized form of any link holds no [#]: the fragment is dropped.
    When the resolved URL has a netloc, the normalized URL parses to
    the same scheme, netloc, path, parameters and query, with an empty
    fragment: the rest is kept.  For example [https://mohfw.gov.in/a#sec2] and
    [https://mohfw.gov.in/a] both become [https://mohfw.gov.in/a]. *)
Theorem fragment_normalization E page u f :
  u ≠ "" →
  normalize_link E page (u +:+ "#" +:+ f) = normalize_link E page u
  ∧ (∀ s, enqueue_links E page [u +:+ "#" +:+ f; u] s = enqueue_links E page [u] s)
  ∧ (∀ s, enqueue_links E page [u; u +:+ "#" +:+ f] s = enqueue_links E page [u] s)
  ∧ (∀ h v, normalize_link E page h = Some v → Py.has_char "#" v = false)
  ∧ (∀ h full r,
       Url.urljoin (check_bracketed_netloc E) page h = Some full →
       Url.urlparse (check_bracketed_netloc E) full "" = Some r →
       Url.netloc r ≠ "" →
       ∃ v, normalize_link E page h = Some v
         ∧ Url.urlparse (check_bracketed_netloc E) v ""
           = Some (Url.mkParse (Url.scheme r) (Url.netloc r) (Url.path r)
                     (Url.params r) (Url.query r) ""))
  ∧ normalize_link E seed_url "https://mohfw.gov.in/a#sec2" = Some "https://mohfw.gov.in/a"
  ∧ normalize_link E seed_url "https://mohfw.gov.in/a" = Some "https://mohfw.gov.in/a".
Proof.
  intros Hu.
  assert (H : normalize_link E page (u +:+ "#" +:+ f) = normalize_link E page u).
  { unfold normalize_link. change ("#" +:+ f) with (String "#" f).
    pose proof (join_then_strip_fragment (check_bracketed_netloc E) page u f Hu) as Hj.
    destruct (Url.urljoin _ page (u +:+ String "#" f));
      destruct (Url.urljoin _ page u); exact Hj. }
  split_and!.
  - exact H.
  - intros s. by apply enqueue_links_twice.
  - intros s. rewrite (enqueue_links_twice E page u (u +:+ "#" +:+ f) s (eq_sym H)).
    simpl. by rewrite H.
  - intros h v. apply normalize_link_no_hash.
  - intros h full r Hj Hp Hne. unfold normalize_link. rewrite Hj.
    destruct (remove_fragment_keeps _ _ _ Hp Hne) as (v & Hv & Hr).
    by exists v.
  - vm_compute. reflexivity.
  - vm_compute. reflexivity.
Qed.

Lemma fragment_normalization_witness :
  "https://mohfw.gov.in/a" ≠ ""
  ∧ normalize_link scenario seed_url ("https://mohfw.gov.in/a" +:+ "#" +:+ "sec2")
      = normalize_link scenario seed_url "https://mohfw.gov.in/a".
Proof.
  assert (H : "https://mohfw.gov.in/a" ≠ "") by discriminate.
  split; [exact H|].
  exact (proj1 (fragment_normalization scenario seed_url "https://mohfw.gov.in/a" "sec2" H)).
Defined.

(** ** Proofs: the file name *)

(** C8, as stated: a name can end in [.PDF]. *)
Lemma upper_case_suffix_kept :
  ¬ (∀ t p, Py.endswith ".pdf" (pdf_filename t p) = true).
Proof.
  intros H. specialize (H 0 "/docs/A.PDF"). vm_compute in H. discriminate.
Qed.

(** C8, amended.  The file name derived for an archived PDF consists
    only of alphanumeric characters, spaces, dots, underscores and
    hyphens, so it has no path separator and the file lands directly in
    the download directory; it ends in [.pdf] up to letter case (a name
    that already ends in [.PDF] is kept as it is).  The path
    [../../etc/passwd.pdf] gives [passwd.pdf]. *)
Theorem filename_sanitation t p :
  Py.forall_chars clean_char (pdf_filename t p) = true
  ∧ Py.has_char "/" (pdf_filename t p) = false
  ∧ Py.endswith ".pdf" (Py.lower (pdf_filename t p)) = true
  ∧ Url.path_join download_dir (pdf_filename t p)
      = download_dir +:+ "/" +:+ pdf_filename t p
  ∧ pdf_filename t "../../etc/passwd.pdf" = "passwd.pdf"
  ∧ Py.contains ".." (pdf_filename t "../../etc/passwd.pdf") = false
  ∧ pdf_filename t "/docs/A.PDF" = "A.PDF".
Proof.
  assert (H1 : Py.forall_chars clean_char (pdf_filename t p) = true)
    by apply forall_filter_chars.
  assert (H2 : Py.has_char "/" (pdf_filename t p) = false)
    by (by apply (forall_chars_lacks clean_char)).
  split_and!; [done|done| |by apply path_join_clean|reflexivity|reflexivity|reflexivity].
  unfold pdf_filename. apply endswith_pdf_filter.
  set (name := if Py.is_empty (Url.basename p) || _ then _ else _).
  destruct (Py.endswith ".pdf" (Py.lower name)) eqn:He; cbn [negb]; [done|].
  rewrite lower_app. apply endswith_app.
Qed.

(** * Further properties of the crawler *)

(** ** Proofs: what the guarded append changes *)

Lemma enqueue_frame E u s s' :
  enqueue E u s = Some s' →
  visited s' = visited s ∧ same_counters s s' ∧ files s' = files s ∧ trace s' = trace s.
Proof.
  intros H. apply enqueue_cases in H as [->|(-> & _)]; by repeat split.
Qed.

Lemma enqueue_links_frame E page hrefs : ∀ s s' fl,
  enqueue_links E page hrefs s = (s', fl) →
  visited s' = visited s ∧ same_counters s s' ∧ files s' = files s ∧ trace s' = trace s.
Proof.
  induction hrefs as [|h rest IH]; intros s s' fl; simpl.
  - intros [= <- _]. by repeat split.
  - destruct (normalize_link E page h) as [full|]; [|intros [= <- _]; by repeat split].
    destruct (enqueue E full s) as [s1|] eqn:He; [|intros [= <- _]; by repeat split].
    intros H. apply IH in H as (Hv & (Hc1 & Hc2 & Hc3) & Hf & Ht).
    apply enqueue_frame in He as (Hv' & (Hd1 & Hd2 & Hd3) & Hf' & Ht').
    repeat split; congruence.
Qed.

(** The links that a page adds go to the tail of the queue, in the order
    of the anchors, each once. *)
Lemma enqueue_links_appends E page hrefs : ∀ s s' fl,
  enqueue_links E page hrefs s = (s', fl) →
  ∃ new, queue s' = (queue s ++ new)%list
    ∧ NoDup new
    ∧ sublist new (omap (normalize_link E page) hrefs)
    ∧ ∀ u, u ∈ new → (u ∉ queue s) ∧ (u ∉ visited s) ∧ netloc_on_domain E u.
Proof.
  induction hrefs as [|h rest IH]; intros s s' fl; simpl.
  - intros [= <- _]. exists []. rewrite app_nil_r.
    split_and!; [done|constructor|constructor|]. intros u Hu. by apply elem_of_nil in Hu.
  - destruct (normalize_link E page h) as [full|] eqn:Hn.
    2:{ intros [= <- _]. exists []. rewrite app_nil_r.
        split_and!; [done|constructor|apply sublist_nil_l|].
        intros u Hu. by apply elem_of_nil in Hu. }
    destruct (enqueue E full s) as [s1|] eqn:He.
    2:{ intros [= <- _]. exists []. rewrite app_nil_r.
        split_and!; [done|constructor|apply sublist_nil_l|].
        intros u Hu. by apply elem_of_nil in Hu. }
    intros H. apply IH in H as (new & Hq & Hnd & Hsub & Hnew).
    destruct (enqueue_cases _ _ _ _ He) as [->|(-> & Hv & Hq1 & Hok)].
    + exists new. split_and!; [done|done|by apply sublist_cons|done].
    + exists (full :: new). simpl in *. split_and!.
      * by rewrite Hq, <- app_assoc.
      * apply NoDup_cons. split; [|done]. intros Hin.
        destruct (Hnew _ Hin) as (Hnq & _). apply Hnq. apply elem_of_app. right.
        by apply list_elem_of_singleton.
      * by apply sublist_skip.
      * intros u [->|Hu]%elem_of_cons.
        -- split_and!; [done|done|]. by apply is_valid_url_true in Hok as [? _].
        -- destruct (Hnew _ Hu) as (Hnq & Hnv & Hd). split_and!; [|done|done].
           intros Hin. apply Hnq. apply elem_of_app. by left.
Qed.

(** ** Proofs: what an archive changes *)

Lemma files_grow_refl fs : files_grow fs fs.
Proof. split; [done|]. by intros p []. Qed.

Lemma files_grow_trans fs1 fs2 fs3 :
  files_grow fs1 fs2 → files_grow fs2 fs3 → files_grow fs1 fs3.
Proof.
  intros [Ha Hb] [Hc Hd]. split; [by auto|].
  intros p Hp. destruct (decide (fs2 !! p = fs1 !! p)) as [He|He]; [|by auto].
  apply Hd. by rewrite He.
Qed.

Lemma files_grow_insert fs p f :
  in_download_dir p → files_grow fs (<[p := f]> fs).
Proof.
  intros Hp. split.
  - intros q Hq. destruct (decide (p = q)) as [->|Hne].
    + rewrite lookup_insert_eq. by eexists.
    + by rewrite lookup_insert_ne.
  - intros q Hq. destruct (decide (p = q)) as [->|Hne]; [done|].
    by rewrite lookup_insert_ne in Hq.
Qed.

Lemma pdf_filename_no_slash t p : Py.has_char "/" (pdf_filename t p) = false.
Proof.
  apply (forall_chars_lacks clean_char); [apply forall_filter_chars|reflexivity].
Qed.

Lemma pdf_path_in_download_dir t p :
  in_download_dir (Url.path_join download_dir (pdf_filename t p)).
Proof.
  exists (pdf_filename t p). split; [apply pdf_filename_no_slash|].
  apply path_join_clean, pdf_filename_no_slash.
Qed.

Lemma sidecar_path_in_download_dir t p :
  in_download_dir (Url.path_join download_dir (pdf_filename t p) +:+ ".json").
Proof.
  exists (pdf_filename t p +:+ ".json"). split.
  - rewrite has_char_app, pdf_filename_no_slash. reflexivity.
  - rewrite path_join_clean by apply pdf_filename_no_slash.
    by rewrite !append_assoc.
Qed.

Lemma write_pdf_files E p r s s1 fl :
  in_download_dir p → write_pdf E p r s = (s1, fl) → files_grow (files s) (files s1).
Proof.
  intros Hp. unfold write_pdf. repeat case_match; intros [= <- _]; simpl;
    first [apply files_grow_refl|by apply files_grow_insert].
Qed.

Lemma write_json_files E p m s s1 fl :
  in_download_dir p → write_json E p m s = (s1, fl) → files_grow (files s) (files s1).
Proof.
  intros Hp. unfold write_json. repeat case_match; intros [= <- _]; simpl;
    first [apply files_grow_refl|by apply files_grow_insert].
Qed.

(** Everything [save_pdf] can do: it leaves the frontier and the page
    counter alone, counts at most one PDF, of at least the minimum
    declared size, touches the file system only inside the download
    directory, and writes exactly one log line. *)
Lemma save_pdf_effect E url r s :
  same_frontier s (save_pdf E url r s)
  ∧ pages_visited (save_pdf E url r s) = pages_visited s
  ∧ counters_grow s (save_pdf E url r s)
  ∧ files_grow (files s) (files (save_pdf E url r s))
  ∧ ∃ l m, trace (save_pdf E url r s) = (trace s ++ [Logged l m])%list.
Proof.
  split; [apply save_pdf_frontier|].
  unfold save_pdf, save_pdf_try.
  destruct (declared_length r) as [len|];
    [|split_and!; [done|by left|apply files_grow_refl|by eexists _, _]].
  destruct (len <? pdf_min_size) eqn:Hlen;
    [split_and!; [done|by left|apply files_grow_refl|by eexists _, _]|].
  apply Z.ltb_ge in Hlen.
  destruct (Url.urlparse _ url "") as [parsed|];
    [|split_and!; [done|by left|apply files_grow_refl|by eexists _, _]].
  set (t := time_time E (now s)).
  destruct (write_pdf E _ r s) as [s1 f1] eqn:Hw.
  pose proof (write_pdf_files _ _ _ _ _ _ (pdf_path_in_download_dir t (Url.path parsed)) Hw)
    as Hf1.
  apply write_pdf_frame in Hw as (_ & (Hp1 & Hc1 & Hc2) & Ht1).
  destruct f1; try (split_and!; [done|by left|done|simpl; rewrite Ht1; by eexists _, _]).
  destruct (kb_overflows len).
  { simpl. split_and!; [done| |done|rewrite Ht1; by eexists _, _].
    right. simpl. split; [congruence|]. rewrite Hc2. lia. }
  destruct (write_json E _ _ (count_pdf len s1)) as [s3 f3] eqn:Hj.
  pose proof (write_json_files _ _ _ _ _ _
                (sidecar_path_in_download_dir t (Url.path parsed)) Hj) as Hf3.
  apply write_json_frame in Hj as (_ & (Hp3 & Hc3 & Hc4) & Ht3). simpl in *.
  assert (Hgrow : files_grow (files s) (files s3)) by by eapply files_grow_trans.
  assert (Hcount : counters_grow s s3).
  { right. split; [congruence|]. rewrite Hc4, Hc2. lia. }
  destruct f3; simpl; (split_and!;
    [ congruence
    | destruct Hcount as [[? ?]|[? ?]]; [left|right]; by split
    | done
    | rewrite ?Ht3, ?Ht1; simpl; rewrite ?Ht3, ?Ht1; by eexists _, _ ]).
Qed.

(** ** Proofs: what one iteration changes *)

Lemma polite_delays_app evs evs' :
  polite_delays (evs ++ evs') = (polite_delays evs + polite_delays evs')%nat.
Proof. unfold polite_delays. by rewrite List.filter_app, length_app. Qed.

Lemma slept_app evs evs' : slept (evs ++ evs') = (slept evs + slept evs')%nat.
Proof.
  induction evs as [|e evs IH]; [done|].
  destruct e; simpl; rewrite IH; lia.
Qed.

Lemma handling_no_polite url evs :
  Forall (handling_event url) evs → polite_delays evs = 0%nat.
Proof.
  induction 1 as [|e evs He _ IH]; [done|].
  change (e :: evs) with ([e] ++ evs)%list. rewrite polite_delays_app, IH.
  destruct e as [| [|[|n]] | |]; simpl in *; try done.
Qed.

Lemma within_budget_app n m evs evs' :
  within_budget n evs → within_budget m evs' → within_budget (n + m) (evs ++ evs').
Proof.
  unfold within_budget. rewrite attempts_app, slept_app. lia.
Qed.

Lemma within_budget_quiet n evs tail :
  within_budget n evs → attempts tail = 0%nat → slept tail = 0%nat →
  within_budget n (evs ++ tail).
Proof.
  unfold within_budget. rewrite attempts_app, slept_app. lia.
Qed.

Lemma get_response_loop_events E url remaining : ∀ attempt s s' fl r,
  get_response_loop E url attempt remaining s = (s', fl, r) →
  ∃ evs, trace s' = (trace s ++ evs)%list
    ∧ within_budget remaining evs
    ∧ Forall (handling_event url) evs.
Proof.
  induction remaining as [|k IH]; intros attempt s s' fl r; simpl.
  - intros [= <- _ _]. eexists [_]. split_and!; [done| |by repeat constructor].
    unfold within_budget, attempts. simpl. lia.
  - destruct (requests_get E (now s) url).
    + intros [= <- _ _]. eexists [_]. split_and!; [done| |by repeat constructor].
      unfold within_budget, attempts. simpl. lia.
    + intros H. apply IH in H as (evs & -> & Hle & Hall). simpl.
      exists ([Get url; Logged WARNING (AttemptFailed (attempt + 1) max_retries url);
               Sleep 2] ++ evs)%list.
      split_and!.
      * by rewrite <- !app_assoc.
      * apply (within_budget_app 1 k); [|done].
        unfold within_budget, attempts. simpl. lia.
      * apply Forall_app. split; [by repeat constructor|done].
    + intros [= <- _ _]. eexists [_]. split_and!; [done| |by repeat constructor].
      unfold within_budget, attempts. simpl. lia.
Qed.

(** Everything the [try] block of the loop body can do to the counters,
    the disk and the trace. *)
Lemma process_effect E url s s' fl :
  process E url s = (s', fl) →
  visited s' = visited s
  ∧ pages_visited s' = pages_visited s
  ∧ counters_grow s s'
  ∧ files_grow (files s) (files s')
  ∧ ∃ evs, trace s' = (trace s ++ evs)%list
      ∧ within_budget 3 evs
      ∧ Forall (handling_event url) evs.
Proof.
  unfold process, get_response.
  destruct (get_response_loop E url 0 max_retries s) as [[s1 f1] r] eqn:Hg.
  pose proof (get_response_loop_frame _ _ _ _ _ _ _ _ Hg)
    as ([Hv _] & (Hp & Hc1 & Hc2) & Hf).
  apply get_response_loop_events in Hg as (evs & Ht & Hle & Hall).
  unfold max_retries in Hle.
  assert (Hbase : visited s1 = visited s ∧ pages_visited s1 = pages_visited s
                  ∧ counters_grow s s1 ∧ files_grow (files s) (files s1)
                  ∧ ∃ evs, trace s1 = (trace s ++ evs)%list
                      ∧ within_budget 3 evs ∧ Forall (handling_event url) evs).
  { split_and!; [done|done|by left|rewrite Hf; apply files_grow_refl|by exists evs]. }
  assert (Hsave : ∀ r, visited (save_pdf E url r s1) = visited s
                  ∧ pages_visited (save_pdf E url r s1) = pages_visited s
                  ∧ counters_grow s (save_pdf E url r s1)
                  ∧ files_grow (files s) (files (save_pdf E url r s1))
                  ∧ ∃ evs, trace (save_pdf E url r s1) = (trace s ++ evs)%list
                      ∧ within_budget 3 evs ∧ Forall (handling_event url) evs).
  { intros r0.
    destruct (save_pdf_effect E url r0 s1) as ([Hv' _] & Hp' & Hc' & Hf' & l & m & Ht').
    split_and!.
    - congruence.
    - congruence.
    - destruct Hc' as [[? ?]|[? ?]]; [left|right]; split; congruence.
    - rewrite Hf in Hf'. exact Hf'.
    - exists (evs ++ [Logged l m])%list. rewrite Ht', Ht, <- app_assoc.
      split_and!; [done|by apply within_budget_quiet|].
      apply Forall_app. split; [done|by repeat constructor]. }
  assert (Hlinks : ∀ hrefs s2 f2, enqueue_links E url hrefs s1 = (s2, f2) →
                  visited s2 = visited s ∧ pages_visited s2 = pages_visited s
                  ∧ counters_grow s s2 ∧ files_grow (files s) (files s2)
                  ∧ ∃ evs, trace s2 = (trace s ++ evs)%list
                      ∧ within_budget 3 evs ∧ Forall (handling_event url) evs).
  { intros hrefs s2 f2 He.
    apply enqueue_links_frame in He as (Hv' & (Hp' & Hd1 & Hd2) & Hf' & Ht').
    split_and!.
    - congruence.
    - congruence.
    - left. split; congruence.
    - rewrite Hf', Hf. apply files_grow_refl.
    - exists evs. rewrite Ht', Ht. by split_and!. }
  assert (Hskip : ∀ m, visited (logging INFO m s1) = visited s
                  ∧ pages_visited (logging INFO m s1) = pages_visited s
                  ∧ counters_grow s (logging INFO m s1)
                  ∧ files_grow (files s) (files (logging INFO m s1))
                  ∧ ∃ evs, trace (logging INFO m s1) = (trace s ++ evs)%list
                      ∧ within_budget 3 evs ∧ Forall (handling_event url) evs).
  { intros m. simpl. split_and!; [done|done|by left| |].
    - rewrite Hf. apply files_grow_refl.
    - exists (evs ++ [Logged INFO m])%list. rewrite Ht, <- app_assoc.
      split_and!; [done|by apply within_budget_quiet|].
      apply Forall_app. split; [done|by repeat constructor]. }
  destruct f1, r as [r|]; try (intros [= <- _]; exact Hbase).
  - destruct (classify url r).
    + intros [= <- _]. apply Hsave.
    + destruct (stream_ok r); [apply Hlinks|intros [= <- _]; exact Hbase].
    + intros [= <- _]. apply Hskip.
  - destruct (classify url r).
    + intros [= <- _]. apply Hsave.
    + destruct (stream_ok r); [apply Hlinks|intros [= <- _]; exact Hbase].
    + intros [= <- _]. apply Hskip.
Qed.

Lemma process_queue E url s s' fl :
  process E url s = (s', fl) →
  ∃ new, queue s' = (queue s ++ new)%list
    ∧ NoDup new
    ∧ ∀ u, u ∈ new → (u ∉ queue s) ∧ (u ∉ visited s) ∧ netloc_on_domain E u.
Proof.
  unfold process, get_response.
  destruct (get_response_loop E url 0 max_retries s) as [[s1 f1] r] eqn:Hg.
  apply get_response_loop_frame in Hg as ([Hv Hq] & _ & _).
  assert (Hnone : ∀ s2, queue s2 = queue s1 →
            ∃ new, queue s2 = (queue s ++ new)%list ∧ NoDup new
              ∧ ∀ u, u ∈ new → (u ∉ queue s) ∧ (u ∉ visited s) ∧ netloc_on_domain E u).
  { intros s2 H2. exists []. rewrite app_nil_r, H2, Hq.
    split_and!; [done|constructor|]. intros u Hu. by apply elem_of_nil in Hu. }
  assert (Hlinks : ∀ hrefs s2 f2, enqueue_links E url hrefs s1 = (s2, f2) →
            ∃ new, queue s2 = (queue s ++ new)%list ∧ NoDup new
              ∧ ∀ u, u ∈ new → (u ∉ queue s) ∧ (u ∉ visited s) ∧ netloc_on_domain E u).
  { intros hrefs s2 f2 He.
    apply enqueue_links_appends in He as (new & Hq2 & Hnd & _ & Hnew).
    exists new. rewrite Hq2, Hq. split_and!; [done|done|].
    intros u Hu. rewrite <- Hq, <- Hv. by apply Hnew. }
  destruct f1, r as [r|]; try (intros [= <- _]; by apply Hnone).
  - destruct (classify url r).
    + intros [= <- _]. apply Hnone.
      by destruct (save_pdf_effect E url r s1) as ([_ ?] & _).
    + destruct (stream_ok r); [|intros [= <- _]; by apply Hnone].
      apply Hlinks.
    + intros [= <- _]. by apply Hnone.
  - destruct (classify url r).
    + intros [= <- _]. apply Hnone.
      by destruct (save_pdf_effect E url r s1) as ([_ ?] & _).
    + destruct (stream_ok r); [|intros [= <- _]; by apply Hnone].
      apply Hlinks.
    + intros [= <- _]. by apply Hnone.
Qed.

(** Everything one iteration over a fresh URL can do. *)
Lemma crawl_step_effect E s s' url q :
  queue s = url :: q → url ∉ visited s → crawl_step E s = Some s' →
  visited s' = {[url]} ∪ visited s
  ∧ pages_visited s' = pages_visited s + 1
  ∧ counters_grow s s'
  ∧ files_grow (files s) (files s')
  ∧ (∃ evs, trace s' = (trace s ++ Logged INFO (Visiting url) :: Sleep 1 :: evs)%list
       ∧ within_budget 3 evs
       ∧ Forall (handling_event url) evs)
  ∧ ∃ new, queue s' = (q ++ new)%list
      ∧ NoDup new
      ∧ ∀ u, u ∈ new → (u ∉ q) ∧ (u ∉ visited s') ∧ netloc_on_domain E u.
Proof.
  intros Hq Hfresh. unfold crawl_step. rewrite Hq. simpl.
  rewrite (bool_decide_eq_false_2 _ Hfresh).
  set (s0 := emit (Sleep 1) (visit url (logging INFO (Visiting url) (set_queue q s)))).
  destruct (process E url s0) as [s1 fl] eqn:Hp.
  destruct (process_effect _ _ _ _ _ Hp) as (Hv & Hpg & Hc & Hf & evs & Ht & Hle & Hall).
  destruct (process_queue _ _ _ _ _ Hp) as (new & Hq1 & Hnd & Hnew).
  assert (Hcount : counters_grow s s1).
  { destruct Hc as [[? ?]|[? ?]]; [left|right]; done. }
  assert (Hqueue : ∀ s2, queue s2 = queue s1 → visited s2 = visited s1 →
            ∃ new, queue s2 = (q ++ new)%list ∧ NoDup new
              ∧ ∀ u, u ∈ new → (u ∉ q) ∧ (u ∉ visited s2) ∧ netloc_on_domain E u).
  { intros s2 H2 H3. exists new. rewrite H2, H3, Hq1, Hv. split_and!; [done|done|].
    intros u Hu. destruct (Hnew _ Hu) as (? & ? & ?). by split_and!. }
  assert (Htrace : ∀ s2 tail, trace s2 = (trace s1 ++ tail)%list →
            Forall (handling_event url) tail →
            attempts tail = 0%nat → slept tail = 0%nat →
            ∃ evs, trace s2
                   = (trace s ++ Logged INFO (Visiting url) :: Sleep 1 :: evs)%list
              ∧ within_budget 3 evs ∧ Forall (handling_event url) evs).
  { intros s2 tail H2 Htail H0 H0'. exists (evs ++ tail)%list. rewrite H2, Ht. simpl.
    split_and!.
    - by rewrite <- !app_assoc.
    - by apply within_budget_quiet.
    - by apply Forall_app. }
  destruct fl; intros [= <-].
  - split_and!; [done|done|done|done| |by apply Hqueue].
    apply (Htrace _ [Progress (pages_visited s1) (pdfs_downloaded s1)
                       (total_size_bytes s1)]);
      [done|by repeat constructor|done|done].
  - split_and!; [done|done|done|done| |by apply Hqueue].
    apply (Htrace _ []); [by rewrite app_nil_r|constructor|done|done].
  - split_and!; [done|done|done|done| |by apply Hqueue].
    apply (Htrace _ [Logged ERROR (ErrorProcessing url);
                     Progress (pages_visited s1) (pdfs_downloaded s1)
                       (total_size_bytes s1)]);
      [simpl; by rewrite <- app_assoc|by repeat constructor|done|done].
Qed.

(** ** Proofs: counters, requests and files along the loop *)

(** At the head of the loop the URL that comes off the queue is new, and
    is the seed or on the domain. *)
Lemma reachable_head E fs s s' :
  reachable E fs s → crawl_step E s = Some s' →
  ∃ url q, queue s = url :: q ∧ (url ∉ visited s) ∧ allowed_url E url.
Proof.
  intros Hr Hs. destruct (queue s) as [|url q] eqn:Hq.
  - unfold crawl_step in Hs. by rewrite Hq in Hs.
  - exists url, q. destruct (reachable_frontier_ok _ _ _ Hr) as [_ Hd].
    split_and!; [done| |].
    + apply Hd. rewrite Hq. by left.
    + apply (reachable_allowed _ _ _ Hr). rewrite Hq. by left.
Qed.

Lemma scenario_seed_reachable : reachable scenario ∅ scenario_after_seed.
Proof.
  eapply reach_step; [apply reach_start|].
  eapply scenario_step_seed, scenario_plays.
Qed.

Lemma scenario_report_reachable :
  reachable scenario ∅ (scenario_after_report scenario report_pdf).
Proof.
  eapply reach_step; [apply scenario_seed_reachable|].
  eapply scenario_step_report, scenario_plays.
Qed.

Lemma scenario_final_reachable :
  reachable scenario ∅ (scenario_final scenario report_pdf).
Proof.
  eapply reach_step; [apply scenario_report_reachable|].
  eapply scenario_step_tiny, scenario_plays.
Qed.



(** X2. The page counter counts distinct URLs: at every head of the
    loop [pages_visited] is the size of the [visited] set. *)
Theorem pages_visited_counts_visited E fs s :
  reachable E fs s → pages_visited s = Z.of_nat (size (visited s)).
Proof.
  induction 1 as [|s s' Hr IH Hs].
  - change (0 = Z.of_nat (size (∅ : gset string))). by rewrite size_empty.
  - destruct (reachable_head _ _ _ _ Hr Hs) as (url & q & Hq & Hfresh & _).
    destruct (crawl_step_effect _ _ _ _ _ Hq Hfresh Hs) as (Hv & Hp & _).
    rewrite Hv, Hp, IH. rewrite size_union; [|by apply disjoint_singleton_l].
    rewrite size_singleton. lia.
Qed.

Lemma pages_visited_counts_visited_witness :
  Z.of_nat (size (visited (scenario_final scenario report_pdf))) = 3.
Proof.
  rewrite <- (pages_visited_counts_visited scenario ∅ _ scenario_final_reachable).
  reflexivity.
Defined.

(** X3. Accounting.  At every head of the loop the number of archived
    PDFs is between zero and the number of pages visited, and the byte
    total is at least [pdf_min_size] for each archived PDF. *)
Theorem download_accounting E fs s :
  reachable E fs s →
  0 ≤ pdfs_downloaded s ≤ pages_visited s
  ∧ pdf_min_size * pdfs_downloaded s ≤ total_size_bytes s.
Proof.
  induction 1 as [|s s' Hr IH Hs].
  - simpl. unfold pdf_min_size. lia.
  - destruct (reachable_head _ _ _ _ Hr Hs) as (url & q & Hq & Hfresh & _).
    destruct (crawl_step_effect _ _ _ _ _ Hq Hfresh Hs) as (_ & Hp & Hc & _).
    unfold counters_grow, pdf_min_size in *. destruct Hc as [[H1 H2]|[H1 H2]]; lia.
Qed.

Lemma download_accounting_witness :
  0 ≤ pdfs_downloaded (scenario_final scenario report_pdf)
    ≤ pages_visited (scenario_final scenario report_pdf)
  ∧ pdf_min_size * pdfs_downloaded (scenario_final scenario report_pdf)
    ≤ total_size_bytes (scenario_final scenario report_pdf).
Proof.
  exact (download_accounting scenario ∅ _ scenario_final_reachable).
Defined.

(** X4. Politeness and call budget.  At every head of the loop the
    run has slept the one-second polite delay exactly once per page
    visited, has called [requests.get] at most three times per page
    visited, and has slept at most seven seconds per page visited: the
    polite delay and a two-second back-off after each call that failed.
    The requests that the library sends inside one call while it
    follows redirects are not counted. *)
Theorem request_budget E fs s :
  reachable E fs s →
  Z.of_nat (polite_delays (trace s)) = pages_visited s
  ∧ Z.of_nat (attempts (trace s)) ≤ 3 * pages_visited s
  ∧ Z.of_nat (slept (trace s)) ≤ 7 * pages_visited s.
Proof.
  induction 1 as [|s s' Hr IH Hs].
  - split_and!; [reflexivity|unfold attempts; simpl; lia|simpl; lia].
  - destruct (reachable_head _ _ _ _ Hr Hs) as (url & q & Hq & Hfresh & _).
    destruct (crawl_step_effect _ _ _ _ _ Hq Hfresh Hs)
      as (_ & Hp & _ & _ & (evs & Ht & [Hle Hsl] & Hall) & _).
    rewrite Ht, Hp, polite_delays_app, attempts_app, slept_app.
    change (Logged INFO (Visiting url) :: Sleep 1 :: evs)
      with ([Logged INFO (Visiting url); Sleep 1] ++ evs)%list.
    rewrite polite_delays_app, attempts_app, slept_app, (handling_no_polite _ _ Hall).
    change (polite_delays [Logged INFO (Visiting url); Sleep 1]) with 1%nat.
    change (attempts [Logged INFO (Visiting url); Sleep 1]) with 0%nat.
    change (slept [Logged INFO (Visiting url); Sleep 1]) with 1%nat.
    lia.
Qed.

Lemma request_budget_witness :
  Z.of_nat (polite_delays (trace (scenario_final scenario report_pdf))) = 3
  ∧ Z.of_nat (attempts (trace (scenario_final scenario report_pdf))) ≤ 3 * 3
  ∧ Z.of_nat (slept (trace (scenario_final scenario report_pdf))) ≤ 7 * 3.
Proof.
  exact (request_budget scenario ∅ _ scenario_final_reachable).
Defined.

(** X5. The crawler asks only for URLs of the domain.  At every head
    of the loop, every call of [requests.get] was made with a URL in
    [visited], and every URL in [visited] is the seed or has a [netloc]
    ending with the domain name.  Where the server redirects such a
    call to is the library's business and is not recorded. *)
Theorem requests_stay_on_domain E fs s :
  reachable E fs s →
  (∀ u, u ∈ visited s → allowed_url E u)
  ∧ (∀ u, Get u ∈ trace s → u ∈ visited s).
Proof.
  induction 1 as [|s s' Hr [IHv IHg] Hs].
  - split.
    + intros u Hu. simpl in Hu. set_solver.
    + intros u Hu. simpl in Hu. apply list_elem_of_singleton in Hu. discriminate.
  - destruct (reachable_head _ _ _ _ Hr Hs) as (url & q & Hq & Hfresh & Hok).
    destruct (crawl_step_effect _ _ _ _ _ Hq Hfresh Hs)
      as (Hv & _ & _ & _ & (evs & Ht & _ & Hall) & _).
    rewrite Hv, Ht. split.
    + intros u [->%elem_of_singleton|Hu]%elem_of_union; [done|by apply IHv].
    + intros u [Hu|Hu]%elem_of_app.
      * apply elem_of_union. right. by apply IHg.
      * apply elem_of_cons in Hu as [Hu|Hu]; [discriminate|].
        apply elem_of_cons in Hu as [Hu|Hu]; [discriminate|].
        apply elem_of_union. left. apply elem_of_singleton.
        exact (proj1 (Forall_forall _ _) Hall _ Hu).
Qed.

Lemma requests_stay_on_domain_witness :
  (∀ u, u ∈ visited (scenario_final scenario report_pdf) → allowed_url scenario u)
  ∧ (∀ u, Get u ∈ trace (scenario_final scenario report_pdf) →
          u ∈ visited (scenario_final scenario report_pdf)).
Proof.
  exact (requests_stay_on_domain scenario ∅ _ scenario_final_reachable).
Defined.

(** X6. The files that the crawler opens are inside its download
    directory.  [files] holds what [save_pdf] opens for writing, the
    PDFs and their sidecars; the log file [crawler.log], which the
    logging handler appends to in the current directory, is not part of
    it.  At every head of the loop, every file of [files] that was
    there at the start is still there, and every path of [files] whose
    content differs from the start is [download_dir] followed by a slash
    and a name without a slash. *)
Theorem download_dir_confinement E fs s :
  reachable E fs s → files_grow fs (files s).
Proof.
  induction 1 as [|s s' Hr IH Hs].
  - apply files_grow_refl.
  - destruct (reachable_head _ _ _ _ Hr Hs) as (url & q & Hq & Hfresh & _).
    destruct (crawl_step_effect _ _ _ _ _ Hq Hfresh Hs) as (_ & _ & _ & Hf & _).
    by eapply files_grow_trans.
Qed.

Lemma download_dir_confinement_witness :
  files_grow ∅ (files (scenario_final scenario report_pdf)).
Proof.
  exact (download_dir_confinement scenario ∅ _ scenario_final_reachable).
Defined.

(** ** Proofs: the links of a page *)

(** A link on the domain that goes through the guarded append is in the
    queue afterwards, unless it is already visited. *)
Lemma enqueue_member E u s s' :
  enqueue E u s = Some s' → netloc_on_domain E u → u ∈ visited s ∨ u ∈ queue s'.
Proof.
  intros He Hd. destruct (decide (u ∈ visited s)) as [Hv|Hv]; [by left|right].
  assert (Hok : is_valid_url E s u = Some true) by by apply is_valid_url_true.
  unfold enqueue in He. rewrite Hok in He.
  rewrite (bool_decide_eq_false_2 _ Hv) in He. simpl in He.
  destruct (decide (u ∈ queue s)) as [Hq|Hq].
  - rewrite (bool_decide_eq_true_2 _ Hq) in He. simpl in He. by injection He as <-.
  - rewrite (bool_decide_eq_false_2 _ Hq) in He. simpl in He. injection He as <-.
    simpl. apply elem_of_app. right. by apply list_elem_of_singleton.
Qed.

(** X7. The links of a page enter the queue in the order of its anchors.
    Whatever the loop over the anchors does, and also when it raises,
    the queue afterwards is the queue before followed by new entries,
    and the new entries are a subsequence of the page's links, resolved
    and stripped of their fragment, in the order of the anchors. *)
Theorem links_enter_in_anchor_order E page hrefs s s' fl :
  enqueue_links E page hrefs s = (s', fl) →
  ∃ new, queue s' = (queue s ++ new)%list
    ∧ sublist new (omap (normalize_link E page) hrefs).
Proof.
  intros H. apply enqueue_links_appends in H as (new & Hq & _ & Hsub & _).
  by exists new.
Qed.

Lemma links_enter_in_anchor_order_witness :
  ∃ new,
    queue (set_queue [report_url; tiny_url] scenario_start)
    = (queue (set_queue [] scenario_start) ++ new)%list
    ∧ sublist new
        (omap (normalize_link scenario seed_url)
           ["/report.pdf"; "/tiny.pdf"; offsite_url]).
Proof.
  apply (links_enter_in_anchor_order scenario seed_url
           ["/report.pdf"; "/tiny.pdf"; offsite_url]
           (set_queue [] scenario_start) _ Normal).
  vm_compute. reflexivity.
Defined.

(** X8. No link on the domain is lost.  When the loop over the anchors
    of a page ends without an exception, every link of the page whose
    resolved URL has a [netloc] ending with the domain name is in the
    queue afterwards, unless it was visited before. *)
Theorem no_valid_link_lost E page hrefs : ∀ s s',
  enqueue_links E page hrefs s = (s', Normal) →
  ∀ h u, h ∈ hrefs → normalize_link E page h = Some u → netloc_on_domain E u →
    u ∈ visited s ∨ u ∈ queue s'.
Proof.
  induction hrefs as [|h0 rest IH]; intros s s' Hrun h u Hin Hn Hd.
  - by apply elem_of_nil in Hin.
  - simpl in Hrun.
    destruct (normalize_link E page h0) as [full|] eqn:Hn0; [|by injection Hrun].
    destruct (enqueue E full s) as [s1|] eqn:He; [|by injection Hrun].
    destruct (enqueue_frame _ _ _ _ He) as (Hv & _).
    apply elem_of_cons in Hin as [->|Hin].
    + rewrite Hn in Hn0. injection Hn0 as <-.
      destruct (enqueue_member _ _ _ _ He Hd) as [Hvis|Hq]; [by left|right].
      apply enqueue_links_appends in Hrun as (new & -> & _).
      apply elem_of_app. by left.
    + rewrite <- Hv. by apply (IH s1 s' Hrun h u).
Qed.

Lemma no_valid_link_lost_witness :
  report_url ∈ visited (set_queue [] scenario_start)
  ∨ report_url ∈ queue (set_queue [report_url; tiny_url] scenario_start).
Proof.
  apply (no_valid_link_lost scenario seed_url ["/report.pdf"; "/tiny.pdf"; offsite_url]
           (set_queue [] scenario_start) (set_queue [report_url; tiny_url] scenario_start)
           ltac:(vm_compute; reflexivity) "/report.pdf" report_url).
  - apply elem_of_cons. by left.
  - vm_compute. reflexivity.
  - exists (Url.mkParse "https" "mohfw.gov.in" "/report.pdf" "" "" "").
    split; vm_compute; reflexivity.
Defined.

(** X9. One malformed link costs the page the rest of its links.  When
    a link cannot be resolved ([urljoin] or [urlparse] raises a
    [ValueError]), the loop over the anchors stops with that exception:
    the state is the one that the links before it have produced, and the
    links after it are never looked at. *)
Theorem malformed_link_aborts_page E page pre h post : ∀ s,
  normalize_link E page h = None →
  enqueue_links E page (pre ++ h :: post) s
  = (fst (enqueue_links E page pre s), Raised).
Proof.
  induction pre as [|h0 pre IH]; intros s Hbad; simpl.
  - by rewrite Hbad.
  - destruct (normalize_link E page h0) as [full|]; [|done].
    destruct (enqueue E full s) as [s1|]; [|done].
    by apply IH.
Qed.

Lemma malformed_link_aborts_page_witness :
  enqueue_links scenario seed_url (["/a.pdf"] ++ "http://[::1" :: ["/b.pdf"])
    (set_queue [] scenario_start)
  = (set_queue ["https://mohfw.gov.in/a.pdf"] scenario_start, Raised)
  ∧ normalize_link scenario seed_url "/b.pdf" = Some "https://mohfw.gov.in/b.pdf".
Proof.
  split; [|vm_compute; reflexivity].
  rewrite (malformed_link_aborts_page scenario seed_url ["/a.pdf"] "http://[::1"
             ["/b.pdf"] (set_queue [] scenario_start) ltac:(vm_compute; reflexivity)).
  vm_compute. reflexivity.
Defined.

(** ** Proofs: requests that fail *)

Lemma get_response_all_fail E url s :
  (∀ t, requests_get E t url = RequestException) →
  get_response E url s
  = (logging ERROR (FailedToFetch url 3)
       (emit (Sleep 2) (logging WARNING (AttemptFailed 3 3 url) (emit (Get url)
       (emit (Sleep 2) (logging WARNING (AttemptFailed 2 3 url) (emit (Get url)
       (emit (Sleep 2) (logging WARNING (AttemptFailed 1 3 url) (emit (Get url)
          s))))))))),
     Normal, None).
Proof.
  intros Hfail. unfold get_response, max_retries.
  rewrite (get_response_loop_fail E url 0 2 _ (Hfail _)).
  rewrite (get_response_loop_fail E url 1 1 _ (Hfail _)).
  rewrite (get_response_loop_fail E url 2 0 _ (Hfail _)).
  reflexivity.
Qed.

(** X10. A URL that cannot be fetched is given up for good.  When every
    request for the URL at the head of the queue fails with a
    [RequestException], the iteration sends three requests, sleeps seven
    seconds in all, and leaves the disk and the PDF counters alone; the
    URL is counted as a page visited and stays in [visited], so it is
    never requested again; nothing is queued, and the iteration prints
    no progress line. *)
Theorem unreachable_url_dropped E s url q :
  queue s = url :: q → url ∉ visited s →
  (∀ t, requests_get E t url = RequestException) →
  ∃ s', crawl_step E s = Some s'
    ∧ queue s' = q
    ∧ visited s' = {[url]} ∪ visited s
    ∧ pages_visited s' = pages_visited s + 1
    ∧ pdfs_downloaded s' = pdfs_downloaded s
    ∧ total_size_bytes s' = total_size_bytes s
    ∧ files s' = files s
    ∧ trace s' =
        (trace s ++
         [Logged INFO (Visiting url); Sleep 1;
          Get url; Logged WARNING (AttemptFailed 1 3 url); Sleep 2;
          Get url; Logged WARNING (AttemptFailed 2 3 url); Sleep 2;
          Get url; Logged WARNING (AttemptFailed 3 3 url); Sleep 2;
          Logged ERROR (FailedToFetch url 3)])%list.
Proof.
  intros Hq Hfresh Hfail. unfold crawl_step. rewrite Hq. simpl.
  rewrite (bool_decide_eq_false_2 _ Hfresh).
  unfold process. rewrite (get_response_all_fail _ _ _ Hfail).
  eexists. split; [reflexivity|]. simpl.
  split_and!; [done|done|done|done|done|done|].
  by rewrite <- !app_assoc.
Qed.

Lemma unreachable_url_dropped_witness :
  ∃ s', crawl_step offline scenario_start = Some s'
    ∧ queue s' = []
    ∧ visited s' = {[seed_url]} ∪ visited scenario_start
    ∧ pages_visited s' = pages_visited scenario_start + 1
    ∧ pdfs_downloaded s' = pdfs_downloaded scenario_start
    ∧ total_size_bytes s' = total_size_bytes scenario_start
    ∧ files s' = files scenario_start
    ∧ trace s' =
        (trace scenario_start ++
         [Logged INFO (Visiting seed_url); Sleep 1;
          Get seed_url; Logged WARNING (AttemptFailed 1 3 seed_url); Sleep 2;
          Get seed_url; Logged WARNING (AttemptFailed 2 3 seed_url); Sleep 2;
          Get seed_url; Logged WARNING (AttemptFailed 3 3 seed_url); Sleep 2;
          Logged ERROR (FailedToFetch seed_url 3)])%list.
Proof.
  apply (unreachable_url_dropped offline scenario_start seed_url []).
  - reflexivity.
  - apply not_elem_of_empty.
  - reflexivity.
Defined.

Lemma get_response_loop_succeeds E url r : ∀ k attempt remaining s,
  (k < remaining)%nat →
  (∀ i, (i < k)%nat → requests_get E (now s + 3 * i)%nat url = RequestException) →
  requests_get E (now s + 3 * k)%nat url = Responds r →
  ∃ s' evs, get_response_loop E url attempt remaining s = (s', Normal, Some r)
    ∧ trace s' = (trace s ++ evs)%list
    ∧ attempts evs = S k
    ∧ slept evs = (2 * k)%nat.
Proof.
  induction k as [|k IH]; intros attempt remaining s Hlt Hfail Hok;
    (destruct remaining as [|n]; [lia|]).
  - rewrite Nat.mul_0_r, Nat.add_0_r in Hok. simpl. rewrite Hok.
    by exists (emit (Get url) s), [Get url].
  - pose proof (Hfail 0%nat ltac:(lia)) as H0.
    rewrite Nat.mul_0_r, Nat.add_0_r in H0.
    rewrite (get_response_loop_fail _ _ _ _ _ H0).
    set (m := AttemptFailed (attempt + 1) max_retries url).
    destruct (IH (S attempt) n (emit (Sleep 2) (logging WARNING m (emit (Get url) s))))
      as (s' & evs & Hrun & Ht & Ha & Hs).
    + lia.
    + intros i Hi. rewrite after_failure_now.
      replace (now s + 3 * 1 + 3 * i)%nat with (now s + 3 * S i)%nat by lia.
      apply Hfail. lia.
    + rewrite after_failure_now.
      by replace (now s + 3 * 1 + 3 * k)%nat with (now s + 3 * S k)%nat by lia.
    + exists s', ([Get url; Logged WARNING m; Sleep 2] ++ evs)%list.
      split_and!; [done| | |].
      * rewrite Ht. simpl. by rewrite <- !app_assoc.
      * rewrite attempts_app, Ha. reflexivity.
      * rewrite slept_app, Hs. simpl. lia.
Qed.

(** X11. [get_response] returns the first response.  When the first
    [k] requests for a URL fail with a [RequestException], [k] below
    three, and the next one is answered, [get_response] returns that
    answer after [k + 1] requests and [2 * k] seconds of back-off.
    The clock of the model ticks three times for each failed attempt:
    the request, the warning, the back-off. *)
Theorem get_response_returns_first_answer E url s k r :
  (k < 3)%nat →
  (∀ i, (i < k)%nat → requests_get E (now s + 3 * i)%nat url = RequestException) →
  requests_get E (now s + 3 * k)%nat url = Responds r →
  ∃ s' evs, get_response E url s = (s', Normal, Some r)
    ∧ trace s' = (trace s ++ evs)%list
    ∧ attempts evs = S k
    ∧ slept evs = (2 * k)%nat
    ∧ same_frontier s s' ∧ same_counters s s' ∧ files s' = files s.
Proof.
  intros Hk Hfail Hok.
  destruct (get_response_loop_succeeds E url r k 0 max_retries s Hk Hfail Hok)
    as (s' & evs & Hrun & Ht & Ha & Hs).
  exists s', evs. unfold get_response. rewrite Hrun.
  destruct (get_response_loop_frame _ _ _ _ _ _ _ _ Hrun) as (Hf & Hc & Hfs).
  by split_and!.
Qed.

Lemma get_response_returns_first_answer_witness :
  ∃ s' evs, get_response flaky seed_url (init ∅) = (s', Normal, Some seed_page)
    ∧ trace s' = (trace (init ∅) ++ evs)%list
    ∧ attempts evs = 2%nat
    ∧ slept evs = (2 * 1)%nat
    ∧ same_frontier (init ∅) s' ∧ same_counters (init ∅) s'
    ∧ files s' = files (init ∅).
Proof.
  apply (get_response_returns_first_answer flaky seed_url (init ∅) 1 seed_page).
  - lia.
  - intros i Hi. assert (i = 0%nat) as -> by lia. reflexivity.
  - reflexivity.
Defined.



(** ** Proofs: the files of an archive *)

Lemma lower_length s : String.length (Py.lower s) = String.length s.
Proof. induction s as [|c s IH]; [done|]. simpl. by rewrite IH. Qed.

Lemma not_pdf_json x : Py.endswith ".pdf" (Py.lower (x +:+ ".json")) = false.
Proof.
  induction x as [|c x IH]; [reflexivity|].
  rewrite append_cons. cbn [Py.lower Py.endswith]. rewrite IH, orb_false_r.
  apply String.eqb_neq. intros Heq. apply (f_equal String.length) in Heq.
  simpl in Heq. rewrite lower_length, length_append in Heq. simpl in Heq. lia.
Qed.

Lemma endswith_app_r suf a b :
  Py.endswith suf b = true → Py.endswith suf (a +:+ b) = true.
Proof.
  intros H. induction a as [|c a IH]; [done|].
  rewrite append_cons. by apply endswith_cons.
Qed.

Lemma pdf_filename_suffix t p : Py.endswith ".pdf" (Py.lower (pdf_filename t p)) = true.
Proof.
  unfold pdf_filename. apply endswith_pdf_filter.
  set (name := if Py.is_empty (Url.basename p) || _ then _ else _).
  destruct (Py.endswith ".pdf" (Py.lower name)) eqn:He; cbn [negb]; [done|].
  rewrite lower_app. apply endswith_app.
Qed.

Lemma pdf_path_suffix name :
  Py.has_char "/" name = false → Py.endswith ".pdf" (Py.lower name) = true →
  Py.endswith ".pdf" (Py.lower (Url.path_join download_dir name)) = true.
Proof.
  intros Hs He. rewrite (path_join_clean _ Hs), lower_app. by apply endswith_app_r.
Qed.

Lemma pdf_path_not_sidecar name x :
  Py.has_char "/" name = false → Py.endswith ".pdf" (Py.lower name) = true →
  Url.path_join download_dir name ≠ x +:+ ".json".
Proof.
  intros Hs He Heq. pose proof (pdf_path_suffix _ Hs He) as H.
  by rewrite Heq, not_pdf_json in H.
Qed.

Lemma sidecars_ok_insert_pdf fs q b :
  sidecars_ok fs → sidecars_ok (<[q := PdfFile b]> fs).
Proof.
  intros Hok p m Hp. destruct (decide (q = p)) as [->|Hne].
  - by rewrite lookup_insert_eq in Hp.
  - rewrite lookup_insert_ne in Hp by done.
    destruct (Hok _ _ Hp) as (H1 & H2 & H3 & (b0 & H4) & H5 & H6 & H7).
    split_and!; [done|done|done| |done|done|done].
    destruct (decide (q = Url.path_join download_dir (file_name m))) as [->|Hq].
    + exists b. by rewrite lookup_insert_eq.
    + exists b0. by rewrite lookup_insert_ne.
Qed.

Lemma sidecars_ok_insert_beside fs x f :
  sidecars_ok fs →
  (∀ m, f = JsonFile m → sidecar_ok (<[x +:+ ".json" := f]> fs) (x +:+ ".json") m) →
  sidecars_ok (<[x +:+ ".json" := f]> fs).
Proof.
  intros Hok Hnew p m Hp. destruct (decide (x +:+ ".json" = p)) as [<-|Hne].
  - rewrite lookup_insert_eq in Hp. injection Hp as ->. by apply Hnew.
  - rewrite lookup_insert_ne in Hp by done.
    destruct (Hok _ _ Hp) as (H1 & H2 & H3 & (b0 & H4) & H5 & H6 & H7).
    split_and!; [done|done|done| |done|done|done].
    exists b0. rewrite lookup_insert_ne; [done|].
    intros Heq. by apply (pdf_path_not_sidecar (file_name m) x).
Qed.

Lemma size_kb_min len : pdf_min_size ≤ len → 5000 ≤ size_kb len.
Proof.
  unfold pdf_min_size. intros H.
  destruct (Z_lt_le_dec len (2 ^ 53)) as [Hs|Hbig].
  - rewrite size_kb_small by lia. unfold round_half_even.
    assert (5000 ≤ 100 * len / 1024) by (apply Z.div_le_lower_bound; lia).
    case_match; lia.
  - pose proof (size_kb_near len ltac:(lia)) as Hn.
    pose proof (Z.mul_div_le len (2 ^ 52) eq_refl) as Hd.
    change (2 ^ 53) with 9007199254740992 in Hbig.
    change (2 ^ 52) with 4503599627370496 in Hn, Hd. lia.
Qed.

(** An archive keeps the sidecars on the disk sound. *)
Lemma save_pdf_sidecars E url r s :
  sidecars_ok (files s) → sidecars_ok (files (save_pdf E url r s)).
Proof.
  intros Hok. unfold save_pdf, save_pdf_try.
  destruct (declared_length r) as [len|]; [|done].
  destruct (len <? pdf_min_size) eqn:Hlen; [done|].
  apply Z.ltb_ge in Hlen.
  destruct (Url.urlparse _ url "") as [parsed|]; [|done].
  set (name := pdf_filename (time_time E (now s)) (Url.path parsed)).
  set (file_path := Url.path_join download_dir name).
  assert (Hpdf : ∀ b, sidecars_ok (<[file_path := PdfFile b]> (files s)))
    by (intros b; by apply sidecars_ok_insert_pdf).
  assert (Hjson : ∀ b m t,
            m = mkMetadata "MoHFW" "Tier1" url name t (size_kb len) →
            ∀ f, f = JsonFile m ∨ f = PartialJson →
            sidecars_ok (<[file_path +:+ ".json" := f]>
                           (<[file_path := PdfFile b]> (files s)))).
  { intros b m t Hm f Hf. apply sidecars_ok_insert_beside; [apply Hpdf|].
    intros m0 Hf0. destruct Hf as [Hf|Hf]; rewrite Hf in Hf0; [|discriminate].
    injection Hf0 as <-. subst m. simpl.
    split_and!; [apply pdf_filename_no_slash|apply pdf_filename_suffix|done| |done|done|
                 by apply size_kb_min].
    exists b. rewrite lookup_insert_ne by apply sidecar_path_fresh.
    by rewrite lookup_insert_eq. }
  unfold write_pdf.
  destruct (write_fault E (now s) file_path) as [| |n]; [| done |].
  - destruct (stream_ok r); simpl; [|apply Hpdf].
    destruct (kb_overflows len); simpl; [apply Hpdf|]. unfold write_json.
    destruct (write_fault E _ (file_path +:+ ".json")); simpl.
    + eapply Hjson; [reflexivity|by left].
    + apply Hpdf.
    + apply (Hjson _ _ "" eq_refl). by right.
  - destruct (n <? length (chunks r))%nat; simpl; [apply Hpdf|].
    destruct (stream_ok r); simpl; [|apply Hpdf].
    destruct (kb_overflows len); simpl; [apply Hpdf|]. unfold write_json.
    destruct (write_fault E _ (file_path +:+ ".json")); simpl.
    + eapply Hjson; [reflexivity|by left].
    + apply Hpdf.
    + apply (Hjson _ _ "" eq_refl). by right.
Qed.

(** The disk changes only in [save_pdf]. *)
Lemma process_files E url s s' fl :
  process E url s = (s', fl) →
  files s' = files s
  ∨ ∃ r s1, files s1 = files s ∧ files s' = files (save_pdf E url r s1).
Proof.
  unfold process, get_response.
  destruct (get_response_loop E url 0 max_retries s) as [[s1 f1] r] eqn:Hg.
  apply get_response_loop_frame in Hg as (_ & _ & Hf).
  assert (Hlinks : ∀ hrefs s2 f2, enqueue_links E url hrefs s1 = (s2, f2) →
            files s2 = files s
            ∨ ∃ r s1, files s1 = files s ∧ files s2 = files (save_pdf E url r s1)).
  { intros hrefs s2 f2 He. left.
    apply enqueue_links_frame in He as (_ & _ & Hf' & _). congruence. }
  destruct f1, r as [r|]; try (intros [= <- _]; by left).
  - destruct (classify url r).
    + intros [= <- _]. right. by exists r, s1.
    + destruct (stream_ok r); [apply Hlinks|intros [= <- _]; by left].
    + intros [= <- _]. by left.
  - destruct (classify url r).
    + intros [= <- _]. right. by exists r, s1.
    + destruct (stream_ok r); [apply Hlinks|intros [= <- _]; by left].
    + intros [= <- _]. by left.
Qed.

Lemma crawl_step_files E s s' :
  crawl_step E s = Some s' →
  files s' = files s
  ∨ ∃ url r s1, files s1 = files s ∧ files s' = files (save_pdf E url r s1).
Proof.
  unfold crawl_step. destruct (queue s) as [|url q]; [done|]. simpl.
  case_bool_decide; [intros [= <-]; by left|].
  destruct (process E url _) as [s1 fl] eqn:Hp.
  apply process_files in Hp. simpl in Hp.
  destruct fl; intros [= <-]; simpl;
    (destruct Hp as [Hp|(r & s2 & H1 & H2)]; [by left|right; by exists url, r, s2]).
Qed.

Section FilesInvariant.

Variable E : Env.
Variable Good : gmap string File → Prop.
Hypothesis Good_save_pdf :
  ∀ url r s, Good (files s) → Good (files (save_pdf E url r s)).

Lemma reachable_files_inv fs s : Good fs → reachable E fs s → Good (files s).
Proof.
  intros H0. induction 1 as [|s s' Hr IH Hs]; [done|].
  destruct (crawl_step_files _ _ _ Hs) as [->|(url & r & s1 & H1 & ->)]; [done|].
  apply Good_save_pdf. by rewrite H1.
Qed.

End FilesInvariant.

(** X13. Every sidecar describes a PDF that is there.  When the
    sidecars on the disk at the start are sound, they are at every head
    of the loop: each metadata file is named after a PDF that is on the
    disk beside it, its [file_name] has no slash and ends in [.pdf] up
    to letter case, its authority is [MoHFW], its tier is [Tier1], and
    its size is at least 50 KB.  The PDF is written before its sidecar,
    and no later write takes a PDF away. *)
Theorem sidecars_describe_pdfs E fs s :
  sidecars_ok fs → reachable E fs s → sidecars_ok (files s).
Proof.
  intros H0 Hr. apply (reachable_files_inv E sidecars_ok) with fs; [|done|done].
  intros url r s0. apply save_pdf_sidecars.
Qed.

Lemma sidecars_describe_pdfs_witness :
  sidecars_ok (files (scenario_final scenario report_pdf)).
Proof.
  apply (sidecars_describe_pdfs scenario ∅).
  - intros p m Hp. by rewrite lookup_empty in Hp.
  - apply scenario_final_reachable.
Defined.

(** X14. Two URLs with the same file name share one file.  The name
    of an archived PDF comes from the last segment of the URL path
    alone.  When two URLs give the same name and both archives succeed
    (no write fails, and both declared lengths are below
    [2^1034 - 2^980], so that their size in KB is a double), the second
    PDF and its sidecar replace the first: the disk gains one PDF and
    one sidecar, those of the second URL, while both downloads are
    counted. *)
Theorem same_name_overwrites E url1 url2 r1 r2 len1 len2 p1 p2 name s :
  (∀ t p, write_fault E t p = WriteOk) →
  declared_length r1 = Some len1 → pdf_min_size ≤ len1 →
  len1 < 2 ^ 1034 - 2 ^ 980 → stream_ok r1 = true →
  declared_length r2 = Some len2 → pdf_min_size ≤ len2 →
  len2 < 2 ^ 1034 - 2 ^ 980 → stream_ok r2 = true →
  Url.urlparse (check_bracketed_netloc E) url1 "" = Some p1 →
  Url.urlparse (check_bracketed_netloc E) url2 "" = Some p2 →
  (∀ t, pdf_filename t (Url.path p1) = name) →
  (∀ t, pdf_filename t (Url.path p2) = name) →
  let s2 := save_pdf E url2 r2 (save_pdf E url1 r1 s) in
  let file_path := Url.path_join download_dir name in
  files s2 !! file_path = Some (PdfFile (String.concat "" (chunks r2)))
  ∧ (∃ m, files s2 !! (file_path +:+ ".json") = Some (JsonFile m)
          ∧ download_url m = url2)
  ∧ dom (files s2) = {[file_path; file_path +:+ ".json"]} ∪ dom (files s)
  ∧ pdfs_downloaded s2 = pdfs_downloaded s + 2
  ∧ total_size_bytes s2 = total_size_bytes s + len1 + len2.
Proof.
  intros Hw Hl1 Hg1 Hb1 Hs1 Hl2 Hg2 Hb2 Hs2 Hp1 Hp2 Hn1 Hn2 s2 file_path. subst s2.
  assert (Hfit : ∀ len, pdf_min_size ≤ len → len < 2 ^ 1034 - 2 ^ 980 →
            kb_overflows len = false).
  { intros len Hg Hb. destruct (kb_overflows len) eqn:Hk; [|done].
    apply kb_overflows_spec in Hk. unfold pdf_min_size in Hg.
    rewrite Z.abs_eq in Hk by lia. lia. }
  rewrite (save_pdf_archived E url1 r1 s len1 p1 Hl1 Hg1 (Hfit _ Hg1 Hb1) Hp1
             (Hw _ _) Hs1 (Hw _ _)).
  rewrite (save_pdf_archived E url2 r2 _ len2 p2 Hl2 Hg2 (Hfit _ Hg2 Hb2) Hp2
             (Hw _ _) Hs2 (Hw _ _)).
  rewrite Hn1, Hn2. unfold archived. simpl. fold file_path.
  assert (Hne : file_path +:+ ".json" ≠ file_path) by apply sidecar_path_fresh.
  split_and!.
  - rewrite lookup_insert_ne by done. by rewrite lookup_insert_eq.
  - eexists. rewrite lookup_insert_eq. by split.
  - rewrite !dom_insert_L. apply set_eq. intros x.
    rewrite !elem_of_union, !elem_of_singleton. tauto.
  - lia.
  - lia.
Qed.

Lemma same_name_overwrites_witness :
  let s2 := save_pdf scenario "https://mohfw.gov.in/b/report.pdf" medium_pdf
              (save_pdf scenario "https://mohfw.gov.in/a/report.pdf" report_pdf (init ∅)) in
  let file_path := Url.path_join download_dir "report.pdf" in
  files s2 !! file_path = Some (PdfFile (String.concat "" (chunks medium_pdf)))
  ∧ (∃ m, files s2 !! (file_path +:+ ".json") = Some (JsonFile m)
          ∧ download_url m = "https://mohfw.gov.in/b/report.pdf")
  ∧ dom (files s2) = {[file_path; file_path +:+ ".json"]} ∪ dom (files (init ∅))
  ∧ pdfs_downloaded s2 = pdfs_downloaded (init ∅) + 2
  ∧ total_size_bytes s2 = total_size_bytes (init ∅) + 100000 + 60000.
Proof.
  apply (same_name_overwrites scenario "https://mohfw.gov.in/a/report.pdf"
           "https://mohfw.gov.in/b/report.pdf" report_pdf medium_pdf 100000 60000
           (Url.mkParse "https" "mohfw.gov.in" "/a/report.pdf" "" "" "")
           (Url.mkParse "https" "mohfw.gov.in" "/b/report.pdf" "" "" "")
           "report.pdf" (init ∅));
    try reflexivity; try (unfold pdf_min_size; lia).
Defined.

(** ** Proofs: names that are kept *)

Lemma endswith_char_has c s :
  Py.endswith (String c "") s = true → Py.has_char c s = true.
Proof.
  induction s as [|a s IH]; [done|]. cbn [Py.endswith Py.has_char].
  intros [Heq|Hs]%orb_true_iff.
  - apply String.eqb_eq in Heq. injection Heq as -> _. by rewrite eqc_refl.
  - rewrite (IH Hs). apply orb_true_r.
Qed.

(** X15. A clean name is kept.  When the last segment of the URL path
    is not empty, consists of alphanumeric characters, spaces, dots,
    underscores and hyphens, and ends in [.pdf] up to letter case, the
    PDF is stored under exactly that name, whatever the clock says. *)
Theorem clean_pdf_name_kept t p :
  Url.basename p ≠ "" →
  Py.forall_chars clean_char (Url.basename p) = true →
  Py.endswith ".pdf" (Py.lower (Url.basename p)) = true →
  pdf_filename t p = Url.basename p.
Proof.
  intros Hne Hclean Hpdf. unfold pdf_filename.
  assert (He : Py.is_empty (Url.basename p) = false) by by destruct (Url.basename p).
  assert (Hs : Py.endswith "/" (Url.basename p) = false).
  { destruct (Py.endswith "/" (Url.basename p)) eqn:H; [|done].
    apply endswith_char_has in H.
    by rewrite (forall_chars_lacks clean_char "/" _ Hclean eq_refl) in H. }
  rewrite He, Hs. cbn [orb]. rewrite Hpdf. cbn [negb].
  by apply filter_chars_all.
Qed.

Lemma clean_pdf_name_kept_witness :
  pdf_filename 1700000000 "/sites/default/files/Annual_Report-2023.PDF"
  = Url.basename "/sites/default/files/Annual_Report-2023.PDF".
Proof.
  apply (clean_pdf_name_kept 1700000000 "/sites/default/files/Annual_Report-2023.PDF");
    [discriminate|reflexivity|reflexivity].
Defined.

(** ** Proofs: the whole crawl *)

Lemma crawl_step_none E s : crawl_step E s = None → queue s = [].
Proof.
  unfold crawl_step. destruct (queue s) as [|url q]; [done|]. simpl.
  case_bool_decide; [done|]. destruct (process E url _) as [s1 []]; done.
Qed.

Lemma crawl_loop_reachable E fs : ∀ fuel s s',
  reachable E fs s → crawl_loop E fuel s = Some s' →
  reachable E fs s' ∧ queue s' = [].
Proof.
  induction fuel as [|k IH]; intros s s' Hr; simpl;
    destruct (crawl_step E s) as [s1|] eqn:Hs; try done.
  - intros [= <-]. split; [done|by eapply crawl_step_none].
  - apply IH. by eapply reach_step.
  - intros [= <-]. split; [done|by eapply crawl_step_none].
Qed.

Lemma crawl_loop_more_fuel E : ∀ fuel fuel' s s',
  crawl_loop E fuel s = Some s' → (fuel ≤ fuel')%nat → crawl_loop E fuel' s = Some s'.
Proof.
  induction fuel as [|k IH]; intros fuel' s s'; simpl;
    destruct (crawl_step E s) as [s1|] eqn:Hs; try done.
  - intros [= <-] _. by apply crawl_loop_done.
  - intros Hrun Hle. destruct fuel' as [|k']; [lia|].
    rewrite (crawl_loop_step _ _ _ _ Hs). apply IH; [done|lia].
  - intros [= <-] _. by apply crawl_loop_done.
Qed.

(** X16. How a crawl ends.  When [crawl] returns, the queue is empty
    and the state is that of a head of the loop, so what holds at every
    head of the loop holds for the result; the three closing log lines
    report the counters of that state; and the result does not depend
    on the bound put on the number of iterations. *)
Theorem crawl_ends_at_loop_head E fs fuel s' :
  crawl E fuel (init fs) = Some s' →
  (∃ s0, reachable E fs s0
     ∧ queue s0 = [] ∧ queue s' = []
     ∧ visited s' = visited s0
     ∧ same_counters s0 s'
     ∧ files s' = files s0
     ∧ trace s' =
         (trace s0 ++
          [Logged INFO CrawlComplete;
           Logged INFO (TotalPagesVisited (pages_visited s0));
           Logged INFO (TotalPdfsDownloaded (pdfs_downloaded s0))])%list)
  ∧ ∀ fuel', (fuel ≤ fuel')%nat → crawl E fuel' (init fs) = Some s'.
Proof.
  unfold crawl.
  destruct (crawl_loop E fuel (logging INFO StartingCrawl (init fs))) as [s0|] eqn:Hrun;
    [|done].
  intros [= <-]. split.
  - destruct (crawl_loop_reachable E fs _ _ _ (reach_start E fs) Hrun) as [Hr Hq].
    exists s0. simpl. split_and!; [done|done|done|done|by repeat split|done|].
    by rewrite <- !app_assoc.
  - intros fuel' Hle. by rewrite (crawl_loop_more_fuel _ _ _ _ _ Hrun Hle).
Qed.

Lemma crawl_ends_at_loop_head_witness :
  (∃ s0, reachable scenario ∅ s0
     ∧ queue s0 = []
     ∧ queue (logging INFO (TotalPdfsDownloaded 1)
                (logging INFO (TotalPagesVisited 3)
                   (logging INFO CrawlComplete (scenario_final scenario report_pdf)))) = []
     ∧ visited (logging INFO (TotalPdfsDownloaded 1)
                  (logging INFO (TotalPagesVisited 3)
                     (logging INFO CrawlComplete (scenario_final scenario report_pdf))))
       = visited s0
     ∧ same_counters s0
         (logging INFO (TotalPdfsDownloaded 1)
            (logging INFO (TotalPagesVisited 3)
               (logging INFO CrawlComplete (scenario_final scenario report_pdf))))
     ∧ files (logging INFO (TotalPdfsDownloaded 1)
                (logging INFO (TotalPagesVisited 3)
                   (logging INFO CrawlComplete (scenario_final scenario report_pdf))))
       = files s0
     ∧ trace (logging INFO (TotalPdfsDownloaded 1)
                (logging INFO (TotalPagesVisited 3)
                   (logging INFO CrawlComplete (scenario_final scenario report_pdf))))
       = (trace s0 ++
          [Logged INFO CrawlComplete;
           Logged INFO (TotalPagesVisited (pages_visited s0));
           Logged INFO (TotalPdfsDownloaded (pdfs_downloaded s0))])%list)
  ∧ ∀ fuel', (3 ≤ fuel')%nat →
      crawl scenario fuel' (init ∅)
      = Some (logging INFO (TotalPdfsDownloaded 1)
                (logging INFO (TotalPagesVisited 3)
                   (logging INFO CrawlComplete (scenario_final scenario report_pdf)))).
Proof.
  apply (crawl_ends_at_loop_head scenario ∅ 3).
  unfold crawl.
  change (logging INFO StartingCrawl (init ∅)) with scenario_start.
  rewrite (scenario_run scenario seed_page report_pdf tiny_pdf offsite_url scenario_plays 3).
  reflexivity.
Defined.

(** ** Proofs: the crawl of a finite site *)

Lemma get_response_loop_served E url remaining : ∀ attempt s s' fl r,
  get_response_loop E url attempt remaining s = (s', fl, Some r) →
  ∃ t, requests_get E t url = Responds r.
Proof.
  induction remaining as [|k IH]; intros attempt s s' fl r; simpl; [done|].
  destruct (requests_get E (now s) url) as [r0| |] eqn:Hget.
  - intros [= _ _ <-]. by exists (now s).
  - apply IH.
  - done.
Qed.

Lemma enqueue_links_served E page hrefs s s' fl :
  enqueue_links E page hrefs s = (s', fl) →
  ∀ u, u ∈ queue s' →
    u ∈ queue s
    ∨ (netloc_on_domain E u ∧ ∃ h, h ∈ hrefs ∧ normalize_link E page h = Some u).
Proof.
  intros H u Hu.
  apply enqueue_links_appends in H as (new & Hq & _ & Hsub & Hnew).
  rewrite Hq in Hu. apply elem_of_app in Hu as [Hu|Hu]; [by left|right].
  split; [by apply Hnew|].
  apply list_elem_of_omap. by eapply elem_of_sublist.
Qed.

Lemma process_served E url s s' fl :
  process E url s = (s', fl) →
  ∀ u, u ∈ queue s' → u ∈ queue s ∨ (netloc_on_domain E u ∧ served_link E u).
Proof.
  unfold process, get_response.
  destruct (get_response_loop E url 0 max_retries s) as [[s1 f1] r] eqn:Hg.
  pose proof (get_response_loop_frame _ _ _ _ _ _ _ _ Hg) as ([_ Hq] & _ & _).
  assert (Hsame : ∀ s2, queue s2 = queue s1 →
            ∀ u, u ∈ queue s2 → u ∈ queue s ∨ (netloc_on_domain E u ∧ served_link E u)).
  { intros s2 H2 u Hu. left. by rewrite <- Hq, <- H2. }
  assert (Hlinks : ∀ r0 s2 f2, r = Some r0 →
            enqueue_links E url (find_all_a_href E (String.concat "" (chunks r0))) s1
              = (s2, f2) →
            ∀ u, u ∈ queue s2 → u ∈ queue s ∨ (netloc_on_domain E u ∧ served_link E u)).
  { intros r0 s2 f2 -> He u Hu.
    destruct (enqueue_links_served _ _ _ _ _ _ He u Hu) as [Hin|(Hd & h & Hh & Hn)].
    - left. by rewrite <- Hq.
    - right. split; [done|].
      apply get_response_loop_served in Hg as (t & Ht). by exists url, t, r0, h. }
  destruct f1, r as [r|]; try (intros [= <- _]; by apply Hsame).
  - destruct (classify url r).
    + intros [= <- _]. apply Hsame.
      by destruct (save_pdf_effect E url r s1) as ([_ ?] & _).
    + destruct (stream_ok r); [by apply Hlinks|intros [= <- _]; by apply Hsame].
    + intros [= <- _]. by apply Hsame.
  - destruct (classify url r).
    + intros [= <- _]. apply Hsame.
      by destruct (save_pdf_effect E url r s1) as ([_ ?] & _).
    + destruct (stream_ok r); [by apply Hlinks|intros [= <- _]; by apply Hsame].
    + intros [= <- _]. by apply Hsame.
Qed.

Lemma crawl_step_served E s s' :
  crawl_step E s = Some s' →
  ∀ u, u ∈ queue s' → u ∈ queue s ∨ (netloc_on_domain E u ∧ served_link E u).
Proof.
  unfold crawl_step. destruct (queue s) as [|url q] eqn:Hq; [done|]. simpl.
  case_bool_decide.
  - intros [= <-] u Hu. left. by apply elem_of_cons; right.
  - destruct (process E url _) as [s1 fl] eqn:Hp.
    pose proof (process_served _ _ _ _ _ Hp) as Hs. simpl in Hs.
    assert (H1 : ∀ u, u ∈ queue s1 →
              u ∈ url :: q ∨ (netloc_on_domain E u ∧ served_link E u)).
    { intros u Hu. destruct (Hs u Hu) as [Hin|Hnew]; [left|by right].
      by apply elem_of_cons; right. }
    destruct fl; intros [= <-]; exact H1.
Qed.

Lemma reachable_within E fs U s :
  site_within E U → reachable E fs s →
  (∀ u, u ∈ queue s → u ∈ {[seed_url]} ∪ U) ∧ visited s ⊆ {[seed_url]} ∪ U.
Proof.
  intros HU. induction 1 as [|s s' Hr [IHq IHv] Hs].
  - split.
    + intros u Hu. simpl in Hu. apply list_elem_of_singleton in Hu as ->.
      apply elem_of_union. left. by apply elem_of_singleton.
    + simpl. apply empty_subseteq.
  - split.
    + intros u Hu. destruct (crawl_step_served _ _ _ Hs u Hu) as [Hin|[Hd Hsv]].
      * by apply IHq.
      * apply elem_of_union. right. by apply HU.
    + destruct (reachable_head _ _ _ _ Hr Hs) as (url & q & Hq & Hfresh & _).
      destruct (crawl_step_effect _ _ _ _ _ Hq Hfresh Hs) as (Hv & _).
      rewrite Hv. apply union_subseteq. split; [|done].
      apply singleton_subseteq_l. apply IHq. rewrite Hq. by left.
Qed.

(** X17. A finite site bounds the crawl.  When the links on the domain
    that the server ever serves are all in a finite set [U], then at
    every head of the loop the queue and [visited] hold nothing but the
    seed and URLs of [U], so at most [size U + 1] URLs have been
    visited. *)
Theorem finite_site_bounds_crawl E fs U s :
  site_within E U → reachable E fs s →
  (∀ u, u ∈ queue s → u ∈ {[seed_url]} ∪ U)
  ∧ visited s ⊆ {[seed_url]} ∪ U
  ∧ (size (visited s) ≤ size U + 1)%nat.
Proof.
  intros HU Hr. destruct (reachable_within _ _ _ _ HU Hr) as [Hq Hv].
  split_and!; [done|done|].
  pose proof (subseteq_size _ _ Hv) as H1.
  pose proof (subseteq_size (U ∖ {[seed_url]}) U
                (subseteq_difference_l _ _ _ (reflexivity _))) as H2.
  rewrite (size_union_alt ({[seed_url]} : gset string) U), size_singleton in H1.
  lia.
Qed.

Lemma scenario_site : site_within scenario {[report_url; tiny_url]}.
Proof.
  assert (Hoff : ¬ netloc_on_domain scenario offsite_url).
  { intros (p & Hp & He). vm_compute in Hp. injection Hp as <-.
    vm_compute in He. discriminate. }
  assert (Hlinks : ∀ page u h,
            (page = seed_url ∨ page = report_url ∨ page = tiny_url) →
            h ∈ ["/report.pdf"; "/tiny.pdf"; offsite_url] →
            normalize_link scenario page h = Some u →
            u = report_url ∨ u = tiny_url ∨ u = offsite_url).
  { intros page u h Hpage Hh Hn.
    repeat (apply elem_of_cons in Hh as [->|Hh]); [| | |by apply elem_of_nil in Hh];
      destruct Hpage as [-> | [-> | ->]]; vm_compute in Hn; injection Hn as <-; tauto. }
  intros u (page & t & r & h & Hget & Hh & Hn) Hd.
  assert (Hpage : page = seed_url ∨ page = report_url ∨ page = tiny_url).
  { simpl in Hget. unfold scenario_server in Hget.
    destruct (String.eqb_spec page seed_url) as [->|_]; [by left|].
    destruct (String.eqb_spec page report_url) as [->|_]; [by right; left|].
    destruct (String.eqb_spec page tiny_url) as [->|_]; [by right; right|done]. }
  destruct (Hlinks page u h Hpage Hh Hn) as [-> | [-> | ->]].
  - apply elem_of_union. left. by apply elem_of_singleton.
  - apply elem_of_union. right. by apply elem_of_singleton.
  - done.
Qed.

Lemma finite_site_bounds_crawl_witness :
  (∀ u, u ∈ queue (scenario_final scenario report_pdf) →
        u ∈ {[seed_url]} ∪ ({[report_url; tiny_url]} : gset string))
  ∧ visited (scenario_final scenario report_pdf)
      ⊆ {[seed_url]} ∪ {[report_url; tiny_url]}
  ∧ (size (visited (scenario_final scenario report_pdf))
     ≤ size ({[report_url; tiny_url]} : gset string) + 1)%nat.
Proof.
  exact (finite_site_bounds_crawl scenario ∅ {[report_url; tiny_url]} _
           scenario_site scenario_final_reachable).
Defined.

(** ** Proofs: no fragment reaches the frontier *)

(** X18. No fragment reaches the frontier.  At every head of the loop
    no URL in the queue and no URL in [visited] contains a [#], and no
    request was sent for a URL that contains one: every link is stripped
    of its fragment before it is tested and queued. *)
Theorem no_fragment_in_frontier E fs s :
  reachable E fs s →
  (∀ u, u ∈ queue s → Py.has_char "#" u = false)
  ∧ (∀ u, u ∈ visited s → Py.has_char "#" u = false)
  ∧ (∀ u, Get u ∈ trace s → Py.has_char "#" u = false).
Proof.
  induction 1 as [|s s' Hr (IHq & IHv & IHg) Hs].
  - split_and!.
    + intros u Hu. simpl in Hu. by apply list_elem_of_singleton in Hu as ->.
    + intros u Hu. simpl in Hu. by apply elem_of_empty in Hu.
    + intros u Hu. simpl in Hu. apply list_elem_of_singleton in Hu. discriminate.
  - destruct (reachable_head _ _ _ _ Hr Hs) as (url & q & Hq & Hfresh & _).
    destruct (crawl_step_effect _ _ _ _ _ Hq Hfresh Hs)
      as (Hv & _ & _ & _ & (evs & Ht & _ & Hall) & _).
    assert (Hurl : Py.has_char "#" url = false) by (apply IHq; rewrite Hq; by left).
    split_and!.
    + intros u Hu.
      destruct (crawl_step_served _ _ _ Hs u Hu)
        as [Hin|(_ & page & t & r & h & _ & _ & Hn)]; [by apply IHq|].
      by eapply normalize_link_no_hash.
    + intros u Hu. rewrite Hv in Hu.
      apply elem_of_union in Hu as [->%elem_of_singleton|Hu]; [done|by apply IHv].
    + intros u Hu. rewrite Ht in Hu. apply elem_of_app in Hu as [Hu|Hu]; [by apply IHg|].
      apply elem_of_cons in Hu as [Hu|Hu]; [discriminate|].
      apply elem_of_cons in Hu as [Hu|Hu]; [discriminate|].
      by rewrite (proj1 (Forall_forall _ _) Hall _ Hu).
Qed.

Lemma no_fragment_in_frontier_witness :
  (∀ u, u ∈ queue scenario_after_seed → Py.has_char "#" u = false)
  ∧ (∀ u, u ∈ visited scenario_after_seed → Py.has_char "#" u = false)
  ∧ (∀ u, Get u ∈ trace scenario_after_seed → Py.has_char "#" u = false).
Proof.
  exact (no_fragment_in_frontier scenario ∅ _ scenario_seed_reachable).
Defined.
